(** * fvtt-shared-library: enumerations, logging verbosity, versions and
      package identities

    A shallow embedding of [src/enums.js], of the logging and version
    helpers of [src/unnamed/part_001], and of the two snapshots of
    [src/package_info.js], with the properties the specification states
    about them.

    Conventions of the embedding.
    - A JavaScript string is a [string]: the sequence of its code units, each
      below 256.  Case mapping and identifiers are the ASCII ones, so the
      embedding is exact on ASCII text (and on the two guillemets of the
      unknown id, which are only ever compared).
    - A JavaScript number is an integer of [Z]; every number the modelled
      code handles (enumeration values, version components) is an integer,
      and the embedding is exact as long as it is a safe integer.
    - An exception is a [Throw] of the error monad [result]; mutation of an
      object is explicit state passing. *)

From Stdlib Require Import String Ascii ZArith List Sorted Permutation.
From stdpp Require Import base option list gmap strings pretty.

Local Open Scope string_scope.
Local Open Scope Z_scope.

(** ** JavaScript built-ins used by the sources *)

Module Js.

Definition code (c : ascii) : N := N_of_ascii c.

Definition is_lower (c : ascii) : bool := ((97 <=? code c) && (code c <=? 122))%N.
Definition is_upper (c : ascii) : bool := ((65 <=? code c) && (code c <=? 90))%N.
Definition is_digit (c : ascii) : bool := ((48 <=? code c) && (code c <=? 57))%N.

Definition upper_char (c : ascii) : ascii :=
  if is_lower c then ascii_of_N (code c - 32) else c.
Definition lower_char (c : ascii) : ascii :=
  if is_upper c then ascii_of_N (code c + 32) else c.

Fixpoint map_chars (f : ascii → ascii) (s : string) : string :=
  match s with
  | EmptyString => EmptyString
  | String c s' => String (f c) (map_chars f s')
  end.

(** [String.prototype.toUpperCase], [String.prototype.toLowerCase]. *)
Definition toUpperCase : string → string := map_chars upper_char.
Definition toLowerCase : string → string := map_chars lower_char.

Fixpoint has_lower (s : string) : bool :=
  match s with
  | EmptyString => false
  | String c s' => is_lower c || has_lower s'
  end.

(** Truthiness of a string: only the empty string is falsy. *)
Definition truthy_string (s : string) : bool :=
  match s with EmptyString => false | _ => true end.

(** [s.split(sep)] for a one-character separator: the pieces between the
    occurrences of [sep]; a string without [sep] is its only piece. *)
Fixpoint split (sep : ascii) (s : string) : list string :=
  match s with
  | EmptyString => [EmptyString]
  | String c s' =>
      if Ascii.eqb c sep then EmptyString :: split sep s'
      else match split sep s' with
           | piece :: pieces => String c piece :: pieces
           | [] => [String c EmptyString]
           end
  end.

Fixpoint prefix (p s : string) : bool :=
  match p, s with
  | EmptyString, _ => true
  | String a p', String b s' => Ascii.eqb a b && prefix p' s'
  | String _ _, EmptyString => false
  end.

(** [s.includes(sub)]: [sub] occurs in [s] as a substring. *)
Fixpoint includes (s sub : string) : bool :=
  prefix sub s ||
  match s with
  | EmptyString => false
  | String _ s' => includes s' sub
  end.

(** [s.slice(0, n)]. *)
Fixpoint slice0 (n : nat) (s : string) : string :=
  match n, s with
  | S n', String c s' => String c (slice0 n' s')
  | _, _ => EmptyString
  end.

(** White space that [parseInt] skips, among code units below 256. *)
Definition is_space (c : ascii) : bool :=
  (((9 <=? code c) && (code c <=? 13)) || (code c =? 32) || (code c =? 160))%N.

Fixpoint skip_spaces (s : string) : string :=
  match s with
  | String c s' => if is_space c then skip_spaces s' else s
  | EmptyString => s
  end.

(** Value of a digit in the given radix (10 or 16), if it is one. *)
Definition digit_value (radix : Z) (c : ascii) : option Z :=
  let n := Z.of_N (code c) in
  let v := if is_digit c then Some (n - 48)
           else if ((97 <=? code c) && (code c <=? 102))%N then Some (n - 87)
           else if ((65 <=? code c) && (code c <=? 70))%N then Some (n - 55)
           else None in
  match v with
  | Some d => if d <? radix then Some d else None
  | None => None
  end.

(** The longest prefix of digits, read in [radix], continuing from [acc];
    [None] when [s] does not start with a digit. *)
Fixpoint digits (radix : Z) (s : string) (acc : option Z) : option Z :=
  match s with
  | String c s' =>
      match digit_value radix c with
      | Some d => digits radix s' (Some (default 0 acc * radix + d))
      | None => acc
      end
  | EmptyString => acc
  end.

(** [parseInt(s)] without a radix: leading white space, an optional sign,
    an optional [0x] or [0X] prefix selecting radix 16, then the longest
    prefix of digits.  [None] is [NaN]. *)
Definition parseInt (s : string) : option Z :=
  let s := skip_spaces s in
  let '(sign, s) :=
    match s with
    | String "-" s' => (-1, s')
    | String "+" s' => (1, s')
    | _ => (1, s)
    end in
  let magnitude :=
    match s with
    | String "0" (String "x" s') | String "0" (String "X" s') => digits 16 s' None
    | _ => digits 10 s None
    end in
  (λ n, sign * n) <$> magnitude.

(** [String(n)] for an integer [n]: its decimal numeral. *)
Definition number_to_string (n : Z) : string := pretty n.

(** [s.charAt(0)] and [s.slice(1)]. *)
Definition charAt0 (s : string) : string :=
  match s with
  | String c _ => String c EmptyString
  | EmptyString => EmptyString
  end.
Definition slice1 (s : string) : string :=
  match s with
  | String _ s' => s'
  | EmptyString => EmptyString
  end.

(** Every code unit of [s] passes [ok]; [s] starts with one that does. *)
Fixpoint every (ok : ascii → bool) (s : string) : bool :=
  match s with
  | EmptyString => true
  | String c s' => ok c && every ok s'
  end.
Definition starts_with (ok : ascii → bool) (s : string) : bool :=
  match s with
  | EmptyString => false
  | String c _ => ok c
  end.


End Js.

(** ** Values, exceptions and the error monad *)

(** An enumeration value object: an instance of the value class of one
    enumeration.  [m_cls] identifies that value class (each call of [Enum]
    creates a fresh one), [m_name] is the name of the per-value class and
    [m_value] the [value] property, absent when none was provided. *)
Record member : Type := Member {
  m_cls : nat;
  m_name : string;
  m_value : option Z;
}.

#[global] Instance member_eq_dec : EqDecision member.
Proof. solve_decision. Defined.

(** The JavaScript values that reach the modelled functions.  [JOther] is
    any other object (a function, an array, a prototype). *)
Inductive jsval : Type :=
| JUndefined
| JNull
| JBool (b : bool)
| JNum (n : Z)
| JStr (s : string)
| JMember (m : member)
| JOther.

#[global] Instance jsval_eq_dec : EqDecision jsval.
Proof. solve_decision. Defined.

(** The exceptions the sources throw, one constructor per [throw] site (or
    per kind of built-in exception), carrying what the message interpolates. *)
Inductive error : Type :=
| TypeError
| RangeError
| ReferenceError (variable : string)
| EnumFrozen (enum_name : string)
| EnumKeyNotUppercase
| EnumIncorrectValueName (name : string)
| EnumNameAlreadyPresent (name enum_name : string)
| EnumValueAlreadyPresent (value : Z) (enum_name : string)
| EnumNotValidKeyOrValue (value : jsval) (enum_name : string)
| StackTraceMustBeString
| CouldNotCollectStackTrace
| InvalidScriptType (type : string)
| PackageIdMustBeString
| InvalidPackageId (id : string)
| InvalidPackageType (id : string) (type : jsval)
| InvalidKey (key : string)
| ManifestError (message : string)
| InternalError (message : string).

Inductive result (A : Type) : Type :=
| Ok (a : A)
| Throw (e : error).
Arguments Ok {A} a.
Arguments Throw {A} e.

#[global] Instance result_ret : MRet result := λ A a, Ok a.
#[global] Instance result_bind : MBind result := λ A B f c,
  match c with
  | Ok a => f a
  | Throw e => Throw e
  end.

(** [for(const x of l) out.push(f(x))], stopping at the first exception. *)
Fixpoint for_of {A B} (f : A → result B) (l : list A) : result (list B) :=
  match l with
  | [] => Ok []
  | x :: l' => y ← f x; ys ← for_of f l'; Ok (y :: ys)
  end.

(** [try { c } catch(e) { handler }]. *)
Definition try_catch {A} (c : result A) (handler : error → A) : A :=
  match c with
  | Ok a => a
  | Throw e => handler e
  end.

(** Truthiness ([if(v)], [!v]). *)
Definition truthy (v : jsval) : bool :=
  match v with
  | JUndefined | JNull => false
  | JBool b => b
  | JNum n => negb (n =? 0)
  | JStr s => Js.truthy_string s
  | JMember _ | JOther => true
  end.

(** ** Enumerations ([src/enums.js]) *)

Module Enums.

(** The enumeration class object built by [Enum]: its static properties
    [list] ([e_list]) and [reverse] ([e_reverse], which exists only when
    the collection was a dictionary), the value objects stored under
    their names ([e_values]), and whether [Object.freeze] was applied
    ([e_frozen]). [e_name] is the [name] argument of [Enum]
    (the class itself is called [e_name ++ "Enum"]) and [e_cls] identifies
    its value class. *)
Record enum_cls : Type := EnumCls {
  e_name : string;
  e_cls : nat;
  e_values : gmap string member;
  e_list : list member;
  e_reverse : option (gmap Z member);
  e_frozen : bool;
}.

Definition cls_name (E : enum_cls) : string := e_name E ++ "Enum".

(** Properties every such class object has besides its value objects: its
    own statics and what it inherits from [Function.prototype] and
    [Object.prototype]. *)
Definition static_names : list string :=
  [ "list"; "get"; "has"; "toString"; "value_cls"; "sort_list_by_value";
    "prototype"; "apply"; "bind"; "call"; "constructor"; "hasOwnProperty";
    "isPrototypeOf"; "propertyIsEnumerable"; "toLocaleString"; "valueOf";
    "__proto__"; "__defineGetter__"; "__defineSetter__"; "__lookupGetter__";
    "__lookupSetter__" ].

(** [enum_cls[key]]. *)
Definition property (E : enum_cls) (key : string) : result jsval :=
  match e_values E !! key with
  | Some m => Ok (JMember m)
  | None =>
      if bool_decide (key ∈ static_names) then Ok JOther
      else if bool_decide (key = "reverse") then
        Ok (match e_reverse E with Some _ => JOther | None => JUndefined end)
      else if bool_decide (key = "name") then Ok (JStr (cls_name E))
      else if bool_decide (key = "length") then Ok (JNum 1)
      else if bool_decide (key ∈ ["caller"; "arguments"]) then Throw TypeError
      else Ok JUndefined
  end.

(** [key in enum_cls]. *)
Definition has_property (E : enum_cls) (key : string) : bool :=
  bool_decide (is_Some (e_values E !! key))
  || bool_decide (key ∈ (static_names ++ ["name"; "length"; "caller"; "arguments"])%list)
  || (bool_decide (key = "reverse") && bool_decide (is_Some (e_reverse E))).

(** [Function("x", `return class ${name} extends x {}`)] yields a class
    whose [name] is [name] exactly when [name] is empty (an anonymous
    class) or an identifier; any other text is a syntax error or a class
    of another name, which the check on [value_obj.name] rejects. *)
Definition is_identifier_start (c : ascii) : bool :=
  Js.is_upper c || Js.is_lower c || bool_decide (c = "_"%char) || bool_decide (c = "$"%char).
Definition is_identifier_part (c : ascii) : bool :=
  is_identifier_start c || Js.is_digit c.
Definition names_a_class (name : string) : bool :=
  match name with
  | EmptyString => true
  | String c rest =>
      is_identifier_start c && forallb is_identifier_part (list_ascii_of_string rest)
  end.

(** The key of the comparator of [sort_list_by_value]: [a.value ?? 0]. *)
Definition sort_key (m : member) : Z := default 0 (m_value m).

(** [Array.prototype.sort] with the comparator
    [(a.value ?? 0) - (b.value ?? 0)]: the stable sort by [sort_key]. *)
Fixpoint insert_sorted (m : member) (l : list member) : list member :=
  match l with
  | [] => [m]
  | m' :: l' =>
      if sort_key m <=? sort_key m' then m :: m' :: l'
      else m' :: insert_sorted m l'
  end.

Fixpoint array_sort (l : list member) : list member :=
  match l with
  | [] => []
  | m :: l' => insert_sorted m (array_sort l')
  end.

Definition sort_list_by_value (E : enum_cls) : enum_cls :=
  EnumCls (e_name E) (e_cls E) (e_values E) (array_sort (e_list E)) (e_reverse E) (e_frozen E).

(** [EnumValue(enum_cls, name, value, sort)]: the value object created
    and the enumeration with it stored. [value = None] is [undefined].
    (No caller catches its exceptions, so what an interrupted call has
    already written to the enumeration is not kept.) *)
Definition EnumValue (E : enum_cls) (name : string) (value : option Z)
    (sort : bool) : result (enum_cls * member) :=
  if e_frozen E then Throw (EnumFrozen (cls_name E))
  else if negb (bool_decide (name = Js.toUpperCase name)) then Throw EnumKeyNotUppercase
  else if negb (names_a_class name) then Throw (EnumIncorrectValueName name)
  else
    let value_obj := Member (e_cls E) name value in
    if has_property E name then Throw (EnumNameAlreadyPresent name (cls_name E))
    else
      let stored := <[name := value_obj]> (e_values E) in
      reverse' ←
        match value with
        | None => Ok (e_reverse E)
        | Some v =>
            match e_reverse E with
            | None => Throw TypeError
            | Some rev =>
                if bool_decide (is_Some (rev !! v))
                then Throw (EnumValueAlreadyPresent v (cls_name E))
                else Ok (Some (<[v := value_obj]> rev))
            end
        end;
      let E' := EnumCls (e_name E) (e_cls E) stored (e_list E ++ [value_obj])%list reverse' false in
      Ok (if sort then sort_list_by_value E' else E', value_obj).

(** The [collection] argument of [Enum]: an array of names, or a
    dictionary from names to values, in property order. *)
Inductive collection : Type :=
| Names (names : list string)
| Dict (entries : list (string * option Z)).

Definition entries_of (c : collection) : list (string * option Z) :=
  match c with
  | Names names => (λ n, (n, None)) <$> names
  | Dict entries => entries
  end.

Fixpoint add_values (E : enum_cls) (entries : list (string * option Z)) : result enum_cls :=
  match entries with
  | [] => Ok E
  | (name, value) :: rest =>
      '(E', _) ← EnumValue E name value false;
      add_values E' rest
  end.

(** [Enum(name, collection, freeze)]; [cls] is the fresh value class. *)
Definition Enum (cls : nat) (name : string) (c : collection) (freeze : bool)
    : result enum_cls :=
  let has_value := match c with Names _ => false | Dict _ => true end in
  let enum0 := EnumCls name cls ∅ [] (if has_value then Some ∅ else None) false in
  E ← add_values enum0 (entries_of c);
  let E := sort_list_by_value E in
  Ok (EnumCls (e_name E) (e_cls E) (e_values E) (e_list E) (e_reverse E) freeze).

(** [value instanceof value_cls], the body of the static [has]. *)
Definition has (E : enum_cls) (value : jsval) : bool :=
  match value with
  | JMember m => bool_decide (m_cls m = e_cls E)
  | _ => false
  end.

(** [this.reverse.get(value)] on the map [rev]: its keys are numbers. *)
Definition reverse_get (rev : gmap Z member) (value : jsval) : option member :=
  match value with
  | JNum n => rev !! n
  | _ => None
  end.

(** The static [get(value, dflt=undefined)]; [dflt = None] is a call
    without the second argument. *)
Definition get (E : enum_cls) (value : jsval) (dflt : option jsval) : result jsval :=
  let dflt := default JUndefined dflt in
  if has E value then Ok value
  else
    by_name ←
      match value with
      | JStr s => res ← property E (Js.toUpperCase s);
                  Ok (if truthy res then Some res else None)
      | _ => Ok None
      end;
    match by_name with
    | Some res => Ok res
    | None =>
        match e_reverse E with
        | None => Throw TypeError
        | Some rev =>
            let found := reverse_get rev value in
            let found :=
              match found, value with
              | None, JStr s =>
                  match Js.parseInt s with
                  | Some value_int => reverse_get rev (JNum value_int)
                  | None => found
                  end
              | _, _ => found
              end in
            match found with
            | Some m => Ok (JMember m)
            | None =>
                if bool_decide (dflt = JUndefined)
                then Throw (EnumNotValidKeyOrValue value (e_name E))
                else Ok dflt
            end
        end
    end.

(** The getters of a value object. *)
Definition lower (m : member) : string := Js.toLowerCase (m_name m).

(** The value objects [Enum] creates, in the order it creates them. *)
Definition created (cls : nat) (c : collection) : list member :=
  (λ entry, Member cls entry.1 entry.2) <$> entries_of c.

(** [built E history]: [E] is an enumeration the program can hold, built
    by [Enum] and then extended by calls of [EnumValue]; [history] lists
    its value objects in the order of their creation. *)
Inductive built : enum_cls → list member → Prop :=
| built_Enum cls name c freeze E :
    Enum cls name c freeze = Ok E →
    built E (created cls c)
| built_EnumValue E history name value sort E' m :
    built E history →
    EnumValue E name value sort = Ok (E', m) →
    built E' (history ++ [m])%list.



(** [value] is no value object of [E], names none (as a string, in upper
    case), and is the underlying value of none, neither as it is nor (as
    a string) parsed as an integer. *)
Definition matches_nothing (E : enum_cls) (value : jsval) : Prop :=
  has E value = false
  ∧ (∀ s, value = JStr s → e_values E !! Js.toUpperCase s = None)
  ∧ (∀ rev, e_reverse E = Some rev →
       reverse_get rev value = None
       ∧ ∀ s n, value = JStr s → Js.parseInt s = Some n → rev !! n = None).

(** The members of [l] with sort key [k], in their order in [l]. *)
Definition with_key (k : Z) (l : list member) : list member :=
  filter (λ m, sort_key m = k) l.

(** The tables of an enumeration agree: the member list holds no name
    twice; the value objects stored under names are the members, each
    under its own name; every member is an instance of the value class
    and has a name in upper case; and the reverse map, when there is one,
    sends the underlying values to the members that have them (without
    one, no member has a value). *)
Definition consistent (E : enum_cls) : Prop :=
  NoDup (m_name <$> e_list E)
  ∧ (∀ n m, e_values E !! n = Some m ↔ m ∈ e_list E ∧ m_name m = n)
  ∧ (∀ m, m ∈ e_list E → m_cls m = e_cls E ∧ m_name m = Js.toUpperCase (m_name m))
  ∧ match e_reverse E with
    | Some rev => ∀ v m, rev !! v = Some m ↔ m ∈ e_list E ∧ m_value m = Some v
    | None => ∀ m, m ∈ e_list E → m_value m = None
    end.


End Enums.

(** ** Regular expressions

    The backtracking matcher of ECMAScript regular expressions, for the
    constructs the sources use: literals, [.], character classes,
    sequence, alternation, greedy and lazy [*] and [+], capture groups,
    [^], [$], positive lookahead, and the flags [i] and [m].  (No source
    pattern has a group under a quantifier, so captures are never reset.) *)

Module Regex.

Inductive regex : Type :=
| Chr (c : ascii)
| Any
| Class (ranges : list (ascii * ascii))
| Seq (r1 r2 : regex)
| Alt (r1 r2 : regex)
| Star (greedy : bool) (r : regex)
| Group (n : nat) (r : regex)
| Bol
| Eol
| Lookahead (r : regex).

Definition Plus (greedy : bool) (r : regex) : regex := Seq r (Star greedy r).

Fixpoint Lit (s : string) : regex :=
  match s with
  | EmptyString => Star true (Class [])
  | String c EmptyString => Chr c
  | String c s' => Seq (Chr c) (Lit s')
  end.

Record flags : Type := Flags { ignore_case : bool; multiline : bool }.

(** A position in the input: its index, the code unit before it and the
    text from it on. *)
Record cursor : Type := Cursor {
  pos : nat;
  before : option ascii;
  rest : string;
}.

Definition start_of (s : string) : cursor := Cursor 0 None s.

Definition advance (x : cursor) : option (ascii * cursor) :=
  match rest x with
  | EmptyString => None
  | String c s => Some (c, Cursor (S (pos x)) (Some c) s)
  end.

(** Line terminators among code units below 256: LF and CR. *)
Definition is_line_terminator (c : ascii) : bool :=
  ((Js.code c =? 10) || (Js.code c =? 13))%N.

Definition in_ranges (ranges : list (ascii * ascii)) (c : ascii) : bool :=
  existsb (λ '(lo, hi), (Js.code lo <=? Js.code c)%N && (Js.code c <=? Js.code hi)%N) ranges.

Definition chr_matches (fl : flags) (c ch : ascii) : bool :=
  if ignore_case fl then Ascii.eqb (Js.upper_char c) (Js.upper_char ch)
  else Ascii.eqb c ch.

Definition class_matches (fl : flags) (ranges : list (ascii * ascii)) (ch : ascii) : bool :=
  if ignore_case fl
  then in_ranges ranges ch || in_ranges ranges (Js.upper_char ch)
       || in_ranges ranges (Js.lower_char ch)
  else in_ranges ranges ch.

Definition at_bol (fl : flags) (x : cursor) : bool :=
  match before x with
  | None => true
  | Some c => multiline fl && is_line_terminator c
  end.

Definition at_eol (fl : flags) (x : cursor) : bool :=
  match rest x with
  | EmptyString => true
  | String c _ => multiline fl && is_line_terminator c
  end.

(** The text between two positions of the same input. *)
Definition text_between (x y : cursor) : string :=
  Js.slice0 (pos y - pos x) (rest x).

Definition captures := gmap nat string.
Definition continuation := cursor → captures → option (cursor * captures).

Definition step (ok : ascii → bool) (x : cursor) (caps : captures)
    (k : continuation) : option (cursor * captures) :=
  match advance x with
  | Some (ch, y) => if ok ch then k y caps else None
  | None => None
  end.

(** The iterations of [r*] and [r*?], given the matcher [once] of [r]:
    greedy, try one more iteration before the continuation; lazy, the
    continuation first.  An iteration that consumes nothing is rejected,
    so there are at most as many as code units left, which is what
    [fuel] starts as. *)
Fixpoint iterate (once : cursor → captures → continuation → option (cursor * captures))
    (greedy : bool) (k : continuation) (fuel : nat) (x : cursor) (caps : captures)
    {struct fuel} : option (cursor * captures) :=
  match fuel with
  | O => k x caps
  | S fuel' =>
      let again (_ : unit) :=
        once x caps
          (λ y caps', if (pos y =? pos x)%nat then None
                      else iterate once greedy k fuel' y caps') in
      if greedy then
        match again () with
        | Some res => Some res
        | None => k x caps
        end
      else
        match k x caps with
        | Some res => Some res
        | None => again ()
        end
  end.

(** [rmatch fl r x caps k]: match [r] at [x], then continue with [k];
    [None] is failure, after which the caller backtracks. *)
Fixpoint rmatch (fl : flags) (r : regex) (x : cursor) (caps : captures)
    (k : continuation) {struct r} : option (cursor * captures) :=
  match r with
  | Chr c => step (chr_matches fl c) x caps k
  | Any => step (λ ch, negb (is_line_terminator ch)) x caps k
  | Class ranges => step (class_matches fl ranges) x caps k
  | Seq r1 r2 => rmatch fl r1 x caps (λ y caps', rmatch fl r2 y caps' k)
  | Alt r1 r2 =>
      match rmatch fl r1 x caps k with
      | Some res => Some res
      | None => rmatch fl r2 x caps k
      end
  | Star greedy r' =>
      iterate (rmatch fl r') greedy k (String.length (rest x)) x caps
  | Group n r' => rmatch fl r' x caps (λ y caps', k y (<[n := text_between x y]> caps'))
  | Bol => if at_bol fl x then k x caps else None
  | Eol => if at_eol fl x then k x caps else None
  | Lookahead r' =>
      match rmatch fl r' x caps (λ y caps', Some (y, caps')) with
      | Some (_, caps') => k x caps'
      | None => None
      end
  end.

(** The last code unit of [s], or [before] when [s] is empty; and where
    the matcher stands once it has consumed [consumed] from [x], with
    [tail] left to read. *)
Fixpoint last_unit (before : option ascii) (s : string) : option ascii :=
  match s with
  | EmptyString => before
  | String c s' => last_unit (Some c) s'
  end.
Definition consume (x : cursor) (consumed tail : string) : cursor :=
  Cursor (String.length consumed + pos x) (last_unit (before x) consumed) tail.

(** A successful match: where it starts and ends, and its captures;
    group 0 is the whole match. *)
Record rmatch_result : Type := Match {
  from : cursor;
  upto : cursor;
  groups : captures;
}.

Definition group (n : nat) (m : rmatch_result) : option string :=
  match n with
  | O => Some (text_between (from m) (upto m))
  | _ => groups m !! n
  end.

(** [RegExpBuiltinExec]: the first position, from [x] on, at which [r]
    matches. *)
Fixpoint exec_from (fl : flags) (r : regex) (index : nat) (prev : option ascii)
    (s : string) : option rmatch_result :=
  let x := Cursor index prev s in
  match rmatch fl r x ∅ (λ y caps, Some (y, caps)) with
  | Some (y, caps) => Some (Match x y caps)
  | None =>
      match s with
      | EmptyString => None
      | String c s' => exec_from fl r (S index) (Some c) s'
      end
  end.

Definition exec (fl : flags) (r : regex) (x : cursor) : option rmatch_result :=
  exec_from fl r (pos x) (before x) (rest x).

(** [s.match(r)] and [r.test(s)] for a pattern without the [g] flag. *)
Definition match_ (fl : flags) (r : regex) (s : string) : option rmatch_result :=
  exec fl r (start_of s).

Definition test (fl : flags) (r : regex) (s : string) : bool :=
  bool_decide (is_Some (match_ fl r s)).

(** [s.matchAll(r)] for a pattern with the [g] flag: the successive
    matches, each search starting where the previous match ended (one
    further after an empty match). *)
Fixpoint matchAll_from (fl : flags) (r : regex) (fuel : nat) (x : cursor)
    : list rmatch_result :=
  match fuel with
  | O => []
  | S fuel' =>
      match exec fl r x with
      | None => []
      | Some m =>
          let y := upto m in
          if (pos y =? pos (from m))%nat then
            match advance y with
            | Some (_, y') => m :: matchAll_from fl r fuel' y'
            | None => [m]
            end
          else m :: matchAll_from fl r fuel' y
      end
  end.

Definition matchAll (fl : flags) (r : regex) (s : string) : list rmatch_result :=
  matchAll_from fl r (S (String.length s)) (start_of s).

End Regex.

(** ** Logging verbosity (the logging helper of [src/unnamed/part_001]) *)

Module Log.
Import Enums.

Definition MAX_SAFE_INTEGER : Z := 9007199254740991.

Definition VERBOSITY_collection : collection :=
  Dict [ ("ZERO", Some 0); ("TRACE", Some 100); ("DEBUG", Some 200);
         ("INFO", Some 300); ("WARNING", Some 400); ("ERROR", Some 500);
         ("CRITICAL", Some (MAX_SAFE_INTEGER - 1));
         ("ALWAYS", Some MAX_SAFE_INTEGER) ].

(** [VERBOSITY = Enum('PackageType', {...})]; its value class is 1. *)
Definition VERBOSITY : enum_cls :=
  Eval vm_compute in
    match Enum 1 "PackageType" VERBOSITY_collection true with
    | Ok E => E
    | Throw _ => EnumCls "PackageType" 1 ∅ [] None true
    end.

Definition ZERO : member := Member 1 "ZERO" (Some 0).
Definition TRACE : member := Member 1 "TRACE" (Some 100).
Definition DEBUG : member := Member 1 "DEBUG" (Some 200).
Definition INFO : member := Member 1 "INFO" (Some 300).
Definition WARNING : member := Member 1 "WARNING" (Some 400).
Definition ERROR : member := Member 1 "ERROR" (Some 500).
Definition CRITICAL : member := Member 1 "CRITICAL" (Some (MAX_SAFE_INTEGER - 1)).
Definition ALWAYS : member := Member 1 "ALWAYS" (Some MAX_SAFE_INTEGER).

(** A verbosity as [Log] takes it: [null] or [undefined], a value object,
    or an integer (the types the sanity check of the [verbosity] setter
    admits, besides the absent one). *)
Inductive verbosity : Type :=
| Nullish
| Level (m : member)
| Number (n : Z).

(** [verbosity_to_value]: 0 when there is none, else
    [verbosity.value ?? verbosity]: a number, or the value object itself
    when it has no [value]. *)
Definition verbosity_to_value (v : verbosity) : Z + member :=
  match v with
  | Nullish => inl 0
  | Level m =>
      match m_value m with
      | Some n => inl n
      | None => inr m
      end
  | Number n => inl n
  end.

(** [a >= b] on what [verbosity_to_value] returns.  A value object is
    compared through its string form, its name: with another object as
    strings, with a number as that string converted to a number, which is
    0 for the empty name and [NaN] for every identifier. *)
Definition js_ge (a b : Z + member) : bool :=
  match a, b with
  | inl x, inl y => x >=? y
  | inr m, inr m' => negb (String.ltb (m_name m) (m_name m'))
  | inr m, inl y => bool_decide (m_name m = "") && (0 >=? y)
  | inl x, inr m => bool_decide (m_name m = "") && (x >=? 0)
  end.

(** The state of the module: the variable [CURRENT_VERBOSITY], which
    starts as [null]. *)
Definition CURRENT_VERBOSITY_initial : verbosity := Nullish.

Section WithCurrentVerbosity.
Variable CURRENT_VERBOSITY : verbosity.

(** [static get verbosity()]: [CURRENT_VERBOSITY ?? VERBOSITY.WARNING]. *)
Definition get_verbosity : verbosity :=
  match CURRENT_VERBOSITY with
  | Nullish => Level WARNING
  | v => v
  end.

(** [static get verbosity_value()]. *)
Definition verbosity_value : Z + member := verbosity_to_value get_verbosity.

(** [static enabled(verbosity=null)]. *)
Definition enabled (v : verbosity) : bool :=
  let desired_value := verbosity_to_value v in
  let current_value := verbosity_value in
  js_ge desired_value current_value.
End WithCurrentVerbosity.

End Log.

(** ** The host: what the sources read from the global [game] and from
       [Error().stack]

    An absent field ([None]) is one that is [undefined] or [null]; the
    sources never tell the two apart. *)

Module Host.

(** [compatibility] of a package manifest. *)
Record Compatibility : Type := {
  minimum : option string;
  verified : option string;
  maximum : option string;
}.

(** The fields of a package manifest the sources read. *)
Record Manifest : Type := {
  version : option string;
  compatibility : option Compatibility;
  minimumCoreVersion : option string;
  compatibleCoreVersion : option string;
  flags_git_version : option string;  (* [flags?.git_version] *)
}.

(** A module, the system or the world: its [id], whether [active] is
    truthy, the manifest fields it carries itself ([pk_own]), and its
    [data]. *)
Record Package : Type := {
  pk_id : option string;
  pk_active : bool;
  pk_own : Manifest;
  pk_data : option Manifest;
}.

(** [game.data] *)
Record GameData : Type := {
  system : option Package;
  world : option Package;
  data_version : option string;
}.

(** [game]: the registry [game.modules] (a [Map] from module ids),
    [game.data], [game.version] and [game.release?.version]. *)
Record Game : Type := {
  modules : option (gmap string Package);
  game_data : option GameData;
  game_version_field : option string;
  release_version : option string;
}.

(** The environment of a call: the global [game], and the string that
    [Error().stack] evaluates to ([None] when it is not a string). *)
Record Env : Type := {
  game : option Game;
  captured_stack : option string;
}.

(** Optional chaining: [a?.f]. *)
Definition chain {A B} (a : option A) (f : A → option B) : option B :=
  match a with
  | Some x => f x
  | None => None
  end.
Infix "?." := chain (at level 50, left associativity).

(** [game?.modules], [game?.data?.system?.id], [game?.data?.world?.id] *)
Definition game_modules (env : Env) : option (gmap string Package) :=
  game env ?. modules.
Definition game_system_id (env : Env) : option string :=
  game env ?. game_data ?. system ?. pk_id.
Definition game_world_id (env : Env) : option string :=
  game env ?. game_data ?. world ?. pk_id.

(** [a ?? b] *)
Definition nullish_or {A} (a b : option A) : option A :=
  match a with
  | Some _ => a
  | None => b
  end.

(** [game_version(return_null)] of [src/polyfill.js]. *)
Definition game_version (env : Env) (return_null : bool) : result (option string) :=
  let version :=
    nullish_or (game env ?. game_version_field)
      (nullish_or (game env ?. release_version)
         (game env ?. game_data ?. data_version)) in
  if negb return_null && bool_decide (version = None)
  then Throw (InternalError "Unable to obtain the Foundry version")
  else Ok version.

Definition truthy_opt (s : option string) : bool :=
  match s with
  | Some s => Js.truthy_string s
  | None => false
  end.

End Host.

(** ** Host polyfills (the user and settings helpers of [src/polyfill.js]) *)

Module Polyfill.

(** An entry of [game.data.users], or [game.user.data]: its [_id] and
    its [role]. *)
Record UserData : Type := {
  user_id : string;
  role : Z;
}.

(** What the user helpers read of [game]: [game?.user?.data],
    [game?.user?.isGM] ([None] when it is [undefined]), [game?.userId],
    [game?.data?.userId] and [game?.data?.users]. *)
Record Users : Type := {
  user_data : option UserData;
  user_isGM : option jsval;
  userId : option string;
  data_userId : option string;
  data_users : option (list UserData);
}.

(** [users.find((x) => x._id == userid)] *)
Definition find_user (userid : string) (users : list UserData) : option UserData :=
  head (filter (λ x, user_id x = userid) users).

(** [game_user_data(return_null=false)]; [None] is [null]. *)
Definition game_user_data (game : Users) (return_null : bool) : result (option UserData) :=
  match user_data game with
  | Some orig_game_user_data => Ok (Some orig_game_user_data)
  | None =>
      let userid := Host.nullish_or (userId game) (data_userId game) in
      if negb (Host.truthy_opt userid) then
        if return_null then Ok None
        else Throw (InternalError "Unable to obtain the current user ID")
      else
        match Host.chain (data_users game) (find_user (default "" userid)) with
        | Some user_data => Ok (Some user_data)
        | None =>
            if return_null then Ok None
            else Throw (InternalError "Unable to obtain the current user data object")
        end
  end.

(** [game_user_isGM(return_null=false)] *)
Definition game_user_isGM (game : Users) (return_null : bool) : result jsval :=
  match user_isGM game with
  | Some orig_game_user_isGM => Ok orig_game_user_isGM
  | None =>
      user_data ← game_user_data game return_null;
      match user_data with
      | None => Ok JNull
      | Some user_data => Ok (JBool (role user_data =? 4))
      end
  end.

(** What [game_settings_get] reads: the method [game?.settings?.get], when
    there is one, as the function of the namespace and the key that it
    computes, and [localStorage], when there is one, as the function from
    a key to the string stored under it. *)
Record Settings : Type := {
  settings_get : option (string → string → result jsval);
  localStorage : option (string → option string);
}.

Section WithJSON.
(** [JSON.parse] *)
Variable JSON_parse : string → result jsval.

Definition unable_to_obtain (storage_key : string) : string :=
  "Unable to obtain the setting '" ++ storage_key ++ "'".

(** [game_settings_get(namespace, key, always_fallback=false,
    return_null=true)] *)
Definition game_settings_get (host : Settings) (namespace key : string)
    (always_fallback return_null : bool) : result jsval :=
  let fallback :=
    let storage_key := namespace ++ "." ++ key in
    let from_storage :=
      match Host.chain (localStorage host) (λ storage, storage storage_key) with
      | None =>
          if return_null then Ok JNull
          else Throw (InternalError (unable_to_obtain storage_key))
      | Some data =>
          json_data ← JSON_parse data;
          if bool_decide (json_data = JUndefined) || bool_decide (json_data = JNull) then
            if return_null then Ok JNull
            else Throw (InternalError (unable_to_obtain storage_key))
          else Ok json_data
      end in
    match from_storage with
    | Ok json_data => Ok json_data
    | Throw _ =>
        if return_null then Ok JNull
        else Throw (InternalError
                      (unable_to_obtain storage_key ++ " due to exception in polyfill:"))
    end in
  match settings_get host with
  | Some orig_game_settings_get =>
      match orig_game_settings_get namespace key with
      | Ok value => Ok value
      | Throw e => if negb always_fallback then Throw e else fallback
      end
  | None => fallback
  end.
End WithJSON.

End Polyfill.

(** ** Logging functions (the rest of the logging helper) *)

Module Logger.
Import Enums Log.

(** The methods of [console] that the maps below name. *)
Inductive console_method : Type :=
| console_debug
| console_info
| console_warn
| console_error
| console_log.

(** An object literal as the map from its property keys; of two entries
    with the same key the later one stays. *)
Definition object_literal {A} (entries : list (string * A)) : gmap string A :=
  foldl (λ obj entry, <[entry.1 := entry.2]> obj) ∅ entries.

(** The property key of a computed key [[v.value]] and of a lookup
    [map[v.value]]. *)
Definition property_key (value : option Z) : string :=
  match value with
  | Some n => Js.number_to_string n
  | None => "undefined"
  end.

(** The property key of what [verbosity_to_value] returns: the numeral of
    a number, and the string form of a value object, which is its name.
    (A name is in upper case, and no property that an object literal
    inherits has such a key.) *)
Definition value_key (value : Z + member) : string :=
  match value with
  | inl n => Js.number_to_string n
  | inr m => m_name m
  end.

Definition VERBOSITY_CONSOLEFN_MAP : gmap string console_method :=
  object_literal
    [ (property_key (m_value ZERO), console_debug);
      (property_key (m_value TRACE), console_debug);
      (property_key (m_value DEBUG), console_debug);
      (property_key (m_value INFO), console_info);
      (property_key (m_value WARNING), console_warn);
      (property_key (m_value ERROR), console_error);
      (property_key (m_value CRITICAL), console_error);
      (property_key (m_value ALWAYS), console_info) ].

Definition LOG_ALIASES_VERBOSITY_MAP : list (string * member) :=
  [ ("never", ZERO); ("trace", TRACE); ("debug", DEBUG); ("info", INFO);
    ("warning", WARNING); ("warn", WARNING); ("error", ERROR);
    ("critical", CRITICAL); ("always", ALWAYS) ].

(** [a > b] between what [verbosity_to_value] returns and the [value] of a
    level.  A value object is compared through its name converted to a
    number, and [undefined] as [NaN]. *)
Definition js_gt (a : Z + member) (b : option Z) : bool :=
  match a, b with
  | inl x, Some y => x >? y
  | inr m, Some y => bool_decide (m_name m = "") && (0 >? y)
  | _, None => false
  end.

(** The loop [for(const v of VERBOSITY.list)] of
    [verbosity_to_mapped_value]; [None] is [undefined]. *)
Fixpoint nearest_verbosity {A} (value : Z + member) (map : gmap string A) (dflt : A)
    (levels : list member) : option A :=
  match levels with
  | [] => Some dflt
  | v :: levels' =>
      if js_gt value (m_value v) then nearest_verbosity value map dflt levels'
      else map !! property_key (m_value v)
  end.

(** [verbosity_to_mapped_value(verbosity, map, dflt)]; [truthy_entry]
    tells which entries of [map] are truthy. *)
Definition verbosity_to_mapped_value {A} (truthy_entry : A → bool) (v : verbosity)
    (map : gmap string A) (dflt : A) : option A :=
  let value := verbosity_to_value v in
  match map !! value_key value with
  | Some result =>
      if truthy_entry result then Some result
      else nearest_verbosity value map dflt (e_list VERBOSITY)
  | None => nearest_verbosity value map dflt (e_list VERBOSITY)
  end.

(** [verbosity_to_log_function(verbosity)], as the name of the method of
    [console]. *)
Definition verbosity_to_log_function (v : verbosity) : option console_method :=
  verbosity_to_mapped_value (λ _, true) v VERBOSITY_CONSOLEFN_MAP console_log.

(** What [Log.fn] returns: a method of [console] bound to a prefix. *)
Record logger : Type := Logger {
  method : console_method;
  bound_prefix : option string;
}.

(** [value = VERBOSITY.get(value, value)] and the sanity check of the
    setter of [Log.verbosity]: the value it then stores in
    [CURRENT_VERBOSITY]. *)
Definition checked_verbosity (value : jsval) : result verbosity :=
  value ← get VERBOSITY value (Some value);
  match value with
  | JMember m =>
      if has VERBOSITY value then Ok (Level m)
      else Throw (InternalError "Parameter 'value' must be a 'VERBOSITY' enum value, or an integer.")
  | JNum n => Ok (Number n)
  | _ => Throw (InternalError "Parameter 'value' must be a 'VERBOSITY' enum value, or an integer.")
  end.

(** The error of the sanity check of the setter. *)
Definition invalid_verbosity : error :=
  InternalError "Parameter 'value' must be a 'VERBOSITY' enum value, or an integer.".

(** [v === undefined || v === null] *)
Definition is_nullish (v : verbosity) : bool :=
  match v with
  | Nullish => true
  | _ => false
  end.

Section WithTitle.
Variable PACKAGE_TITLE : string.

Definition LOG_PREFIX : string := PACKAGE_TITLE ++ ":".

Definition LOG_PREFIX_VERBOSITY_MAP : gmap string string :=
  object_literal
    [ (property_key (m_value ZERO), "[0] " ++ LOG_PREFIX);
      (property_key (m_value TRACE), "[T] " ++ LOG_PREFIX);
      (property_key (m_value DEBUG), "[D] " ++ LOG_PREFIX);
      (property_key (m_value INFO), "[I] " ++ LOG_PREFIX);
      (property_key (m_value WARNING), "[W] " ++ LOG_PREFIX);
      (property_key (m_value ERROR), "[E] " ++ LOG_PREFIX);
      (property_key (m_value CRITICAL), "[!] " ++ LOG_PREFIX);
      (property_key (m_value ALWAYS), LOG_PREFIX) ].

(** [verbosity_to_log_prefix(verbosity)] *)
Definition verbosity_to_log_prefix (v : verbosity) : option string :=
  verbosity_to_mapped_value Js.truthy_string v LOG_PREFIX_VERBOSITY_MAP LOG_PREFIX.

(** [Log.fn(verbosity, fn_verbosity=verbosity)] while [CURRENT_VERBOSITY]
    is [current]; [fn_verbosity = None] is a call without it, and [Ok None]
    is [null]. *)
Definition fn (current : verbosity) (v : verbosity) (fn_verbosity : option verbosity)
    : result (option logger) :=
  let fn_verbosity := default v fn_verbosity in
  if negb (enabled current v) then Ok None
  else
    match verbosity_to_log_function fn_verbosity with
    | None => Throw TypeError
    | Some nm => Ok (Some {| method := nm; bound_prefix := verbosity_to_log_prefix v |})
    end.

(** [Log.log(verbosity, ...args)]: the call of [console] it makes, if
    any, as the method and its arguments. *)
Definition log (current : verbosity) (v : verbosity) (args : list jsval)
    : result (option (console_method * list jsval)) :=
  f ← fn current v None;
  Ok (match f : option logger with
      | Some f => Some (method f, from_option JStr JUndefined (bound_prefix f) :: args)
      | None => None
      end).

(** [generate_log_aliases()]: for each alias, in the order of
    [LOG_ALIASES_VERBOSITY_MAP], what it stores in [Log] under the alias
    followed by [$] (under the alias itself it stores the same function,
    or one that does nothing in place of [null]).  The helper [Log.stack]
    that it sets last is not part of this state. *)
Definition generate_log_aliases (current : verbosity)
    : result (list (string * option logger)) :=
  for_of (λ entry : string * member,
            f ← fn current (Level entry.2) None;
            Ok (entry.1, f))
    LOG_ALIASES_VERBOSITY_MAP.

(** The state of the module: [CURRENT_VERBOSITY] and the aliases last
    generated. *)
Record log_state : Type := {
  CURRENT_VERBOSITY : verbosity;
  aliases : list (string * option logger);
}.

(** The setter of [Log.verbosity]. *)
Definition set_verbosity (value : jsval) (st : log_state) : result log_state :=
  current ← checked_verbosity value;
  generated ← generate_log_aliases current;
  Ok {| CURRENT_VERBOSITY := current; aliases := generated |}.

(** [Log.init(force=false)], given what
    [game_settings_get(PACKAGE_ID, 'log-verbosity', true, true)] returns. *)
Definition init (force : bool) (setting : result jsval) (st : log_state)
    : result log_state :=
  if negb force && negb (is_nullish (CURRENT_VERBOSITY st)) then Ok st
  else
    value ← setting;
    if bool_decide (value = JUndefined) || bool_decide (value = JNull) then
      if force then
        generated ← generate_log_aliases (CURRENT_VERBOSITY st);
        Ok {| CURRENT_VERBOSITY := CURRENT_VERBOSITY st; aliases := generated |}
      else Ok st
    else set_verbosity value st.
End WithTitle.

End Logger.

(** ** Library version (the two version helpers of [src/unnamed/part_001]) *)

Module Version.
Import Regex.

Definition digit : regex := Class [("0", "9")%char].

(** The pattern [^([0-9]+)\.([0-9]+)\.([0-9]+).([0-9]+)(.{0,})$] with the
    flag [i] (the source writes the last group with a star). *)
Definition VERSION_REGEX : regex :=
  Seq Bol (Seq (Group 1 (Plus true digit)) (Seq (Chr ".")
    (Seq (Group 2 (Plus true digit)) (Seq (Chr ".")
      (Seq (Group 3 (Plus true digit)) (Seq Any
        (Seq (Group 4 (Plus true digit)) (Seq (Group 5 (Star true Any)) Eol)))))))).
Definition VERSION_FLAGS : flags := Flags true false.

(** [parseInt(match[n])]; 0 stands for the [NaN] of a group that is not a
    number, which no group of [VERSION_REGEX] is. *)
Definition group_int (n : nat) (m : rmatch_result) : Z :=
  default 0 (Host.chain (group n m) Js.parseInt).
Definition group_text (n : nat) (m : rmatch_result) : string :=
  default "" (group n m).

(** [(git.length >= 40) ? git.slice(0,7) : git] *)
Definition shorten (git : string) : string :=
  if (40 <=? String.length git)%nat then Js.slice0 7 git else git.

(** [s.replace(/^-/gi, '')]: drop one leading hyphen. *)
Definition drop_leading_hyphen (s : string) : string :=
  match s with
  | String "-" s' => s'
  | _ => s
  end.

(** *** First snapshot: [VERSION] is one object *)

Record version_info : Type := {
  known : bool;
  full : string;
  major : Z;
  minor : Z;
  patch : Z;
  suffix : Z;
  meta : string;
  git : string;
  git_short : string;
  full_git : string;
}.

(** [_parse_manifest_version(version, git_hash)]. [version = None] is a
    [version] that is not a string.  When the pattern does not match, the
    message of the error reads [version_str], which is not defined there. *)
Definition _parse_manifest_version (version git_hash : option string)
    : result version_info :=
  let known := bool_decide (is_Some version) in
  let version := default "1.99.99.99" version in
  match match_ VERSION_FLAGS VERSION_REGEX version with
  | None => Throw (ReferenceError "version_str")
  | Some m =>
      let git := default "unknown" git_hash in
      let git_short := shorten git in
      Ok {| known := known; full := version;
            major := group_int 1 m; minor := group_int 2 m;
            patch := group_int 3 m; suffix := group_int 4 m;
            meta := group_text 5 m;
            git := git; git_short := git_short;
            full_git := version ++ " (" ++ git_short ++ ")" |}
  end.

(** [export let VERSION = _parse_manifest_version(null, null)] *)
Definition VERSION_initial : result version_info := _parse_manifest_version None None.

Section WithPackageId.
Variable PACKAGE_ID : string.

(** The manifest [game.modules.get(PACKAGE_ID).data], with the checks
    both snapshots of [parse_manifest_version] make on the way. *)
Definition package_manifest (env : Host.Env) : result Host.Manifest :=
  match Host.game env with
  | None => Throw TypeError
  | Some game =>
      match Host.modules game with
      | None => Throw (ManifestError "Could not find 'game.modules'")
      | Some modules =>
          if bool_decide (size modules = 0%nat)
          then Throw (ManifestError "Map 'game.modules' is empty")
          else match modules !! PACKAGE_ID with
               | None => Throw (ManifestError "Could not find 'game.modules.get(PACKAGE_ID)'")
               | Some mdl =>
                   match Host.pk_data mdl with
                   | None => Throw (ManifestError "Could not find 'game.modules.get(PACKAGE_ID).data'")
                   | Some manifest => Ok manifest
                   end
               end
      end
  end.

Definition version_string (manifest : Host.Manifest) : result string :=
  match Host.version manifest with
  | Some version_str =>
      if Js.truthy_string version_str then Ok version_str
      else Throw (ManifestError "Unable to find version string inside package manifest")
  | None => Throw (ManifestError "Unable to find version string inside package manifest")
  end.

(** [parse_manifest_version()] of the first snapshot, as the new value
    of [VERSION]: an exception is caught and leaves it as it was. *)
Definition parse_manifest_version (env : Host.Env) (VERSION : version_info)
    : version_info :=
  if known VERSION then VERSION
  else
    try_catch
      (manifest ← package_manifest env;
       let git_hash := Host.flags_git_version manifest in
       version_str ← version_string manifest;
       _parse_manifest_version (Some version_str) git_hash)
      (λ _, VERSION).
End WithPackageId.

Definition loosely_equal (a b : Z) : bool := a =? b.

(** [version_at_least(major, minor=0, patch=0, suffix=0)]; an argument
    that is [None] is left out. *)
Definition version_at_least (VERSION : version_info) (major_ : Z)
    (minor_ patch_ suffix_ : option Z) : bool :=
  let minor_ := default 0 minor_ in
  let patch_ := default 0 patch_ in
  let suffix_ := default 0 suffix_ in
  if loosely_equal (major VERSION) major_ then
    if loosely_equal (minor VERSION) minor_ then
      if loosely_equal (patch VERSION) patch_ then
        loosely_equal (suffix VERSION) suffix_
      else patch VERSION >=? patch_
    else minor VERSION >? minor_
  else major VERSION >? major_.

(** *** Second snapshot: one module variable per component *)

Module Vars.

Record version_vars : Type := {
  VERSION_KNOWN : bool;
  VERSION : string;
  MAJOR_VERSION : Z;
  MINOR_VERSION : Z;
  PATCH_VERSION : Z;
  SUFFIX_VERSION : Z;
  META_VERSION : string;
  GIT_VERSION : string;
  GIT_VERSION_SHORT : string;
  VERSION_WITH_GIT : string;
}.

Definition initial : version_vars :=
  {| VERSION_KNOWN := false; VERSION := "1.99.99.99";
     MAJOR_VERSION := 1; MINOR_VERSION := 99; PATCH_VERSION := 99;
     SUFFIX_VERSION := 99; META_VERSION := "";
     GIT_VERSION := "unknown"; GIT_VERSION_SHORT := "unknown";
     VERSION_WITH_GIT := "1.99.99.99 (unknown)" |}.

(** [parse_manifest_version()] as a transformer of the variables.  The
    two revision variables are assigned before the version string is
    read, so they change even when the rest fails and is caught. *)
Definition parse_manifest_version (PACKAGE_ID : string) (env : Host.Env)
    (vars : version_vars) : version_vars :=
  if VERSION_KNOWN vars then vars
  else
    match package_manifest PACKAGE_ID env with
    | Throw _ => vars
    | Ok manifest =>
        let git := default "unknown" (Host.flags_git_version manifest) in
        let git_short := shorten git in
        let vars :=
          {| VERSION_KNOWN := VERSION_KNOWN vars; VERSION := VERSION vars;
             MAJOR_VERSION := MAJOR_VERSION vars; MINOR_VERSION := MINOR_VERSION vars;
             PATCH_VERSION := PATCH_VERSION vars; SUFFIX_VERSION := SUFFIX_VERSION vars;
             META_VERSION := META_VERSION vars;
             GIT_VERSION := git; GIT_VERSION_SHORT := git_short;
             VERSION_WITH_GIT := VERSION_WITH_GIT vars |} in
        try_catch
          (version_str ← version_string manifest;
           match match_ VERSION_FLAGS VERSION_REGEX version_str with
           | None => Throw (ManifestError "Unable to parse version string")
           | Some m =>
               let version := group_text 0 m in
               Ok {| VERSION_KNOWN := true; VERSION := version;
                     MAJOR_VERSION := group_int 1 m; MINOR_VERSION := group_int 2 m;
                     PATCH_VERSION := group_int 3 m; SUFFIX_VERSION := group_int 4 m;
                     META_VERSION := drop_leading_hyphen (group_text 5 m);
                     GIT_VERSION := git; GIT_VERSION_SHORT := git_short;
                     VERSION_WITH_GIT := version ++ " (" ++ git_short ++ ")" |}
           end)
          (λ _, vars)
    end.

Definition version_at_least (vars : version_vars) (major_ : Z)
    (minor_ patch_ suffix_ : option Z) : bool :=
  let minor_ := default 0 minor_ in
  let patch_ := default 0 patch_ in
  let suffix_ := default 0 suffix_ in
  if loosely_equal (MAJOR_VERSION vars) major_ then
    if loosely_equal (MINOR_VERSION vars) minor_ then
      if loosely_equal (PATCH_VERSION vars) patch_ then
        loosely_equal (SUFFIX_VERSION vars) suffix_
      else PATCH_VERSION vars >=? patch_
    else MINOR_VERSION vars >? minor_
  else MAJOR_VERSION vars >? major_.

End Vars.

End Version.

(** ** Package identities ([src/package_info.js])

    The file holds two snapshots of the module.  [Pkg] is what they share
    word for word; [Snapshot1] is the first (lines 1-479: one key
    separator, [parse_key], a range of three versions) and [Snapshot2] the
    second (lines 480-907: two key separators, a range of two versions). *)

Module Pkg.
Import Enums Regex.

(** [PACKAGE_TYPES = Enum('PackageType', [...])]; its value class is 0. *)
Definition PACKAGE_TYPES : enum_cls :=
  Eval vm_compute in
    match Enum 0 "PackageType" (Names ["UNKNOWN"; "MODULE"; "SYSTEM"; "WORLD"]) true with
    | Ok E => E
    | Throw _ => EnumCls "PackageType" 0 ∅ [] None true
    end.

Definition UNKNOWN : member := Member 0 "UNKNOWN" None.
Definition MODULE : member := Member 0 "MODULE" None.
Definition SYSTEM : member := Member 0 "SYSTEM" None.
Definition WORLD : member := Member 0 "WORLD" None.

(** [KEY_SEPARATOR] of the first snapshot, [MAIN_KEY_SEPARATOR] and
    [KEY_SEPARATORS] of the second. *)
Definition KEY_SEPARATOR : ascii := ":".
Definition KEY_SEPARATORS : list ascii := [":"; "~"]%char.

(** ['«unknown»'] *)
Definition UNKNOWN_ID : string :=
  String (ascii_of_N 171) ("unknown" ++ String (ascii_of_N 187) "").

(** [new RegExp("^[a-z0-9_-]+$", "i")] *)
Definition PACKAGE_ID_REGEX : regex :=
  Seq Bol (Seq (Plus true (Class [("a", "z"); ("0", "9"); ("_", "_"); ("-", "-")]%char)) Eol).
Definition PACKAGE_ID_FLAGS : flags := Flags true false.

(** The pattern [^.{0,}?\/(worlds|systems|modules)\/(.+?)(?=\/).{0,}?$]
    with the flags [igm] (the source writes the lazy repetitions of [.]
    with a star). *)
Definition STACK_TRACE_REGEX : regex :=
  Seq Bol (Seq (Star false Any) (Seq (Chr "/")
    (Seq (Group 1 (Alt (Lit "worlds") (Alt (Lit "systems") (Lit "modules"))))
      (Seq (Chr "/") (Seq (Group 2 (Plus false Any))
        (Seq (Lookahead (Chr "/")) (Seq (Star false Any) Eol))))))).
Definition STACK_TRACE_FLAGS : flags := Flags true true.

(** The [ignore_ids] argument: absent, one id, or an array of ids. *)
Inductive ignore_ids : Type :=
| IgnoreNothing
| IgnoreId (id : string)
| IgnoreIds (ids : list string).

(** [ignore_ids && (name === ignore_ids || ignore_ids?.includes?.(name))];
    on a string, [includes] is the substring test. *)
Definition ignored (ignore : ignore_ids) (name : string) : bool :=
  match ignore with
  | IgnoreNothing => false
  | IgnoreId id =>
      Js.truthy_string id && (bool_decide (name = id) || Js.includes id name)
  | IgnoreIds ids => bool_decide (name ∈ ids)
  end.

(** An instance: its fields [id] and [type], and whether it is frozen. *)
Record PackageInfo : Type := {
  id : string;
  type : member;
  is_frozen : bool;
}.

(** [set_unknown()] *)
Definition set_unknown : PackageInfo :=
  {| id := UNKNOWN_ID; type := UNKNOWN; is_frozen := false |}.

(** [equals(obj)], for an [obj] that is a [PackageInfo]. *)
Definition equals (this obj : PackageInfo) : bool :=
  bool_decide (id obj = id this) && bool_decide (type obj = type this).

(** [is_valid_id(id)] for a string. *)
Definition is_valid_id (id : string) : bool :=
  Js.truthy_string id && test PACKAGE_ID_FLAGS PACKAGE_ID_REGEX id.

(** [get key()] *)
Definition key (this : PackageInfo) : string :=
  lower (type this) ++ String KEY_SEPARATOR (id this).

(** What one match of [STACK_TRACE_REGEX] stands for, in the loop of
    [foreach_package_in_stack_trace]: [None] when the loop goes on to the
    next match. *)
Definition classify (env : Host.Env) (ignore : ignore_ids) (type_ name : string)
    : result (option (string * member)) :=
  if negb (Js.truthy_string type_) || negb (Js.truthy_string name) then Ok None
  else if bool_decide (type_ = "worlds") then
    let game_world_id := Host.game_world_id env in
    if Host.truthy_opt game_world_id && negb (bool_decide (Some name = game_world_id))
    then Ok None
    else Ok (Some (name, WORLD))
  else if bool_decide (type_ = "systems") then
    let game_system_id := Host.game_system_id env in
    if Host.truthy_opt game_system_id && negb (bool_decide (Some name = game_system_id))
    then Ok None
    else Ok (Some (name, SYSTEM))
  else if bool_decide (type_ = "modules") then
    match Host.game_modules env with
    | Some modules =>
        if negb (bool_decide (is_Some (modules !! name))) then Ok None
        else if ignored ignore name then Ok None
        else Ok (Some (name, MODULE))
    | None =>
        if ignored ignore name then Ok None
        else Ok (Some (name, MODULE))
    end
  else Throw (InvalidScriptType type_).

(** The loop [for(const match of matches)]: [matchFn] is called on each
    match that [classify] keeps and transforms the state [S] its closure
    captures; the loop stops with [false] when it returns [false]. *)
Fixpoint for_each_match {S : Type}
    (matchFn : string → member → string → S → result (S * bool))
    (env : Host.Env) (ignore : ignore_ids) (matches : list rmatch_result) (s : S)
    : result (S * bool) :=
  match matches with
  | [] => Ok (s, true)
  | m :: rest =>
      let type_ := default "" (group 1 m) in
      let name := default "" (group 2 m) in
      found ← classify env ignore type_ name;
      match found with
      | None => for_each_match matchFn env ignore rest s
      | Some (match_id, match_type) =>
          called ← matchFn match_id match_type (default "" (group 0 m)) s;
          let '(s', matchRes) := (called : S * bool) in
          if matchRes then for_each_match matchFn env ignore rest s'
          else Ok (s', false)
      end
  end.

Section WithPackageId.
Variable PACKAGE_ID : string.

(** [export let IGNORE_PACKAGE_IDS = PACKAGE_ID] *)
Definition IGNORE_PACKAGE_IDS : ignore_ids := IgnoreId PACKAGE_ID.

(** [detect_type()], as the [type] it assigns. *)
Definition detect_type (env : Host.Env) (id : string) : member :=
  match Host.game_modules env with
  | None => if bool_decide (id = PACKAGE_ID) then MODULE else UNKNOWN
  | Some modules =>
      if default false (Host.pk_active <$> modules !! id) then MODULE
      else if bool_decide (Some id = Host.game_system_id env) then SYSTEM
      else if bool_decide (Some id = Host.game_world_id env) then WORLD
      else UNKNOWN
  end.
End WithPackageId.

(** [get exists()], as the truthiness of what it returns. *)
Definition exists_ (env : Host.Env) (this : PackageInfo) : result bool :=
  if bool_decide (type this = MODULE) then
    match Host.game_modules env with
    | None => Throw TypeError
    | Some modules => Ok (default false (Host.pk_active <$> modules !! id this))
    end
  else if bool_decide (type this = SYSTEM) then
    match Host.chain (Host.chain (Host.game env) Host.game_data) Host.system with
    | None => Throw TypeError
    | Some system => Ok (bool_decide (Host.pk_id system = Some (id this)))
    end
  else if bool_decide (type this = WORLD) then
    match Host.chain (Host.chain (Host.game env) Host.game_data) Host.world with
    | None => Throw TypeError
    | Some world => Ok (bool_decide (Host.pk_id world = Some (id this)))
    end
  else Ok false.

(** [fvtt_version?.split('.')[0]] *)
Definition major_of (fvtt_version : option string) : option string :=
  (λ v, hd "" (Js.split "." v)) <$> fvtt_version.

(** The code units [PACKAGE_ID_REGEX] admits. *)
Definition id_char (c : ascii) : bool :=
  class_matches PACKAGE_ID_FLAGS [("a", "z"); ("0", "9"); ("_", "_"); ("-", "-")]%char c.

(** What [STACK_TRACE_REGEX] finds in a text: for each line it matches,
    the root directory and the identifier it captures. *)
Definition root_and_id (m : rmatch_result) : string * string :=
  (default "" (group 1 m), default "" (group 2 m)).
Definition scanned (text : string) : list (string * string) :=
  root_and_id <$> matchAll STACK_TRACE_FLAGS STACK_TRACE_REGEX text.

(** The key [collect_all] builds for a match, and the instance it stands
    for. *)
Definition key_of (found : string * member) : string :=
  lower found.2 ++ String KEY_SEPARATOR found.1.
Definition info_of (found : string * member) : PackageInfo :=
  {| id := found.1; type := found.2; is_frozen := true |}.

(** The classifications a match can have. *)
Definition is_kind (t : member) : Prop := t = WORLD ∨ t = SYSTEM ∨ t = MODULE.

(** A match whose root directory is in lower case and whose identifier is
    a valid package id; and an (identifier, classification) pair of such
    a match. *)
Definition plain_match (found : string * string) : Prop :=
  found.1 ∈ ["worlds"; "systems"; "modules"] ∧ is_valid_id found.2 = true.
Definition plain_pair (found : string * member) : Prop :=
  is_valid_id found.1 = true ∧ is_kind found.2.

(** [v.includes('.') ? fvtt_version : fvtt_major] *)
Definition same_precision (v fvtt_version fvtt_major : string) : string :=
  if Js.includes v "." then fvtt_version else fvtt_major.

(** [toString()] *)
Definition toString (this : PackageInfo) : string := key this.

(** [get known()] *)
Definition known (this : PackageInfo) : bool :=
  negb (bool_decide (type this = UNKNOWN)).

(** [get type_plus_id()] *)
Definition type_plus_id (this : PackageInfo) : string :=
  lower (type this) ++ " " ++ id this.

(** [get type_plus_id_capitalized()] *)
Definition type_plus_id_capitalized (this : PackageInfo) : string :=
  let str := type_plus_id this in
  Js.toUpperCase (Js.charAt0 str) ++ Js.slice1 str.

(** [get logId()] *)
Definition logId (this : PackageInfo) : string :=
  if bool_decide (type this = MODULE) then id this else key this.

(** [get settingsName()] *)
Definition settingsName (this : PackageInfo) : string :=
  if bool_decide (type this = MODULE) then id this
  else if bool_decide (type this = SYSTEM) then id this ++ " [System]"
  else if bool_decide (type this = WORLD) then id this ++ " [World]"
  else id this.

(** [is_valid_id(id)] for any value. *)
Definition is_valid_id_of (id : jsval) : bool :=
  match id with
  | JStr id => is_valid_id id
  | _ => false
  end.

(** The four package types. *)
Definition is_type (t : member) : Prop := t ∈ e_list PACKAGE_TYPES.

(** What an instance holds once [set] has returned: the unknown package,
    left as it was, or a valid id with one of the package types. *)
Definition well_formed (this : PackageInfo) : Prop :=
  this = set_unknown ∨ (is_valid_id (id this) = true ∧ is_type (type this)).

End Pkg.

Module Snapshot1.
Import Enums Regex Pkg.

Section WithConsts.
Variable PACKAGE_ID : string.
(** [isNewerVersion] of [src/polyfill.js], which calls the host's. *)
Variable isNewerVersion : string → string → bool.

(** [foreach_package_in_stack_trace(matchFn, stack_trace, ignore_ids)]:
    the state after the calls of [matchFn], and the boolean returned. *)
Definition foreach_package_in_stack_trace {S : Type}
    (matchFn : string → member → string → S → result (S * bool))
    (env : Host.Env) (stack_trace : jsval) (ignore : ignore_ids) (s : S)
    : result (S * bool) :=
  text ← match stack_trace with
         | JUndefined => Ok (Host.captured_stack env)
         | JStr text => Ok (Some text)
         | _ => Throw StackTraceMustBeString
         end;
  match text with
  | None => Ok (s, true)
  | Some text =>
      if negb (Js.truthy_string text) then Ok (s, true)
      else for_each_match matchFn env ignore
             (matchAll STACK_TRACE_FLAGS STACK_TRACE_REGEX text) s
  end.

(** [parse_key(key)]: the array [[id, type]]. *)
Definition parse_key (key : string) : result (jsval * jsval) :=
  match Js.split KEY_SEPARATOR key with
  | [type_; id] =>
      type ← get PACKAGE_TYPES (JStr type_) None;
      Ok (JStr id, type)
  | _ => Ok (JNull, JNull)
  end.

(** [from_key(key, fail)], given what [this.set] does: the new state of
    [this] when it returns [true], [None] when it returns [false]. *)
Definition from_key_with (set : jsval → jsval → bool → result PackageInfo)
    (key : string) (fail : bool) : result (option PackageInfo) :=
  '(id, type) ← parse_key key;
  if negb (truthy id) || negb (truthy type) then
    if fail then Throw (InvalidKey key) else Ok None
  else
    this ← set id type true;
    Ok (Some this).

(** [detect_id(stack_trace)], given what [this.set] does. *)
Definition detect_id_with (set : jsval → jsval → bool → result PackageInfo)
    (env : Host.Env) (stack_trace : jsval) : result PackageInfo :=
  let this := set_unknown in
  found ← foreach_package_in_stack_trace
            (λ id type _ (_ : PackageInfo),
               this ← set (JStr id) (JMember type) true;
               Ok (this, false))
            env stack_trace (IGNORE_PACKAGE_IDS PACKAGE_ID) this;
  Ok (fst found).

(** [set(id=null, type=null, freeze=true)] on an instance that is not
    frozen, as the state it leaves [this] in.  [set] calls itself
    through [from_key] and [detect_id]; [depth] is the room left on the
    call stack for such nested calls. *)
Fixpoint set (depth : nat) (env : Host.Env) (id type : jsval) (freeze : bool)
    {struct depth} : result PackageInfo :=
  match depth with
  | O => Throw RangeError
  | S depth' =>
      let type := match type with JUndefined => JNull | _ => type end in
      if negb (truthy id) then detect_id_with (set depth' env) env JUndefined
      else
        match id with
        | JStr id =>
            if bool_decide (id = UNKNOWN_ID) then Ok set_unknown
            else
              parsed ← (if bool_decide (type = JNull)
                        then from_key_with (set depth' env) id false
                        else Ok None);
              match parsed with
              | Some this => Ok this
              | None =>
                  if negb (is_valid_id id) then Throw (InvalidPackageId id)
                  else
                    match type with
                    | JNull =>
                        Ok {| id := id; type := detect_type PACKAGE_ID env id;
                              is_frozen := freeze |}
                    | JMember m =>
                        if has PACKAGE_TYPES type
                        then Ok {| id := id; type := m; is_frozen := freeze |}
                        else Throw (InvalidPackageType id type)
                    | _ => Throw (InvalidPackageType id type)
                    end
              end
        | _ => Throw PackageIdMustBeString
        end
  end.

Definition from_key (depth : nat) (env : Host.Env) := from_key_with (set depth env).
Definition detect_id (depth : nat) (env : Host.Env) := detect_id_with (set depth env) env.

(** [new PackageInfo(id, type)] *)
Definition new (depth : nat) (env : Host.Env) (id type : jsval) : result PackageInfo :=
  set depth env id type true.

(** [is_valid_key(key)] *)
Definition is_valid_key (key : jsval) : result bool :=
  match key with
  | JStr key =>
      if negb (Js.truthy_string key) then Ok false
      else
        '(id, type) ← parse_key key;
        if negb (truthy id) || negb (truthy type) then Ok false
        else Ok (is_valid_id_of id)
  | _ => Ok false
  end.

(** [is_valid_key_or_id(key_or_id)] *)
Definition is_valid_key_or_id (key_or_id : jsval) : result bool :=
  valid_key ← is_valid_key key_or_id;
  if valid_key : bool then Ok true
  else Ok (is_valid_id_of key_or_id).

(** [collect_all(stack_trace, include_fn, ignore_ids)]; the [Set] of
    keys is the list of its elements in insertion order. *)
Definition collect_all (depth : nat) (env : Host.Env) (stack_trace : jsval)
    (include_fn : option (string → member → string → bool)) (ignore : ignore_ids)
    : result (list PackageInfo) :=
  collected ← foreach_package_in_stack_trace
                (λ id type match_ (set : list string),
                   let key := lower type ++ String KEY_SEPARATOR id in
                   if bool_decide (key ∈ set) then Ok (set, true)
                   else
                     match include_fn with
                     | Some include_fn =>
                         if negb (include_fn id type match_) then Ok (set, true)
                         else Ok ((set ++ [key])%list, true)
                     | None => Ok ((set ++ [key])%list, true)
                     end)
                env stack_trace ignore [];
  for_of (λ key, new depth env (JStr key) JNull) (fst collected).

(** [get data()], as the manifest fields of the object it returns. *)
Definition data (env : Host.Env) (this : PackageInfo) : result (option Host.Manifest) :=
  exists_ ← exists_ env this;
  if negb exists_ then Ok None
  else if bool_decide (type this = MODULE) then
    Ok (Host.pk_own <$> Host.chain (Host.game_modules env) (λ modules, modules !! id this))
  else if bool_decide (type this = SYSTEM) then
    Ok (Host.pk_own <$> Host.chain (Host.chain (Host.game env) Host.game_data) Host.system)
  else if bool_decide (type this = WORLD) then
    Ok (Host.pk_own <$> Host.chain (Host.chain (Host.game env) Host.game_data) Host.world)
  else Ok None.

(** [get core_version_range()]: [null], or an array of three. *)
Definition core_version_range (env : Host.Env) (this : PackageInfo)
    : result (option (option string * option string * option string)) :=
  data ← data env this;
  match data with
  | None => Ok None
  | Some data =>
      match Host.compatibility data with
      | Some compatibility =>
          Ok (Some (Host.minimum compatibility, Host.verified compatibility,
                    Host.maximum compatibility))
      | None =>
          Ok (Some (Host.minimumCoreVersion data, Host.compatibleCoreVersion data, None))
      end
  end.

(** [get compatible_with_core()] *)
Definition compatible_with_core (env : Host.Env) (this : PackageInfo) : result bool :=
  versions ← core_version_range env this;
  fvtt_version ← Host.game_version env true;
  let fvtt_major := major_of fvtt_version in
  match versions, fvtt_version, fvtt_major with
  | Some (min, verif, max), Some fvtt_version, Some fvtt_major =>
      if negb (Js.truthy_string fvtt_version) || negb (Js.truthy_string fvtt_major)
      then Ok true
      else
        let min_fails :=
          match min with
          | Some min =>
              Js.truthy_string min &&
              (let fvtt_min := same_precision min fvtt_version fvtt_major in
               negb (bool_decide (min = fvtt_min)) && negb (isNewerVersion fvtt_min min))
          | None => false
          end in
        let verif_fails :=
          match verif with
          | Some verif =>
              Js.truthy_string verif &&
              isNewerVersion (same_precision verif fvtt_version fvtt_major) verif
          | None => false
          end in
        let max_fails :=
          match max with
          | Some max =>
              Js.truthy_string max &&
              (let fvtt_max := same_precision max fvtt_version fvtt_major in
               bool_decide (fvtt_max = max) || isNewerVersion fvtt_max max)
          | None => false
          end in
        if min_fails then Ok false
        else if verif_fails then Ok false
        else if max_fails then Ok false
        else Ok true
  | _, _, _ => Ok true
  end.

End WithConsts.
End Snapshot1.

Module Snapshot2.
Import Enums Regex Pkg.

Section WithConsts.
Variable PACKAGE_ID : string.
Variable isNewerVersion : string → string → bool.

(** [foreach_package_in_stack_trace(matchFn, stack_trace, ignore_ids)];
    the boolean is [false] when it returns [false]. *)
Definition foreach_package_in_stack_trace {S : Type}
    (matchFn : string → member → string → S → result (S * bool))
    (env : Host.Env) (stack_trace : jsval) (ignore : ignore_ids) (s : S)
    : result (S * bool) :=
  let stack_trace :=
    match stack_trace with
    | JUndefined =>
        match Host.captured_stack env with
        | Some text => JStr text
        | None => JOther
        end
    | _ => stack_trace
    end in
  match stack_trace with
  | JStr text =>
      if negb (Js.truthy_string text) then Throw CouldNotCollectStackTrace
      else for_each_match matchFn env ignore
             (matchAll STACK_TRACE_FLAGS STACK_TRACE_REGEX text) s
  | _ => Throw CouldNotCollectStackTrace
  end.

(** The loop [for(const sep of KEY_SEPARATORS)] of [from_key]: the
    first split in two, else the last split tried. *)
Fixpoint split_key (seps : list ascii) (key : string) (split : list string)
    : list string :=
  match seps with
  | [] => split
  | sep :: seps' =>
      let split := Js.split sep key in
      if bool_decide (length split = 2%nat) then split
      else split_key seps' key split
  end.

(** [from_key(key, fail)], given what [this.set] does. *)
Definition from_key_with (set : jsval → jsval → bool → result PackageInfo)
    (key : string) (fail : bool) : result (option PackageInfo) :=
  match split_key KEY_SEPARATORS key [] with
  | [type_; id] =>
      type ← property PACKAGE_TYPES type_;
      this ← set (JStr id) type true;
      Ok (Some this)
  | _ => if fail then Throw (InvalidKey key) else Ok None
  end.

(** [detect_id(stack_trace)], given what [this.set] does. *)
Definition detect_id_with (set : jsval → jsval → bool → result PackageInfo)
    (env : Host.Env) (stack_trace : jsval) : result PackageInfo :=
  let this := set_unknown in
  found ← foreach_package_in_stack_trace
            (λ id type _ (_ : PackageInfo),
               this ← set (JStr id) (JMember type) true;
               Ok (this, false))
            env stack_trace (IGNORE_PACKAGE_IDS PACKAGE_ID) this;
  Ok (fst found).

(** [set(id=null, type=null, freeze=true)], as in the first snapshot. *)
Fixpoint set (depth : nat) (env : Host.Env) (id type : jsval) (freeze : bool)
    {struct depth} : result PackageInfo :=
  match depth with
  | O => Throw RangeError
  | S depth' =>
      let type := match type with JUndefined => JNull | _ => type end in
      if negb (truthy id) then detect_id_with (set depth' env) env JUndefined
      else
        match id with
        | JStr id =>
            if bool_decide (id = UNKNOWN_ID) then Ok set_unknown
            else
              parsed ← (if bool_decide (type = JNull)
                        then from_key_with (set depth' env) id false
                        else Ok None);
              match parsed with
              | Some this => Ok this
              | None =>
                  if negb (is_valid_id id) then Throw (InvalidPackageId id)
                  else
                    match type with
                    | JNull =>
                        Ok {| id := id; type := detect_type PACKAGE_ID env id;
                              is_frozen := freeze |}
                    | JMember m =>
                        if has PACKAGE_TYPES type
                        then Ok {| id := id; type := m; is_frozen := freeze |}
                        else Throw (InvalidPackageType id type)
                    | _ => Throw (InvalidPackageType id type)
                    end
              end
        | _ => Throw PackageIdMustBeString
        end
  end.

Definition from_key (depth : nat) (env : Host.Env) := from_key_with (set depth env).
Definition detect_id (depth : nat) (env : Host.Env) := detect_id_with (set depth env) env.

(** [new PackageInfo(id, type)] *)
Definition new (depth : nat) (env : Host.Env) (id type : jsval) : result PackageInfo :=
  set depth env id type true.

(** [collect_all(stack_trace, include_fn, ignore_ids)] *)
Definition collect_all (depth : nat) (env : Host.Env) (stack_trace : jsval)
    (include_fn : option (string → member → string → bool)) (ignore : ignore_ids)
    : result (list PackageInfo) :=
  collected ← foreach_package_in_stack_trace
                (λ id type match_ (set : list string),
                   let key := lower type ++ String KEY_SEPARATOR id in
                   if bool_decide (key ∈ set) then Ok (set, true)
                   else
                     match include_fn with
                     | Some include_fn =>
                         if negb (include_fn id type match_) then Ok (set, true)
                         else Ok ((set ++ [key])%list, true)
                     | None => Ok ((set ++ [key])%list, true)
                     end)
                env stack_trace ignore [];
  for_of (λ key, new depth env (JStr key) JNull) (fst collected).

(** [get data()]: the [data] of the module or of the system, or the
    world itself. *)
Definition data (env : Host.Env) (this : PackageInfo) : result (option Host.Manifest) :=
  exists_ ← exists_ env this;
  if negb exists_ then Ok None
  else if bool_decide (type this = MODULE) then
    Ok (Host.chain (Host.chain (Host.game_modules env) (λ modules, modules !! id this))
          Host.pk_data)
  else if bool_decide (type this = SYSTEM) then
    Ok (Host.chain (Host.chain (Host.chain (Host.game env) Host.game_data) Host.system)
          Host.pk_data)
  else if bool_decide (type this = WORLD) then
    Ok (Host.pk_own <$> Host.chain (Host.chain (Host.game env) Host.game_data) Host.world)
  else Ok None.

(** [get core_version_range()]: [null], or an array of two. *)
Definition core_version_range (env : Host.Env) (this : PackageInfo)
    : result (option (option string * option string)) :=
  data ← data env this;
  match data with
  | None => Ok None
  | Some data =>
      Ok (Some (Host.minimumCoreVersion data, Host.compatibleCoreVersion data))
  end.

(** [get compatible_with_core()] *)
Definition compatible_with_core (env : Host.Env) (this : PackageInfo) : result bool :=
  versions ← core_version_range env this;
  fvtt_version ← Host.game_version env true;
  let fvtt_major := major_of fvtt_version in
  match versions, fvtt_version, fvtt_major with
  | Some (min, max), Some fvtt_version, Some fvtt_major =>
      if negb (Js.truthy_string fvtt_version) || negb (Js.truthy_string fvtt_major)
      then Ok true
      else
        let min_fails :=
          match min with
          | Some min =>
              Js.truthy_string min &&
              (let fvtt_min := same_precision min fvtt_version fvtt_major in
               negb (bool_decide (min = fvtt_min)) && negb (isNewerVersion fvtt_min min))
          | None => false
          end in
        let max_fails :=
          match max with
          | Some max =>
              Js.truthy_string max &&
              isNewerVersion (same_precision max fvtt_version fvtt_major) max
          | None => false
          end in
        if min_fails then Ok false
        else if max_fails then Ok false
        else Ok true
  | _, _, _ => Ok true
  end.

End WithConsts.
End Snapshot2.

(** ** Concrete hosts and inputs, for the examples below *)

Module Examples.
Import Pkg.
Definition LF : string := String (ascii_of_N 10) "".

Definition no_manifest : Host.Manifest :=
  {| Host.version := None; Host.compatibility := None;
     Host.minimumCoreVersion := None; Host.compatibleCoreVersion := None;
     Host.flags_git_version := None |}.

(** A module that is installed but not active. *)
Definition inactive_module : Host.Package :=
  {| Host.pk_id := Some "my-module"; Host.pk_active := false;
     Host.pk_own := no_manifest; Host.pk_data := Some no_manifest |}.

(** An active module whose manifest states no core version. *)
Definition alpha_module : Host.Package :=
  {| Host.pk_id := Some "alpha"; Host.pk_active := true;
     Host.pk_own := no_manifest; Host.pk_data := Some no_manifest |}.

Definition game_with (modules : gmap string Host.Package) (version : option string)
    : Host.Env :=
  {| Host.game := Some {| Host.modules := Some modules; Host.game_data := None;
                          Host.game_version_field := version;
                          Host.release_version := None |};
     Host.captured_stack := None |}.

(** No [game] yet, and no stack to capture. *)
Definition no_game : Host.Env := {| Host.game := None; Host.captured_stack := None |}.

(** A revision hash of 40 characters. *)
Definition revision : string := "abcdef0123456789abcdef0123456789abcdef01".

Definition alpha : PackageInfo := {| id := "alpha"; type := MODULE; is_frozen := true |}.
End Examples.

(** * Properties *)

(** Case analysis on every [match] and [if] of the goal and hypotheses,
    keeping the cases that are not closed at once. *)
Ltac cases := repeat (case_match; simplify_eq/=; try done).

(** ** Strings *)

Section StringFacts.

Lemma is_lower_upper_char (c : ascii) : Js.is_lower (Js.upper_char c) = false.
Proof. destruct c as [[] [] [] [] [] [] [] []]; reflexivity. Qed.

Lemma has_lower_toUpperCase (s : string) : Js.has_lower (Js.toUpperCase s) = false.
Proof.
  induction s as [|c s IH]; simpl; [reflexivity|].
  rewrite is_lower_upper_char. exact IH.
Qed.

Lemma split_without_sep (sep : ascii) (s : string) :
  Forall (λ c, c ≠ sep) (list_ascii_of_string s) →
  Js.split sep s = [s].
Proof.
  induction s as [|c s IH]; simpl; intros H; [reflexivity|].
  inversion H as [|? ? Hc Hs]; subst.
  destruct (Ascii.eqb_spec c sep) as [->|_]; [congruence|].
  rewrite (IH Hs). reflexivity.
Qed.

Lemma slice0_length (n : nat) (s : string) :
  (n ≤ String.length s)%nat → String.length (Js.slice0 n s) = n.
Proof.
  revert s. induction n as [|n IH]; intros [|c s] H; simpl in *; try lia.
  rewrite IH; lia.
Qed.

End StringFacts.

(** ** Enumerations *)

Section EnumFacts.
Import Enums.

Lemma static_names_lowercase :
  Forall (λ name, Js.has_lower name = true)
    (static_names ++ ["reverse"; "name"; "length"; "caller"; "arguments"])%list.
Proof. repeat constructor. Qed.

(** An upper-cased key names a value object or nothing. *)
Lemma property_toUpperCase (E : enum_cls) (s : string) :
  property E (Js.toUpperCase s)
  = Ok (from_option JMember JUndefined (e_values E !! Js.toUpperCase s)).
Proof.
  pose proof (has_lower_toUpperCase s) as Hup.
  pose proof static_names_lowercase as Hnames.
  assert (Hnot : ∀ name, name ∈ (static_names ++ ["reverse"; "name"; "length"; "caller"; "arguments"])%list
                         → Js.toUpperCase s ≠ name).
  { intros name Hin Heq. rewrite Heq in Hup. rewrite Forall_forall in Hnames.
    specialize (Hnames _ Hin). congruence. }
  unfold property. destruct (e_values E !! Js.toUpperCase s); [reflexivity|]. simpl.
  rewrite bool_decide_eq_false_2.
  2:{ intros Hin. eapply Hnot; [|reflexivity]. apply elem_of_app. by left. }
  rewrite !bool_decide_eq_false_2; first reflexivity.
  all: try (apply Hnot; apply elem_of_app; right; set_solver).
  intros Hin. eapply Hnot; [|reflexivity]. apply elem_of_app. right.
  repeat (apply elem_of_cons in Hin as [->|Hin]; [set_solver|]). by apply elem_of_nil in Hin.
Qed.

Lemma insert_sorted_perm (m : member) (l : list member) :
  insert_sorted m l ≡ₚ m :: l.
Proof.
  induction l as [|m' l IH]; simpl; [reflexivity|].
  destruct (sort_key m <=? sort_key m'); [reflexivity|].
  rewrite IH. apply Permutation_swap.
Qed.

Lemma array_sort_perm (l : list member) : array_sort l ≡ₚ l.
Proof.
  induction l as [|m l IH]; simpl; [reflexivity|].
  rewrite insert_sorted_perm, IH. reflexivity.
Qed.




(** The sort is stable: members with equal keys keep their order. *)
Lemma insert_sorted_with_key (k : Z) (m : member) (l : list member) :
  with_key k (insert_sorted m l) = with_key k (m :: l).
Proof.
  unfold with_key.
  induction l as [|m' l IH]; simpl; [reflexivity|].
  destruct (Z.leb_spec (sort_key m) (sort_key m')) as [Hle|Hgt]; [reflexivity|].
  rewrite (filter_cons _ m'), IH, !filter_cons.
  repeat case_decide; try reflexivity; lia.
Qed.

Lemma array_sort_with_key (k : Z) (l : list member) :
  with_key k (array_sort l) = with_key k l.
Proof.
  induction l as [|m l IH]; simpl; [reflexivity|].
  rewrite insert_sorted_with_key. unfold with_key in *.
  rewrite !filter_cons, IH. reflexivity.
Qed.


End EnumFacts.

Section EnumInvariants.
Import Enums.

(** What one call of [EnumValue] does to the enumeration. *)
Lemma EnumValue_inv (E : enum_cls) (name : string) (value : option Z) (sort : bool)
    (E' : enum_cls) (m : member) :
  EnumValue E name value sort = Ok (E', m) →
  m = Member (e_cls E) name value
  ∧ e_cls E' = e_cls E
  ∧ e_name E' = e_name E
  ∧ e_values E' = <[name := m]> (e_values E)
  ∧ e_list E' = (if sort then array_sort (e_list E ++ [m]) else e_list E ++ [m])%list.
Proof.
  unfold EnumValue. intros H.
  cases.
  all: destruct sort; simplify_eq/=; done.
Qed.

Lemma add_values_inv (entries : list (string * option Z)) (E E' : enum_cls) :
  add_values E entries = Ok E' →
  e_cls E' = e_cls E
  ∧ e_name E' = e_name E
  ∧ e_list E' = (e_list E ++ ((λ entry, Member (e_cls E) entry.1 entry.2) <$> entries))%list
  ∧ (∀ n m, e_values E' !! n = Some m →
        e_values E !! n = Some m ∨ m ∈ ((λ entry, Member (e_cls E) entry.1 entry.2) <$> entries)).
Proof.
  revert E. induction entries as [|[name value] entries IH]; intros E H; simpl in *.
  - simplify_eq. rewrite app_nil_r. naive_solver.
  - destruct (EnumValue E name value false) as [[E1 m]|] eqn:HE; simplify_eq/=.
    apply EnumValue_inv in HE as (-> & Hcls & Hname & Hvalues & Hlist).
    apply IH in H as (Hcls' & Hname' & Hlist' & Hvalues').
    rewrite Hcls', Hname', Hlist', Hlist, Hcls. repeat split; try done.
    + by rewrite <- app_assoc.
    + intros n m Hn. apply Hvalues' in Hn as [Hn|Hn].
      * rewrite Hvalues in Hn. apply lookup_insert_Some in Hn as [[_ <-]|[_ Hn]].
        -- right. left.
        -- by left.
      * right. rewrite Hcls in Hn. by right.
Qed.

Lemma Enum_inv (cls : nat) (name : string) (c : collection) (freeze : bool) (E : enum_cls) :
  Enum cls name c freeze = Ok E →
  e_cls E = cls
  ∧ e_name E = name
  ∧ e_list E = array_sort (created cls c)
  ∧ (∀ n m, e_values E !! n = Some m → m ∈ created cls c).
Proof.
  unfold Enum. intros H.
  destruct (add_values _ _) as [E1|] eqn:HE; simplify_eq/=.
  apply add_values_inv in HE as (Hcls & Hname & Hlist & Hvalues). simpl in *.
  rewrite Hlist. repeat split; try done.
  intros n m Hn. apply Hvalues in Hn as [Hn|Hn]; [|done].
  by rewrite lookup_empty in Hn.
Qed.

(** Every value object an enumeration holds is an instance of its value
    class, and its member list holds exactly the objects created. *)
Lemma built_inv (E : enum_cls) (history : list member) :
  built E history →
  e_list E ≡ₚ history
  ∧ Forall (λ m, m_cls m = e_cls E) history
  ∧ (∀ n m, e_values E !! n = Some m → m ∈ history)
  ∧ (∀ k, with_key k (e_list E) = with_key k history).
Proof.
  induction 1 as [cls name c freeze E HE|E history name value sort E' m _ IH HE].
  - apply Enum_inv in HE as (Hcls & Hname & Hlist & Hvalues).
    rewrite Hlist, Hcls. repeat split.
    + apply array_sort_perm.
    + unfold created. apply Forall_fmap, Forall_true. done.
    + exact Hvalues.
    + intros k. apply array_sort_with_key.
  - destruct IH as (Hperm & Hcls & Hvalues & Hkeys).
    apply EnumValue_inv in HE as (Hm & Hcls' & Hname' & Hvalues' & Hlist').
    rewrite Hcls'. repeat split.
    + rewrite Hlist'. destruct sort; [rewrite array_sort_perm|]; by rewrite Hperm.
    + apply Forall_app. split; [done|]. constructor; [|done]. by rewrite Hm.
    + intros n m' Hn. rewrite Hvalues' in Hn.
      apply lookup_insert_Some in Hn as [[_ <-]|[_ Hn]].
      * apply elem_of_app. right. left.
      * apply elem_of_app. left. by eapply Hvalues.
    + intros k. rewrite Hlist'.
      assert (Happ : with_key k (e_list E ++ [m]) = with_key k (history ++ [m])).
      { unfold with_key in *. by rewrite !filter_app, Hkeys. }
      destruct sort; [rewrite array_sort_with_key|]; exact Happ.
Qed.

End EnumInvariants.
Section EnumTheorems.
Import Enums.

Lemma VERBOSITY_built :
  Enum 1 "PackageType" Log.VERBOSITY_collection true = Ok Log.VERBOSITY.
Proof. vm_compute. reflexivity. Qed.

Lemma PACKAGE_TYPES_built :
  Enum 0 "PackageType" (Names ["UNKNOWN"; "MODULE"; "SYSTEM"; "WORLD"]) true
  = Ok Pkg.PACKAGE_TYPES.
Proof. vm_compute. reflexivity. Qed.

(** The constants [VERBOSITY.WARNING], [PACKAGE_TYPES.MODULE], ... are the
    value objects stored under these names. *)
Lemma VERBOSITY_values :
  e_list Log.VERBOSITY
  = [Log.ZERO; Log.TRACE; Log.DEBUG; Log.INFO; Log.WARNING; Log.ERROR;
     Log.CRITICAL; Log.ALWAYS]
  ∧ Forall (λ m, e_values Log.VERBOSITY !! m_name m = Some m) (e_list Log.VERBOSITY).
Proof. split; [vm_compute; reflexivity|]. repeat constructor. Qed.

Lemma PACKAGE_TYPES_values :
  e_list Pkg.PACKAGE_TYPES = [Pkg.UNKNOWN; Pkg.MODULE; Pkg.SYSTEM; Pkg.WORLD]
  ∧ Forall (λ m, e_values Pkg.PACKAGE_TYPES !! m_name m = Some m) (e_list Pkg.PACKAGE_TYPES).
Proof. split; [vm_compute; reflexivity|]. repeat constructor. Qed.

(** C4. Looking up a value object of an enumeration in that enumeration
    returns the very same object: for every enumeration the program can
    build and every member [m] it holds (in its member list or under a
    name), [get(m)] is [m], whatever the default. *)
Theorem get_member_passes_through (E : enum_cls) (history : list member)
    (m : member) (dflt : option jsval) :
  built E history →
  (m ∈ e_list E ∨ ∃ name, e_values E !! name = Some m) →
  get E (JMember m) dflt = Ok (JMember m).
Proof.
  intros Hbuilt Hm.
  apply built_inv in Hbuilt as (Hperm & Hcls & Hvalues & _).
  assert (Hin : m ∈ history).
  { destruct Hm as [Hm|[name Hm]]; [by rewrite <- Hperm|by eapply Hvalues]. }
  rewrite Forall_forall in Hcls. specialize (Hcls m Hin).
  unfold get, has. by rewrite bool_decide_eq_true_2.
Qed.

Lemma get_member_passes_through_witness :
  built Log.VERBOSITY (created 1 Log.VERBOSITY_collection)
  ∧ e_values Log.VERBOSITY !! "WARNING" = Some Log.WARNING
  ∧ get Log.VERBOSITY (JMember Log.WARNING) None = Ok (JMember Log.WARNING).
Proof.
  assert (Hbuilt : built Log.VERBOSITY (created 1 Log.VERBOSITY_collection)).
  { apply (built_Enum 1 "PackageType" Log.VERBOSITY_collection true).
    vm_compute. reflexivity. }
  assert (Hvalue : e_values Log.VERBOSITY !! "WARNING" = Some Log.WARNING).
  { vm_compute. reflexivity. }
  split; [exact Hbuilt|]. split; [exact Hvalue|].
  apply (get_member_passes_through Log.VERBOSITY _ Log.WARNING None Hbuilt).
  right. exists "WARNING". exact Hvalue.
Defined.

(** C2, as amended. In an enumeration that has a reverse map (one built
    from a dictionary), looking up an argument that matches nothing
    returns the default when one other than [undefined] is supplied, and
    fails with the error naming the argument and the enumeration when
    the default is left out or is [undefined]. *)
Theorem get_without_match (E : enum_cls) (k : jsval) :
  is_Some (e_reverse E) →
  matches_nothing E k →
  (∀ d, d ≠ JUndefined → get E k (Some d) = Ok d)
  ∧ get E k (Some JUndefined) = Throw (EnumNotValidKeyOrValue k (e_name E))
  ∧ get E k None = Throw (EnumNotValidKeyOrValue k (e_name E)).
Proof.
  intros [rev Hrev] (Hhas & Hname & Hvalue).
  destruct (Hvalue rev Hrev) as [Hraw Hint].
  assert (Hget : ∀ dflt, get E k dflt =
            if bool_decide (default JUndefined dflt = JUndefined)
            then Throw (EnumNotValidKeyOrValue k (e_name E))
            else Ok (default JUndefined dflt)).
  { intros dflt. unfold get. rewrite Hhas, Hrev, Hraw.
    destruct k as [| | | |s| |]; simpl; try reflexivity.
    rewrite property_toUpperCase, (Hname s eq_refl). simpl.
    destruct (Js.parseInt s) as [n|] eqn:Hparse; [|reflexivity].
    simpl. by rewrite (Hint s n eq_refl Hparse). }
  repeat split.
  - intros d Hd. rewrite Hget. simpl. by rewrite bool_decide_eq_false_2.
  - by rewrite Hget.
  - by rewrite Hget.
Qed.

Lemma nonexistent_matches_nothing (E : enum_cls) :
  e_values E !! "NONEXISTENT" = None → matches_nothing E (JStr "nonexistent").
Proof.
  intros Hname. repeat split.
  - intros s [= <-]. exact Hname.
  - intros s n [= <-]. discriminate.
Qed.

Lemma get_without_match_witness :
  is_Some (e_reverse Log.VERBOSITY)
  ∧ matches_nothing Log.VERBOSITY (JStr "nonexistent")
  ∧ get Log.VERBOSITY (JStr "nonexistent") (Some (JNum 7)) = Ok (JNum 7)
  ∧ get Log.VERBOSITY (JStr "nonexistent") None
    = Throw (EnumNotValidKeyOrValue (JStr "nonexistent") "PackageType").
Proof.
  assert (Hrev : is_Some (e_reverse Log.VERBOSITY)) by (vm_compute; eauto).
  assert (Hnone : matches_nothing Log.VERBOSITY (JStr "nonexistent")).
  { apply nonexistent_matches_nothing. vm_compute. reflexivity. }
  destruct (get_without_match Log.VERBOSITY (JStr "nonexistent") Hrev Hnone)
    as (Hdflt & _ & Hthrow).
  split; [exact Hrev|]. split; [exact Hnone|].
  split; [apply Hdflt; discriminate|exact Hthrow].
Defined.

(** C2, as stated, fails: a default that is [undefined] is not returned
    but taken for a missing one; and an enumeration built from a list of
    names has no reverse map to consult. *)
Lemma get_default_counterexample :
  (matches_nothing Log.VERBOSITY (JStr "nonexistent")
   ∧ get Log.VERBOSITY (JStr "nonexistent") (Some JUndefined) ≠ Ok JUndefined)
  ∧ (matches_nothing Pkg.PACKAGE_TYPES (JStr "nonexistent")
     ∧ get Pkg.PACKAGE_TYPES (JStr "nonexistent") (Some (JNum 7)) ≠ Ok (JNum 7)).
Proof.
  split; (split; [apply nonexistent_matches_nothing; vm_compute; reflexivity|]).
  - vm_compute. discriminate.
  - vm_compute. discriminate.
Qed.
End EnumTheorems.

Section SortingTheorems.
Import Enums.



End SortingTheorems.

(** ** Logging verbosity *)

Section LogTheorems.
Import Enums Log.

(** C10. While [CURRENT_VERBOSITY] is still [null], [Log.verbosity] is
    [VERBOSITY.WARNING], whose value is 400, and [Log.enabled(v)] holds
    exactly when the numeric value of [v] is at least 400; so it holds
    for [ERROR] and not for [INFO]. *)
Theorem default_verbosity_is_warning :
  CURRENT_VERBOSITY_initial = Nullish
  ∧ e_values VERBOSITY !! "WARNING" = Some WARNING
  ∧ get_verbosity Nullish = Level WARNING
  ∧ verbosity_value Nullish = inl 400
  ∧ (∀ v n, verbosity_to_value v = inl n →
        enabled Nullish v = bool_decide (400 ≤ n))
  ∧ enabled Nullish (Level ERROR) = true
  ∧ enabled Nullish (Level INFO) = false.
Proof.
  repeat split; try (vm_compute; reflexivity).
  intros v n Hv. unfold enabled, verbosity_value. rewrite Hv. simpl.
  unfold Z.geb. destruct (Z.compare_spec n 400); case_bool_decide; (done || lia).
Qed.

Lemma default_verbosity_is_warning_witness :
  verbosity_to_value (Number 400) = inl 400
  ∧ enabled Nullish (Number 400) = true
  ∧ verbosity_to_value (Level DEBUG) = inl 200
  ∧ enabled Nullish (Level DEBUG) = false.
Proof.
  destruct default_verbosity_is_warning as (_ & _ & _ & _ & Henabled & _).
  split; [reflexivity|]. split; [exact (Henabled (Number 400) 400 eq_refl)|].
  split; [reflexivity|]. exact (Henabled (Level DEBUG) 200 eq_refl).
Defined.
End LogTheorems.

(** ** Library version *)

Section VersionTheorems.
Import Version.

Lemma shorten_40 (git : string) :
  String.length git = 40%nat → shorten git = Js.slice0 7 git.
Proof. unfold shorten. by intros ->. Qed.

(** C8. Parsing the version string ["10.291.2.0"] with a revision hash of
    40 characters gives a known version 10.291.2.0 with empty metadata
    and, as short revision, the first 7 characters of the hash: from
    [_parse_manifest_version] in the first snapshot, and in the
    variables [parse_manifest_version] sets in the second, whenever the
    manifest of the package holds that version and that hash. *)
Theorem parse_manifest_version_10_291_2_0 (git : string) :
  String.length git = 40%nat →
  (∃ v, _parse_manifest_version (Some "10.291.2.0") (Some git) = Ok v
        ∧ known v = true ∧ major v = 10 ∧ minor v = 291 ∧ patch v = 2
        ∧ suffix v = 0 ∧ meta v = ""
        ∧ git_short v = Js.slice0 7 git ∧ String.length (git_short v) = 7%nat)
  ∧ (∀ PACKAGE_ID env manifest vars,
        Vars.VERSION_KNOWN vars = false →
        package_manifest PACKAGE_ID env = Ok manifest →
        Host.version manifest = Some "10.291.2.0" →
        Host.flags_git_version manifest = Some git →
        let vars' := Vars.parse_manifest_version PACKAGE_ID env vars in
        Vars.VERSION_KNOWN vars' = true
        ∧ Vars.MAJOR_VERSION vars' = 10 ∧ Vars.MINOR_VERSION vars' = 291
        ∧ Vars.PATCH_VERSION vars' = 2 ∧ Vars.SUFFIX_VERSION vars' = 0
        ∧ Vars.META_VERSION vars' = ""
        ∧ Vars.GIT_VERSION_SHORT vars' = Js.slice0 7 git
        ∧ String.length (Vars.GIT_VERSION_SHORT vars') = 7%nat).
Proof.
  intros Hlen.
  assert (Hshort : String.length (Js.slice0 7 git) = 7%nat).
  { apply slice0_length. lia. }
  split.
  - eexists. unfold _parse_manifest_version.
    cbv beta zeta iota delta [from_option id]. rewrite (shorten_40 git Hlen).
    split; [vm_compute; reflexivity|].
    repeat split; try reflexivity. exact Hshort.
  - intros PACKAGE_ID env manifest vars Hknown Hmanifest Hversion Hgit vars'.
    subst vars'. unfold Vars.parse_manifest_version, version_string.
    rewrite Hknown, Hmanifest, Hversion, Hgit.
    cbv beta zeta iota delta [from_option id Js.truthy_string try_catch mbind result_bind].
    rewrite (shorten_40 git Hlen).
    repeat split; try (vm_compute; reflexivity). exact Hshort.
Qed.

Lemma parse_manifest_version_10_291_2_0_witness :
  String.length Examples.revision = 40%nat
  ∧ ∃ v, _parse_manifest_version (Some "10.291.2.0") (Some Examples.revision) = Ok v
         ∧ major v = 10 ∧ git_short v = "abcdef0".
Proof.
  split; [reflexivity|].
  destruct (parse_manifest_version_10_291_2_0 Examples.revision eq_refl)
    as [(v & Hv & _ & Hmajor & _ & _ & _ & _ & Hshort & _) _].
  exists v. split; [exact Hv|]. split; [exact Hmajor|exact Hshort].
Defined.

(** C9. Asked for the current major, minor and patch, [version_at_least]
    answers whether the suffix asked for is exactly the current one, in
    both snapshots; so it answers [false] for a lower suffix. *)
Theorem version_at_least_same_patch :
  (∀ V suffix_,
      version_at_least V (major V) (Some (minor V)) (Some (patch V)) (Some suffix_)
      = bool_decide (suffix V = suffix_))
  ∧ (∀ vars suffix_,
      Vars.version_at_least vars (Vars.MAJOR_VERSION vars) (Some (Vars.MINOR_VERSION vars))
        (Some (Vars.PATCH_VERSION vars)) (Some suffix_)
      = bool_decide (Vars.SUFFIX_VERSION vars = suffix_))
  ∧ (∀ V suffix_, suffix_ < suffix V →
      version_at_least V (major V) (Some (minor V)) (Some (patch V)) (Some suffix_) = false)
  ∧ (∀ vars suffix_, suffix_ < Vars.SUFFIX_VERSION vars →
      Vars.version_at_least vars (Vars.MAJOR_VERSION vars) (Some (Vars.MINOR_VERSION vars))
        (Some (Vars.PATCH_VERSION vars)) (Some suffix_) = false).
Proof.
  assert (H1 : ∀ V suffix_,
      version_at_least V (major V) (Some (minor V)) (Some (patch V)) (Some suffix_)
      = bool_decide (suffix V = suffix_)).
  { intros V suffix_. unfold version_at_least, loosely_equal. simpl.
    rewrite !Z.eqb_refl. case_bool_decide; lia. }
  assert (H2 : ∀ vars suffix_,
      Vars.version_at_least vars (Vars.MAJOR_VERSION vars) (Some (Vars.MINOR_VERSION vars))
        (Some (Vars.PATCH_VERSION vars)) (Some suffix_)
      = bool_decide (Vars.SUFFIX_VERSION vars = suffix_)).
  { intros vars suffix_. unfold Vars.version_at_least, loosely_equal. simpl.
    rewrite !Z.eqb_refl. case_bool_decide; lia. }
  repeat split; [exact H1|exact H2|..].
  - intros V suffix_ Hlt. rewrite H1. apply bool_decide_eq_false_2. lia.
  - intros vars suffix_ Hlt. rewrite H2. apply bool_decide_eq_false_2. lia.
Qed.

Lemma version_at_least_same_patch_witness :
  0 < Vars.SUFFIX_VERSION Vars.initial
  ∧ Vars.version_at_least Vars.initial 1 (Some 99) (Some 99) (Some 0) = false
  ∧ Vars.version_at_least Vars.initial 1 (Some 99) (Some 99) None = false.
Proof.
  destruct version_at_least_same_patch as (_ & _ & _ & Hlower).
  assert (Hlt : 0 < Vars.SUFFIX_VERSION Vars.initial) by (simpl; lia).
  split; [exact Hlt|]. split; exact (Hlower Vars.initial 0 Hlt).
Defined.
End VersionTheorems.

(** ** Regular expressions *)

Section RegexFacts.
Import Regex.

(** Greedy iteration of a one-character matcher up to the end of the
    input succeeds only when every code unit left passes the test. *)
Lemma iterate_step_to_end (ok : ascii → bool) (fl : flags) (fuel : nat)
    (x : cursor) (caps : captures) (res : cursor * captures) :
  multiline fl = false →
  iterate (step ok) true (λ y caps', rmatch fl Eol y caps' (λ z c, Some (z, c)))
    fuel x caps = Some res →
  Forall (λ c, ok c = true) (list_ascii_of_string (rest x)).
Proof.
  intros Hfl. revert x caps res.
  induction fuel as [|fuel IH]; intros [p b s] caps res; simpl.
  - unfold at_eol. simpl. destruct s; [constructor|by rewrite Hfl].
  - destruct s as [|c s]; [constructor|].
    unfold step at 1. simpl.
    destruct (ok c) eqn:Hc.
    + assert (Hp : (S p =? p)%nat = false) by (apply Nat.eqb_neq; lia).
      simpl in Hp. rewrite Hp. clear Hp.
      destruct (iterate _ _ _ fuel _ _) eqn:Hit.
      * intros _. constructor; [exact Hc|]. by apply IH in Hit.
      * unfold at_eol. simpl. by rewrite Hfl.
    + unfold at_eol. simpl. by rewrite Hfl.
Qed.

Lemma exec_from_anchored (fl : flags) (r : regex) (index : nat) (c : ascii) (s : string) :
  multiline fl = false →
  exec_from fl (Seq Bol r) index (Some c) s = None.
Proof.
  intros Hfl. revert index c. induction s as [|c' s IH]; intros index c; simpl.
  - unfold at_bol. simpl. by rewrite Hfl.
  - unfold at_bol. simpl. rewrite Hfl. simpl. apply IH.
Qed.

Lemma match_anchored (fl : flags) (r : regex) (s : string) :
  multiline fl = false →
  match_ fl (Seq Bol r) s
  = match rmatch fl (Seq Bol r) (start_of s) ∅ (λ y caps, Some (y, caps)) with
    | Some (y, caps) => Some (Match (start_of s) y caps)
    | None => None
    end.
Proof.
  intros Hfl. unfold match_, exec, start_of. simpl pos. simpl before. simpl rest.
  destruct s as [|c s]; [reflexivity|].
  change (exec_from fl (Seq Bol r) 0 None (String c s))
    with (match rmatch fl (Seq Bol r) (Cursor 0 None (String c s)) ∅
                  (λ y caps, Some (y, caps)) with
          | Some (y, caps) => Some (Match (Cursor 0 None (String c s)) y caps)
          | None => exec_from fl (Seq Bol r) 1 (Some c) s
          end).
  by rewrite exec_from_anchored.
Qed.
End RegexFacts.

Section PackageIdFacts.
Import Regex Pkg.

(** A valid package id is made of letters, digits, [_] and [-]. *)
Lemma is_valid_id_chars (id : string) :
  is_valid_id id = true → Forall (λ c, id_char c = true) (list_ascii_of_string id).
Proof.
  unfold is_valid_id, test. intros H.
  apply andb_true_iff in H as [_ H]. apply bool_decide_eq_true in H as [m H].
  unfold PACKAGE_ID_REGEX in H. rewrite match_anchored in H by reflexivity.
  destruct id as [|c s]; [constructor|].
  simpl in H. unfold at_bol in H. simpl in H. unfold step at 1 in H. simpl in H.
  change (class_matches PACKAGE_ID_FLAGS _ c) with (id_char c) in H.
  destruct (id_char c) eqn:Hc; [|discriminate].
  constructor; [exact Hc|].
  destruct (iterate _ _ _ _ _ _) as [res|] eqn:Hit; [|discriminate].
  by apply (iterate_step_to_end id_char PACKAGE_ID_FLAGS) in Hit.
Qed.

Lemma is_valid_id_no_separator (id : string) :
  is_valid_id id = true → Forall (λ c, c ≠ KEY_SEPARATOR) (list_ascii_of_string id).
Proof.
  intros H. apply is_valid_id_chars in H.
  eapply Forall_impl; [exact H|]. intros c Hc ->. discriminate.
Qed.
End PackageIdFacts.

(** ** Package identities *)

(** *** The scan of a stack trace *)

Section ScanFacts.
Import Enums Regex Pkg.




End ScanFacts.

(** *** The nesting of [set] *)

Section DepthFacts.
Import Enums Regex Pkg.
Variable PACKAGE_ID : string.

(** [classify] keeps no empty identifier. *)
Lemma classify_truthy env ignore type_ name match_id match_type :
  classify env ignore type_ name = Ok (Some (match_id, match_type)) →
  Js.truthy_string match_id = true.
Proof.
  unfold classify. destruct (Js.truthy_string type_), (Js.truthy_string name) eqn:Hname;
    simpl; intros H; simplify_eq/=; cases.
Qed.

Lemma for_each_match_ext {S : Type}
    (f g : string → member → string → S → result (S * bool))
    env ignore matches (s : S) :
  (∀ id type text s', Js.truthy_string id = true → f id type text s' = g id type text s') →
  for_each_match f env ignore matches s = for_each_match g env ignore matches s.
Proof.
  intros Hext. revert s. induction matches as [|m matches IH]; intros s; simpl; [done|].
  destruct (classify _ _ _ _) as [[[match_id match_type]|]|e] eqn:Hclassify; simpl; [|done..].
  rewrite (Hext match_id) by (by eapply classify_truthy).
  destruct (g _ _ _ _) as [[s' []]|e]; simpl; [apply IH|done..].
Qed.

(** With a truthy [id] and a [type], [set] does not call itself. *)
Lemma set_leaf (depth : nat) env (id type : jsval) freeze :
  truthy id = true → truthy type = true →
  Snapshot1.set PACKAGE_ID (S depth) env id type freeze
  = Snapshot1.set PACKAGE_ID 1 env id type freeze.
Proof.
  intros Hid Htype. cbn [Snapshot1.set]. rewrite Hid. cbn [negb].
  destruct id; try reflexivity.
  destruct type; try discriminate; reflexivity.
Qed.

(** The calls of [set] to itself nest no deeper than 2 in the first
    snapshot: more room on the stack changes nothing. *)
Lemma set_depth_enough (depth : nat) env (id type : jsval) freeze :
  Snapshot1.set PACKAGE_ID (S (S depth)) env id type freeze
  = Snapshot1.set PACKAGE_ID 2 env id type freeze.
Proof.
  remember (S depth) as depth' eqn:Hdepth.
  change 2%nat with (S 1). remember 1%nat as one eqn:Hone.
  cbn [Snapshot1.set]. subst depth' one.
  destruct (truthy id) eqn:Hid; cbn [negb].
  - destruct id as [| | | |s| |]; try reflexivity.
    case_bool_decide; [reflexivity|].
    case_bool_decide; [|reflexivity].
    unfold Snapshot1.from_key_with.
    destruct (Snapshot1.parse_key s) as [[id' type']|e]; [|reflexivity].
    cbn [mbind result_bind].
    destruct (truthy id') eqn:Hid', (truthy type') eqn:Htype'; cbn [negb orb]; try reflexivity.
    by rewrite set_leaf.
  - unfold Snapshot1.detect_id_with, Snapshot1.foreach_package_in_stack_trace.
    cbn [mbind result_bind].
    destruct (Host.captured_stack env) as [text|]; [|reflexivity].
    destruct (negb (Js.truthy_string text)); [reflexivity|].
    erewrite for_each_match_ext; [reflexivity|].
    intros name t text' this Hname. cbv beta. by rewrite set_leaf.
Qed.
End DepthFacts.

(** *** Keys *)

Section KeyFacts.
Import Enums Regex Pkg.
Variable PACKAGE_ID : string.

Lemma split_two (sep : ascii) (a b : string) :
  Forall (λ c, c ≠ sep) (list_ascii_of_string a) →
  Forall (λ c, c ≠ sep) (list_ascii_of_string b) →
  Js.split sep (a ++ String sep b) = [a; b].
Proof.
  intros Ha Hb. induction a as [|c a IH]; simpl.
  - rewrite Ascii.eqb_refl. by rewrite split_without_sep.
  - inversion Ha as [|? ? Hc Ha']; subst.
    destruct (Ascii.eqb_spec c sep) as [->|_]; [done|].
    by rewrite (IH Ha').
Qed.

Lemma is_valid_id_truthy (name : string) :
  is_valid_id name = true → Js.truthy_string name = true ∧ name ≠ UNKNOWN_ID.
Proof.
  intros H. split.
  - unfold is_valid_id in H. by apply andb_true_iff in H as [? _].
  - intros ->. vm_compute in H. discriminate.
Qed.

Lemma parse_key_of (name : string) (t : member) :
  is_valid_id name = true → is_kind t →
  Snapshot1.parse_key (key_of (name, t)) = Ok (JStr name, JMember t).
Proof.
  intros Hvalid Ht. apply is_valid_id_no_separator in Hvalid.
  unfold Snapshot1.parse_key, key_of. simpl fst. simpl snd.
  destruct Ht as [Ht|[Ht|Ht]]; subst t.
  all: rewrite split_two; [reflexivity|repeat constructor; discriminate|done].
Qed.

Lemma set_with_type (depth : nat) (env : Host.Env) (name : string) (t : member)
    (freeze : bool) :
  is_valid_id name = true → is_kind t →
  Snapshot1.set PACKAGE_ID (S depth) env (JStr name) (JMember t) freeze
  = Ok {| id := name; type := t; is_frozen := freeze |}.
Proof.
  intros Hvalid Ht. destruct (is_valid_id_truthy name Hvalid) as [Htruthy Hknown].
  cbn [Snapshot1.set truthy]. rewrite Htruthy. cbn [negb].
  rewrite bool_decide_eq_false_2 by done.
  rewrite (bool_decide_eq_false_2 (JMember t = JNull)) by done.
  cbn [mbind result_bind]. rewrite Hvalid. cbn [negb].
  destruct Ht as [Ht|[Ht|Ht]]; subst t; reflexivity.
Qed.

Lemma new_of_key (depth : nat) (env : Host.Env) (name : string) (t : member) :
  is_valid_id name = true → is_kind t →
  Snapshot1.new PACKAGE_ID (S (S depth)) env (JStr (key_of (name, t))) JNull
  = Ok (info_of (name, t)).
Proof.
  intros Hvalid Ht. destruct (is_valid_id_truthy name Hvalid) as [Htruthy Hknown].
  unfold Snapshot1.new. remember (S depth) as depth' eqn:Hdepth.
  cbn [Snapshot1.set truthy]. subst depth'.
  assert (Hkey : Js.truthy_string (key_of (name, t)) = true
                 ∧ key_of (name, t) ≠ UNKNOWN_ID).
  { destruct Ht as [Ht|[Ht|Ht]]; subst t; split; (reflexivity || discriminate). }
  destruct Hkey as [-> Hkey]. cbn [negb].
  rewrite bool_decide_eq_false_2 by done.
  rewrite (bool_decide_eq_true_2 (JNull = JNull)) by done.
  unfold Snapshot1.from_key_with. rewrite (parse_key_of name t Hvalid Ht).
  cbn [mbind result_bind truthy]. rewrite Htruthy. cbn [negb orb].
  rewrite (set_with_type depth env name t true Hvalid Ht). reflexivity.
Qed.
End KeyFacts.

Section KeyTheorems.
Import Enums Pkg.
Variable PACKAGE_ID : string.

(** In the first snapshot the key ["module:my-module"] gives the module
    [my-module], as the explicit construction does, whatever the host. *)
Lemma new_from_key_snapshot1 (depth : nat) (env : Host.Env) :
  Snapshot1.new PACKAGE_ID (S (S depth)) env (JStr "module:my-module") JNull
  = Ok {| id := "my-module"; type := MODULE; is_frozen := true |}
  ∧ Snapshot1.new PACKAGE_ID (S depth) env (JStr "my-module") (JMember MODULE)
    = Ok {| id := "my-module"; type := MODULE; is_frozen := true |}.
Proof. split; vm_compute; reflexivity. Qed.

(** In the second snapshot the type written in a key is looked up as it
    is, in lower case, among the upper-case names of [PACKAGE_TYPES]: it
    is never found, and the type is detected from the host instead. *)
Lemma new_from_key_snapshot2 (depth : nat) (env : Host.Env) :
  Snapshot2.new PACKAGE_ID (S (S depth)) env (JStr "module:my-module") JNull
  = Ok {| id := "my-module"; type := detect_type PACKAGE_ID env "my-module";
          is_frozen := true |}
  ∧ Snapshot2.new PACKAGE_ID (S depth) env (JStr "my-module") (JMember MODULE)
    = Ok {| id := "my-module"; type := MODULE; is_frozen := true |}.
Proof. split; vm_compute; reflexivity. Qed.

(** C1, on the second snapshot. With [my-module] installed but not
    active, the key ["module:my-module"] gives a package of type
    [UNKNOWN], which is not equal to the one constructed with the type
    [MODULE]: the type written in the key is lost. *)
Theorem key_type_lost_in_snapshot2 (depth : nat) :
  let env := Examples.game_with {[ "my-module" := Examples.inactive_module ]} None in
  Snapshot2.new PACKAGE_ID (S (S depth)) env (JStr "module:my-module") JNull
  = Ok {| id := "my-module"; type := UNKNOWN; is_frozen := true |}
  ∧ Snapshot2.new PACKAGE_ID (S depth) env (JStr "my-module") (JMember MODULE)
    = Ok {| id := "my-module"; type := MODULE; is_frozen := true |}
  ∧ equals {| id := "my-module"; type := UNKNOWN; is_frozen := true |}
           {| id := "my-module"; type := MODULE; is_frozen := true |} = false.
Proof. repeat split; vm_compute; reflexivity. Qed.
End KeyTheorems.

(** *** The capture error *)

Section CaptureFacts.
Import Enums Regex Pkg.
Variable PACKAGE_ID : string.


End CaptureFacts.

Section CaptureTheorems.
Import Enums Regex Pkg.
Variable PACKAGE_ID : string.

End CaptureTheorems.



(** *** Deduplication *)

Section CollectFacts.
Import Enums Regex Pkg.
Variable PACKAGE_ID : string.

Lemma key_of_inj (p q : string * member) :
  plain_pair p → plain_pair q → key_of p = key_of q → p = q.
Proof.
  destruct p as [n t], q as [n' t']. intros [_ Ht] [_ Ht'] H.
  destruct Ht as [Ht|[Ht|Ht]], Ht' as [Ht'|[Ht'|Ht']]; simpl in *; subst t t';
    vm_compute in H; by simplify_eq.
Qed.

(** On a plain match [classify] does not throw, and keeps it or not. *)
Lemma classify_plain env ignore (root name : string) :
  plain_match (root, name) →
  classify env ignore root name = Ok None
  ∨ ∃ t, classify env ignore root name = Ok (Some (name, t)) ∧ plain_pair (name, t).
Proof.
  intros [Hroot Hvalid]. simpl in *.
  destruct (is_valid_id_truthy name Hvalid) as [Htruthy _].
  unfold classify. rewrite Htruthy.
  assert (Hkind : ∀ t, is_kind t → plain_pair (name, t)) by (intros t Ht; by split).
  repeat (apply elem_of_cons in Hroot as [->|Hroot]); [..|by apply elem_of_nil in Hroot];
    simpl; repeat case_match; eauto 10 using Hkind; right; eexists; (split; [done|]);
    apply Hkind; unfold is_kind; eauto.
Qed.


(** The loop of [collect_all] without [include_fn], on plain matches:
    it completes, and the set of keys holds, once each, the keys of the
    matches that [classify] keeps. *)
Lemma collect_keys env ignore (matches : list rmatch_result) (pairs0 : list (string * member)) :
  Forall plain_match (root_and_id <$> matches) →
  Forall plain_pair pairs0 →
  NoDup (key_of <$> pairs0) →
  ∃ pairs,
    for_each_match
      (λ id type (_ : string) (set : list string),
         if bool_decide ((lower type ++ String KEY_SEPARATOR id)%string ∈ set)
         then Ok (set, true)
         else Ok ((set ++ [(lower type ++ String KEY_SEPARATOR id)%string])%list, true))
      env ignore matches (key_of <$> pairs0) = Ok (key_of <$> pairs, true)
    ∧ Forall plain_pair pairs
    ∧ NoDup (key_of <$> pairs)
    ∧ (∀ p, p ∈ pairs0 → p ∈ pairs)
    ∧ (∀ m p, m ∈ matches →
         classify env ignore (root_and_id m).1 (root_and_id m).2 = Ok (Some p) → p ∈ pairs).
Proof.
  revert pairs0. induction matches as [|m matches IH]; intros pairs0 Hplain Hpairs Hnodup.
  - exists pairs0. repeat split; try done. intros m p Hm. by apply elem_of_nil in Hm.
  - rewrite fmap_cons in Hplain. apply Forall_cons in Hplain as [Hm Hplain].
    destruct (classify_plain env ignore _ _ Hm) as [Hnone|(t & Hsome & Hpair)].
    + destruct (IH pairs0 Hplain Hpairs Hnodup) as (pairs & Hrun & Hgood & Hnd & Hkeep & Hall).
      exists pairs. cbn [for_each_match]. rewrite Hnone. cbn [mbind result_bind].
      repeat split; try done.
      intros m' p Hin Hc. apply elem_of_cons in Hin as [->|Hin]; [|by eapply Hall].
      unfold root_and_id in Hc. cbn [fst snd] in Hc. congruence.
    + destruct (decide (key_of ((root_and_id m).2, t) ∈ key_of <$> pairs0)) as [Hseen|Hnew].
      * destruct (IH pairs0 Hplain Hpairs Hnodup) as (pairs & Hrun & Hgood & Hnd & Hkeep & Hall).
        exists pairs. cbn [for_each_match]. rewrite Hsome. cbn [mbind result_bind].
        change (lower t ++ String KEY_SEPARATOR (default "" (group 2 m)))
          with (key_of ((root_and_id m).2, t)).
        rewrite bool_decide_eq_true_2 by done. cbn [mbind result_bind].
        repeat split; try done.
        intros m' p Hin Hc. apply elem_of_cons in Hin as [->|Hin]; [|by eapply Hall].
        unfold root_and_id in Hc. cbn [fst snd] in Hc. rewrite Hsome in Hc. simplify_eq.
        apply list_elem_of_fmap in Hseen as (q & Hq & Hin).
        rewrite Forall_forall in Hpairs.
        apply key_of_inj in Hq; [|done|by apply Hpairs]. subst q. by apply Hkeep.
      * destruct (IH (pairs0 ++ [((root_and_id m).2, t)])%list) as (pairs & Hrun & Hgood & Hnd & Hkeep & Hall).
        { done. }
        { apply Forall_app. split; [done|]. by constructor. }
        { rewrite fmap_app. apply NoDup_app. repeat split; [done| |apply NoDup_singleton].
          intros k Hk Hk'. apply list_elem_of_singleton in Hk'. by subst k. }
        rewrite fmap_app in Hrun. simpl in Hrun.
        exists pairs. cbn [for_each_match]. rewrite Hsome. cbn [mbind result_bind].
        change (lower t ++ String KEY_SEPARATOR (default "" (group 2 m)))
          with (key_of ((root_and_id m).2, t)).
        rewrite bool_decide_eq_false_2 by done. cbn [mbind result_bind].
        repeat split; try done.
        -- intros p Hp. apply Hkeep. apply elem_of_app. by left.
        -- intros m' p Hin Hc. apply elem_of_cons in Hin as [->|Hin]; [|by eapply Hall].
           unfold root_and_id in Hc. cbn [fst snd] in Hc. rewrite Hsome in Hc. simplify_eq.
           apply Hkeep. apply elem_of_app. right. left.
Qed.

Lemma for_of_fmap {A B C} (f : B → result C) (h : A → B) (g : A → C) (l : list A) :
  (∀ x, x ∈ l → f (h x) = Ok (g x)) → for_of f (h <$> l) = Ok (g <$> l).
Proof.
  induction l as [|x l IH]; intros H; [done|].
  rewrite !fmap_cons. cbn [for_of]. rewrite (H x) by left. cbn [mbind result_bind].
  rewrite IH; [done|]. intros y Hy. apply H. by right.
Qed.

End CollectFacts.

Section CollectTheorems.
Import Enums Regex Pkg.
Variable PACKAGE_ID : string.


End CollectTheorems.



(** *** Compatibility with the host *)

Section CompatibilityTheorems.
Import Enums Pkg.
Variable isNewerVersion : string → string → bool.

End CompatibilityTheorems.


(** * Further properties of the code *)

Section EnumConsistency.
Import Enums.

Lemma upper_not_static (name : string) :
  name = Js.toUpperCase name →
  name ∉ (static_names ++ ["reverse"; "name"; "length"; "caller"; "arguments"])%list.
Proof.
  intros Hup Hin.
  pose proof static_names_lowercase as Hlow.
  rewrite Forall_forall in Hlow. apply Hlow in Hin.
  rewrite Hup, has_lower_toUpperCase in Hin. done.
Qed.

Lemma has_property_upper (E : enum_cls) (name : string) :
  name = Js.toUpperCase name →
  has_property E name = bool_decide (is_Some (e_values E !! name)).
Proof.
  intros Hup. pose proof (upper_not_static name Hup) as Hnot.
  unfold has_property.
  rewrite (bool_decide_eq_false_2 (name ∈ _)).
  2:{ intros Hin. apply Hnot. rewrite !elem_of_app in *.
      destruct Hin as [Hin|Hin]; [by left|]. right. by right. }
  rewrite (bool_decide_eq_false_2 (name = "reverse")).
  2:{ intros ->. apply Hnot. apply elem_of_app. right. left. }
  by rewrite !orb_false_r.
Qed.

(** What a successful call of [EnumValue] found and did. *)
Lemma EnumValue_Ok (E : enum_cls) (name : string) (value : option Z) (sort : bool)
    (E' : enum_cls) (m : member) :
  EnumValue E name value sort = Ok (E', m) →
  e_frozen E = false
  ∧ name = Js.toUpperCase name
  ∧ names_a_class name = true
  ∧ e_values E !! name = None
  ∧ e_frozen E' = false
  ∧ match value with
    | None => e_reverse E' = e_reverse E
    | Some v => ∃ rev, e_reverse E = Some rev ∧ rev !! v = None
                       ∧ e_reverse E' = Some (<[v := m]> rev)
    end.
Proof.
  unfold EnumValue. intros H.
  destruct (e_frozen E) eqn:Hfrozen; [done|].
  case_bool_decide as Hup; [|done]. simpl in H.
  destruct (names_a_class name) eqn:Hclass; [|done]. simpl in H.
  rewrite (has_property_upper E name Hup) in H.
  case_bool_decide as Hfresh; [done|].
  apply eq_None_not_Some in Hfresh.
  destruct value as [v|]; simpl in H.
  - destruct (e_reverse E) as [rev|] eqn:Hrev; [|done].
    case_bool_decide as Hv; [done|]. apply eq_None_not_Some in Hv.
    simpl in H. destruct sort; simplify_eq/=; eauto 10.
  - destruct sort; simplify_eq/=; eauto 10.
Qed.

(** When [EnumValue] succeeds. *)
Lemma EnumValue_accepts (E : enum_cls) (name : string) (value : option Z) (sort : bool) :
  e_frozen E = false →
  name = Js.toUpperCase name →
  names_a_class name = true →
  e_values E !! name = None →
  (∀ v, value = Some v → ∃ rev, e_reverse E = Some rev ∧ rev !! v = None) →
  ∃ E', EnumValue E name value sort = Ok (E', Member (e_cls E) name value).
Proof.
  intros Hfrozen Hup Hclass Hfresh Hvalue. unfold EnumValue.
  rewrite Hfrozen. rewrite (bool_decide_eq_true_2 _ Hup). simpl.
  rewrite Hclass. simpl.
  rewrite (has_property_upper E name Hup), Hfresh.
  rewrite bool_decide_eq_false_2 by (by intros [? ?]).
  destruct value as [v|]; simpl.
  - destruct (Hvalue v eq_refl) as (rev & -> & Hv). rewrite Hv.
    rewrite bool_decide_eq_false_2 by (by intros [? ?]). simpl. eauto.
  - eauto.
Qed.

Lemma EnumValue_consistent (E : enum_cls) (name : string) (value : option Z) (sort : bool)
    (E' : enum_cls) (m : member) :
  consistent E →
  EnumValue E name value sort = Ok (E', m) →
  consistent E'.
Proof.
  intros (Hnodup & Hvalues & Hmembers & Hreverse) HE.
  pose proof (EnumValue_inv _ _ _ _ _ _ HE) as (Hm & Hcls & _ & Hvalues' & Hlist').
  pose proof (EnumValue_Ok _ _ _ _ _ _ HE) as (_ & Hup & _ & Hfresh & _ & Hrev').
  assert (Hperm : e_list E' ≡ₚ m :: e_list E).
  { rewrite Hlist'. destruct sort; [rewrite array_sort_perm|];
      by rewrite Permutation_app_comm. }
  assert (Hname : m_name m = name) by (by rewrite Hm).
  assert (Hnew : ∀ m', m' ∈ e_list E → m_name m' ≠ name).
  { intros m' Hin Heq. assert (e_values E !! name = Some m') as Hsome by (by apply Hvalues).
    by rewrite Hfresh in Hsome. }
  assert (Hin' : ∀ m', m' ∈ e_list E' ↔ m' = m ∨ m' ∈ e_list E).
  { intros m'. rewrite Hperm. apply elem_of_cons. }
  unfold consistent. split; [|split; [|split]].
  - rewrite Hperm. simpl. constructor; [|done].
    rewrite Hname. intros (m' & Heq & Hin)%list_elem_of_fmap. by eapply Hnew.
  - intros n m'. rewrite Hvalues', Hin'. split.
    + intros [[<- <-]|[Hne Hn]]%lookup_insert_Some.
      * split; [by left|done].
      * apply Hvalues in Hn as [? ?]. split; [by right|done].
    + intros [[-> | Hin] <-].
      * rewrite Hname. apply lookup_insert_eq.
      * rewrite lookup_insert_ne; [by apply Hvalues|].
        intros Heq. by eapply Hnew.
  - intros m' [->|Hin]%Hin'.
    + split; [by rewrite Hm, Hcls|by rewrite Hname].
    + rewrite Hcls. by apply Hmembers.
  - destruct value as [v|].
    + destruct Hrev' as (rev & Hrev & Hv & ->). rewrite Hrev in Hreverse.
      intros v' m'. rewrite lookup_insert_Some, Hin', Hreverse.
      split.
      * intros [[<- <-]|[Hne [Hin Hval]]]; [|by eauto].
        split; [by left|]. by rewrite Hm.
      * intros [[->|Hin] Hval].
        -- left. rewrite Hm in Hval. simpl in Hval. by simplify_eq.
        -- destruct (decide (v = v')) as [<-|Hne]; [|by right].
           assert (rev !! v = Some m') as Hsome by (by apply Hreverse).
           by rewrite Hv in Hsome.
    + rewrite Hrev'. destruct (e_reverse E) as [rev|].
      * intros v m'. rewrite Hin', Hreverse. split; [intros [? ?]; split; [by right|done]|].
        intros [[->|Hin] Hval]; [|done]. by rewrite Hm in Hval.
      * intros m' [->|Hin]%Hin'; [by rewrite Hm|]. by apply Hreverse.
Qed.

Lemma add_values_consistent (entries : list (string * option Z)) (E E' : enum_cls) :
  consistent E → add_values E entries = Ok E' → consistent E'.
Proof.
  revert E. induction entries as [|[name value] entries IH]; intros E HE H; simpl in *.
  - by simplify_eq.
  - destruct (EnumValue E name value false) as [[E1 m]|] eqn:H1; simplify_eq/=.
    eapply IH; [|exact H]. by eapply EnumValue_consistent.
Qed.

Lemma sort_list_by_value_consistent (E : enum_cls) :
  consistent E → consistent (sort_list_by_value E).
Proof.
  intros (Hnodup & Hvalues & Hmembers & Hreverse).
  assert (Hin : ∀ m, m ∈ array_sort (e_list E) ↔ m ∈ e_list E).
  { intros m. by rewrite array_sort_perm. }
  unfold consistent. simpl. split; [|split; [|split]].
  - by rewrite array_sort_perm.
  - intros n m. rewrite Hin. apply Hvalues.
  - intros m Hm. apply Hmembers. by apply Hin.
  - destruct (e_reverse E).
    + intros v m. rewrite Hin. apply Hreverse.
    + intros m Hm. apply Hreverse. by apply Hin.
Qed.

Lemma Enum_consistent (cls : nat) (name : string) (c : collection) (freeze : bool)
    (E : enum_cls) :
  Enum cls name c freeze = Ok E → consistent E.
Proof.
  unfold Enum. intros H.
  destruct (add_values _ _) as [E1|] eqn:HE; simplify_eq/=.
  apply add_values_consistent in HE.
  - apply sort_list_by_value_consistent in HE. exact HE.
  - unfold consistent. simpl. split; [|split; [|split]].
    + constructor.
    + intros n m. rewrite lookup_empty. split; [done|]. by intros [[]%elem_of_nil _].
    + by intros m []%elem_of_nil.
    + destruct c; simpl.
      * by intros m []%elem_of_nil.
      * intros v m. rewrite lookup_empty. split; [done|]. by intros [[]%elem_of_nil _].
Qed.

Lemma built_consistent (E : enum_cls) (history : list member) :
  built E history → consistent E.
Proof.
  induction 1 as [cls name c freeze E HE|E history name value sort E' m _ IH HE].
  - by eapply Enum_consistent.
  - by eapply EnumValue_consistent.
Qed.

End EnumConsistency.

Section EnumLookup.
Import Enums.

Lemma upper_lower_char (c : ascii) :
  Js.upper_char c = c → Js.upper_char (Js.lower_char c) = c.
Proof. destruct c as [[] [] [] [] [] [] [] []]; vm_compute; congruence. Qed.

Lemma toUpperCase_toLowerCase (s : string) :
  s = Js.toUpperCase s → Js.toUpperCase (Js.toLowerCase s) = s.
Proof.
  induction s as [|c s IH]; [done|].
  unfold Js.toUpperCase, Js.toLowerCase in *. simpl. intros [= Hc Hs].
  rewrite upper_lower_char by done. f_equal. by apply IH.
Qed.

Lemma toUpperCase_idemp (s : string) :
  Js.toUpperCase (Js.toUpperCase s) = Js.toUpperCase s.
Proof.
  induction s as [|c s IH]; [done|].
  unfold Js.toUpperCase in *. simpl. rewrite IH. f_equal.
  unfold Js.upper_char at 1. by rewrite is_lower_upper_char.
Qed.

(** A string that names a member, in any case, gets it. *)
Lemma get_by_name (E : enum_cls) (history : list member) (m : member) (s : string)
    (dflt : option jsval) :
  built E history →
  m ∈ e_list E →
  Js.toUpperCase s = m_name m →
  get E (JStr s) dflt = Ok (JMember m).
Proof.
  intros (_ & Hvalues & _)%built_consistent Hin Hs.
  unfold get. simpl.
  rewrite property_toUpperCase, Hs.
  assert (e_values E !! m_name m = Some m) as -> by (by apply Hvalues).
  done.
Qed.

(** A string that names no member is not found by name. *)
Lemma get_not_by_name (E : enum_cls) (s : string) (dflt : option jsval) :
  e_values E !! Js.toUpperCase s = None →
  get E (JStr s) dflt
  = match e_reverse E with
    | None => Throw TypeError
    | Some rev =>
        match Host.chain (Js.parseInt s) (λ n, rev !! n) with
        | Some m => Ok (JMember m)
        | None =>
            if bool_decide (default JUndefined dflt = JUndefined)
            then Throw (EnumNotValidKeyOrValue (JStr s) (e_name E))
            else Ok (default JUndefined dflt)
        end
    end.
Proof.
  intros Hs. unfold get. simpl. rewrite property_toUpperCase, Hs. simpl.
  destruct (e_reverse E) as [rev|]; [|done].
  destruct (Js.parseInt s) as [n|]; simpl; [|done].
  by destruct (rev !! n).
Qed.

End EnumLookup.

Section EnumValueLookup.
Import Enums.

(** What [get] does with a number: it reads the reverse map. *)
Lemma get_number (E : enum_cls) (rev : gmap Z member) (n : Z) (dflt : option jsval) :
  e_reverse E = Some rev →
  get E (JNum n) dflt
  = match rev !! n with
    | Some m => Ok (JMember m)
    | None =>
        if bool_decide (default JUndefined dflt = JUndefined)
        then Throw (EnumNotValidKeyOrValue (JNum n) (e_name E))
        else Ok (default JUndefined dflt)
    end.
Proof.
  intros Hrev. unfold get. simpl. rewrite Hrev. simpl. by destruct (rev !! n).
Qed.
End EnumValueLookup.

Section EnumExtraTheorems.
Import Enums.

Lemma consistent_NoDup (E : enum_cls) : consistent E → NoDup (e_list E).
Proof. intros (Hnodup & _). by eapply NoDup_fmap_1. Qed.

Lemma consistent_same_name (E : enum_cls) (a b : member) :
  consistent E → a ∈ e_list E → b ∈ e_list E → m_name a = m_name b → a = b.
Proof.
  intros (_ & Hvalues & _) Ha Hb Hab.
  assert (e_values E !! m_name a = Some a) as H1 by (by apply Hvalues).
  assert (e_values E !! m_name a = Some b) as H2 by (by apply Hvalues).
  congruence.
Qed.

Lemma consistent_same_value (E : enum_cls) (a b : member) (v : Z) :
  consistent E → a ∈ e_list E → b ∈ e_list E →
  m_value a = Some v → m_value b = Some v → a = b.
Proof.
  intros (_ & _ & _ & Hreverse) Ha Hb Hva Hvb.
  destruct (e_reverse E) as [rev|].
  - assert (rev !! v = Some a) as H1 by (by apply Hreverse).
    assert (rev !! v = Some b) as H2 by (by apply Hreverse).
    congruence.
  - apply Hreverse in Ha. congruence.
Qed.

(** X1. The tables of an enumeration agree.  In every enumeration the
    program can build (by [Enum], then extended by calls of [EnumValue])
    the member list holds no member twice, the object stored under a name
    is the member of that name, every member is an instance of the value
    class of the enumeration, the reverse map sends exactly the underlying
    values to the members that have them, and two members with the same
    name, or with the same underlying value, are the same member. *)
Theorem enumeration_tables_agree (E : enum_cls) (history : list member) :
  built E history →
  consistent E
  ∧ NoDup (e_list E)
  ∧ (∀ a b, a ∈ e_list E → b ∈ e_list E → m_name a = m_name b → a = b)
  ∧ (∀ a b v, a ∈ e_list E → b ∈ e_list E →
       m_value a = Some v → m_value b = Some v → a = b).
Proof.
  intros HE%built_consistent. split; [done|]. split; [by apply consistent_NoDup|].
  split.
  - intros a b. by apply consistent_same_name.
  - intros a b v. by apply consistent_same_value.
Qed.

Lemma enumeration_tables_agree_witness :
  built Log.VERBOSITY (created 1 Log.VERBOSITY_collection)
  ∧ consistent Log.VERBOSITY
  ∧ NoDup (e_list Log.VERBOSITY).
Proof.
  assert (Hbuilt : built Log.VERBOSITY (created 1 Log.VERBOSITY_collection)).
  { eapply built_Enum. exact VERBOSITY_built. }
  split; [exact Hbuilt|].
  destruct (enumeration_tables_agree _ _ Hbuilt) as (H1 & H2 & _).
  split; [exact H1|exact H2].
Defined.

(** X4. [get] finds a member by its name in any case: for a member [m]
    of an enumeration the program can build, [get] returns [m] for the
    name of [m], for the name in lower case, and for every string whose
    upper case is the name, whatever the default. *)
Theorem get_finds_member_by_name (E : enum_cls) (history : list member) (m : member)
    (dflt : option jsval) :
  built E history →
  m ∈ e_list E →
  get E (JStr (m_name m)) dflt = Ok (JMember m)
  ∧ get E (JStr (lower m)) dflt = Ok (JMember m)
  ∧ ∀ s, Js.toUpperCase s = m_name m → get E (JStr s) dflt = Ok (JMember m).
Proof.
  intros Hbuilt Hin.
  pose proof (built_consistent _ _ Hbuilt) as (_ & _ & Hmembers & _).
  destruct (Hmembers m Hin) as [_ Hup].
  split; [|split].
  - eapply get_by_name; [done..|]. by rewrite <- Hup.
  - eapply get_by_name; [done..|]. unfold lower. by apply toUpperCase_toLowerCase.
  - intros s Hs. by eapply get_by_name.
Qed.

Lemma get_finds_member_by_name_witness :
  built Pkg.PACKAGE_TYPES (created 0 (Names ["UNKNOWN"; "MODULE"; "SYSTEM"; "WORLD"]))
  ∧ Pkg.MODULE ∈ e_list Pkg.PACKAGE_TYPES
  ∧ get Pkg.PACKAGE_TYPES (JStr "module") None = Ok (JMember Pkg.MODULE)
  ∧ get Pkg.PACKAGE_TYPES (JStr "Module") None = Ok (JMember Pkg.MODULE).
Proof.
  assert (Hbuilt : built Pkg.PACKAGE_TYPES
                     (created 0 (Names ["UNKNOWN"; "MODULE"; "SYSTEM"; "WORLD"]))).
  { eapply built_Enum. exact PACKAGE_TYPES_built. }
  assert (Hin : Pkg.MODULE ∈ e_list Pkg.PACKAGE_TYPES).
  { rewrite (proj1 PACKAGE_TYPES_values). right. left. }
  split; [exact Hbuilt|]. split; [exact Hin|].
  destruct (get_finds_member_by_name _ _ Pkg.MODULE None Hbuilt Hin) as (_ & Hlower & Hany).
  split; [exact Hlower|]. apply Hany. reflexivity.
Defined.

(** X5. [get] finds a member by its underlying value: for a member [m]
    with the value [v], [get(v)] returns [m], and so does [get(s)] for
    every string [s] that names no member and that [parseInt] reads as
    [v]. *)
Theorem get_finds_member_by_value (E : enum_cls) (history : list member) (m : member)
    (v : Z) (dflt : option jsval) :
  built E history →
  m ∈ e_list E →
  m_value m = Some v →
  get E (JNum v) dflt = Ok (JMember m)
  ∧ ∀ s, Js.parseInt s = Some v → e_values E !! Js.toUpperCase s = None →
         get E (JStr s) dflt = Ok (JMember m).
Proof.
  intros Hbuilt Hin Hv.
  pose proof (built_consistent _ _ Hbuilt) as (_ & _ & _ & Hreverse).
  destruct (e_reverse E) as [rev|] eqn:Hrev.
  2:{ apply Hreverse in Hin. congruence. }
  assert (Hfound : rev !! v = Some m) by (by apply Hreverse).
  split.
  - by rewrite (get_number E rev v dflt Hrev), Hfound.
  - intros s Hs Hname. rewrite get_not_by_name by done.
    rewrite Hrev, Hs. simpl. by rewrite Hfound.
Qed.

Lemma get_finds_member_by_value_witness :
  built Log.VERBOSITY (created 1 Log.VERBOSITY_collection)
  ∧ Log.WARNING ∈ e_list Log.VERBOSITY
  ∧ m_value Log.WARNING = Some 400
  ∧ get Log.VERBOSITY (JNum 400) None = Ok (JMember Log.WARNING)
  ∧ get Log.VERBOSITY (JStr "400") None = Ok (JMember Log.WARNING).
Proof.
  assert (Hbuilt : built Log.VERBOSITY (created 1 Log.VERBOSITY_collection)).
  { eapply built_Enum. exact VERBOSITY_built. }
  assert (Hin : Log.WARNING ∈ e_list Log.VERBOSITY).
  { rewrite (proj1 VERBOSITY_values). do 4 right. left. }
  split; [exact Hbuilt|]. split; [exact Hin|]. split; [reflexivity|].
  destruct (get_finds_member_by_value _ _ Log.WARNING 400 None Hbuilt Hin eq_refl)
    as (Hnum & Hstr).
  split; [exact Hnum|]. apply Hstr; reflexivity.
Defined.

(** X6. Whatever [get] returns is its argument, when that is a value
    object of the enumeration, or a member of the enumeration, or the
    default that was passed, which is then not [undefined]: [get] invents
    no value. *)
Theorem get_returns_member_or_default (E : enum_cls) (history : list member)
    (value : jsval) (dflt : option jsval) (r : jsval) :
  built E history →
  get E value dflt = Ok r →
  (r = value ∧ has E value = true)
  ∨ (∃ m, r = JMember m ∧ m ∈ e_list E)
  ∨ (dflt = Some r ∧ r ≠ JUndefined ∧ has E value = false).
Proof.
  intros Hbuilt Hget.
  pose proof (built_consistent _ _ Hbuilt) as (_ & Hvalues & _ & Hreverse).
  unfold get in Hget.
  destruct (has E value) eqn:Hhas; [left; by simplify_eq|].
  right.
  assert (Hby_name : ∀ s res,
    (res' ← property E (Js.toUpperCase s);
     Ok (if truthy res' then Some res' else None)) = Ok (Some res) →
    ∃ m, res = JMember m ∧ m ∈ e_list E).
  { intros s res. rewrite property_toUpperCase. simpl.
    destruct (e_values E !! Js.toUpperCase s) as [m|] eqn:Hm; simpl; [|done].
    intros [= <-]. exists m. split; [done|]. by apply Hvalues in Hm as [? ?]. }
  assert (Hrest : ∀ found,
    (∀ m, found = Some m → m ∈ e_list E) →
    match found with
    | Some m => Ok (JMember m)
    | None =>
        if bool_decide (default JUndefined dflt = JUndefined)
        then Throw (EnumNotValidKeyOrValue value (e_name E))
        else Ok (default JUndefined dflt)
    end = Ok r →
    (∃ m, r = JMember m ∧ m ∈ e_list E) ∨ (dflt = Some r ∧ r ≠ JUndefined ∧ false = false)).
  { intros [m|] Hfound.
    - intros [= <-]. left. eauto.
    - case_bool_decide as Hd; [done|]. intros [= <-]. right.
      destruct dflt as [d|]; simpl in *; [done|]. done. }
  assert (Hrev : ∀ rev v m, e_reverse E = Some rev → reverse_get rev v = Some m → m ∈ e_list E).
  { intros rev v m Hr. rewrite Hr in Hreverse. destruct v; simpl; try done.
    intros Hn. by apply Hreverse in Hn as [? ?]. }
  destruct value as [| |b|n|s|m|]; simpl in Hget.
  1-3,6-7: destruct (e_reverse E) as [rev|] eqn:Hr; [|done];
    by apply (Hrest None) in Hget.
  { destruct (e_reverse E) as [rev|] eqn:Hr; [|done].
    destruct (rev !! n) as [m'|] eqn:Hn.
    - apply (Hrest (Some m')) in Hget; [done|]. intros ? [= <-].
      by eapply (Hrev rev (JNum n)).
    - by apply (Hrest None) in Hget. }
  destruct (property E (Js.toUpperCase s)) as [res'|] eqn:Hprop; [|done].
  simpl in Hget.
  destruct (truthy res') eqn:Htruthy.
  - simplify_eq. left. apply (Hby_name s r). rewrite Hprop. simpl. by rewrite Htruthy.
  - destruct (e_reverse E) as [rev|] eqn:Hr; [|done].
    apply Hrest in Hget; [done|]. intros m' Hm'.
    destruct (Js.parseInt s) as [k|]; [|done].
    eapply (Hrev rev (JNum k)); done.
Qed.

Lemma get_returns_member_or_default_witness :
  built Log.VERBOSITY (created 1 Log.VERBOSITY_collection)
  ∧ get Log.VERBOSITY (JStr "verbose") (Some (JNum 7)) = Ok (JNum 7)
  ∧ ((JNum 7 = JStr "verbose" ∧ has Log.VERBOSITY (JStr "verbose") = true)
     ∨ (∃ m, JNum 7 = JMember m ∧ m ∈ e_list Log.VERBOSITY)
     ∨ (Some (JNum 7) = Some (JNum 7) ∧ JNum 7 ≠ JUndefined
        ∧ has Log.VERBOSITY (JStr "verbose") = false)).
Proof.
  assert (Hbuilt : built Log.VERBOSITY (created 1 Log.VERBOSITY_collection)).
  { eapply built_Enum. exact VERBOSITY_built. }
  assert (Hget : get Log.VERBOSITY (JStr "verbose") (Some (JNum 7)) = Ok (JNum 7)).
  { vm_compute. reflexivity. }
  split; [exact Hbuilt|]. split; [exact Hget|].
  exact (get_returns_member_or_default _ _ _ _ _ Hbuilt Hget).
Defined.

End EnumExtraTheorems.

Section EnumAcceptance.
Import Enums.



Lemma created_names (cls : nat) (c : collection) :
  m_name <$> created cls c = (entries_of c).*1.
Proof. unfold created. rewrite <- list_fmap_compose. done. Qed.




(** X3. An enumeration made with [freeze] (the default) is frozen, and
    every later [EnumValue] on it throws the error that the enumeration is
    frozen, whatever the name and the value.  One made without [freeze]
    takes a new value object under every upper-case class name it does not
    hold yet, and [get] then finds that object by its name. *)
Theorem frozen_enumeration_is_closed (cls : nat) (name : string) (c : collection)
    (freeze : bool) (E : enum_cls) :
  Enum cls name c freeze = Ok E →
  e_frozen E = freeze
  ∧ (freeze = true →
     ∀ n value sort, EnumValue E n value sort = Throw (EnumFrozen (name ++ "Enum")))
  ∧ (freeze = false →
     ∀ n sort,
       n = Js.toUpperCase n → names_a_class n = true → n ∉ (entries_of c).*1 →
       ∃ E', EnumValue E n None sort = Ok (E', Member cls n None)
             ∧ ∀ dflt, get E' (JStr n) dflt = Ok (JMember (Member cls n None))).
Proof.
  intros HE.
  pose proof (Enum_inv _ _ _ _ _ HE) as (Hcls & Hname & Hlist & Hvalues).
  assert (Hfrozen : e_frozen E = freeze).
  { unfold Enum in HE. destruct (add_values _ _); by simplify_eq/=. }
  split; [done|]. split.
  - intros -> n value sort. unfold EnumValue, cls_name. by rewrite Hfrozen, Hname.
  - intros -> n sort Hup Hclass Hfresh.
    destruct (EnumValue_accepts E n None sort) as [E' HE']; try done.
    { destruct (e_values E !! n) as [m|] eqn:Hn; [|done].
      pose proof (Enum_consistent _ _ _ _ _ HE) as (_ & Hcons & _).
      apply Hcons in Hn as [Hin Hmn]. exfalso. apply Hfresh.
      rewrite <- (created_names cls), <- Hmn. apply list_elem_of_fmap_2.
      by rewrite Hlist, array_sort_perm in Hin. }
    rewrite Hcls in HE'. exists E'. split; [done|].
    intros dflt. eapply get_by_name.
    + eapply built_EnumValue; [by eapply built_Enum|done].
    + apply EnumValue_inv in HE' as (_ & _ & _ & _ & ->).
      destruct sort; [rewrite array_sort_perm|]; apply elem_of_app; right; left.
    + by rewrite <- Hup.
Qed.

Lemma frozen_enumeration_is_closed_witness :
  Enum 0 "PackageType" (Names ["UNKNOWN"; "MODULE"; "SYSTEM"; "WORLD"]) true
  = Ok Pkg.PACKAGE_TYPES
  ∧ EnumValue Pkg.PACKAGE_TYPES "MACRO" None true = Throw (EnumFrozen "PackageTypeEnum").
Proof.
  split; [exact PACKAGE_TYPES_built|].
  destruct (frozen_enumeration_is_closed _ _ _ _ _ PACKAGE_TYPES_built) as (_ & Hclosed & _).
  exact (Hclosed eq_refl "MACRO" None true).
Defined.

End EnumAcceptance.

Section StringAppend.

Lemma append_nil_r (s : string) : s ++ "" = s.
Proof. induction s as [|c s IH]; [done|]. change (String c (s ++ "") = String c s). by rewrite IH. Qed.

Lemma append_assoc (a b c : string) : (a ++ b) ++ c = a ++ (b ++ c).
Proof.
  induction a as [|x a IH]; [done|].
  change (String x ((a ++ b) ++ c) = String x (a ++ (b ++ c))). by rewrite IH.
Qed.

Lemma length_append (a b : string) :
  String.length (a ++ b) = (String.length a + String.length b)%nat.
Proof.
  induction a as [|x a IH]; [done|].
  change (S (String.length (a ++ b)) = S (String.length a + String.length b)). by rewrite IH.
Qed.



Lemma every_append (ok : ascii → bool) (a b : string) :
  Js.every ok (a ++ b) = Js.every ok a && Js.every ok b.
Proof.
  induction a as [|x a IH]; [done|].
  change (ok x && Js.every ok (a ++ b) = ok x && Js.every ok a && Js.every ok b).
  rewrite IH. by destruct (ok x).
Qed.

End StringAppend.

Section RegexRuns.
Import Regex.

Lemma consume_nil (x : cursor) : consume x "" (rest x) = x.
Proof. by destruct x. Qed.

Lemma consume_consume (x : cursor) (a b mid tail : string) :
  consume (consume x a mid) b tail = consume x (a ++ b) tail.
Proof.
  unfold consume. simpl. f_equal.
  - rewrite length_append. lia.
  - generalize (before x). induction a as [|c a IH]; intros o; [done|].
    change (last_unit (last_unit (Some c) a) b = last_unit (Some c) (a ++ b)). apply IH.
Qed.


Lemma step_consume (ok : ascii → bool) (x : cursor) (caps : captures) (k : continuation)
    (c : ascii) (tail : string) :
  rest x = String c tail → ok c = true →
  step ok x caps k = k (consume x (String c "") tail) caps.
Proof. intros Hrest Hok. unfold step, advance. rewrite Hrest, Hok. done. Qed.

Lemma step_fails (ok : ascii → bool) (x : cursor) (caps : captures) (k : continuation) :
  Js.starts_with ok (rest x) = false → step ok x caps k = None.
Proof.
  unfold step, advance. destruct (rest x) as [|c s]; [done|]. simpl. by intros ->.
Qed.

(** Greedy iteration over a run of code units that pass [ok], up to the
    first one that does not: when the continuation succeeds there, that
    is the result. *)
Lemma iterate_greedy_run (ok : ascii → bool) (k : continuation) (run : string) :
  ∀ (fuel : nat) (x : cursor) (caps : captures) (tail : string) (res : cursor * captures),
    rest x = run ++ tail →
    Js.every ok run = true →
    Js.starts_with ok tail = false →
    (String.length (rest x) ≤ fuel)%nat →
    k (consume x run tail) caps = Some res →
    iterate (step ok) true k fuel x caps = Some res.
Proof.
  induction run as [|c run IH]; intros fuel x caps tail res Hrest Hrun Htail Hfuel Hk.
  - change ("" ++ tail) with tail in Hrest. subst tail. rewrite consume_nil in Hk.
    destruct fuel as [|fuel]; [done|]. simpl.
    by rewrite (step_fails ok x caps _ Htail).
  - change (String c run ++ tail) with (String c (run ++ tail)) in Hrest.
    simpl in Hrun. apply andb_true_iff in Hrun as [Hc Hrun].
    rewrite Hrest in Hfuel. simpl in Hfuel.
    destruct fuel as [|fuel]; [lia|]. simpl.
    rewrite (step_consume ok x caps _ c (run ++ tail) Hrest Hc).
    assert (Hpos : (pos (consume x (String c "") (run ++ tail)) =? pos x)%nat = false).
    { apply Nat.eqb_neq. unfold consume. simpl. lia. }
    rewrite Hpos.
    rewrite (IH fuel _ caps tail res); [done|done|done|done|simpl; lia|].
    by rewrite consume_consume.
Qed.



End RegexRuns.

Section RegexSequences.
Import Regex.

Lemma rmatch_seq_bol (fl : flags) (r : regex) (x : cursor) (caps : captures)
    (k : continuation) :
  before x = None →
  rmatch fl (Seq Bol r) x caps k = rmatch fl r x caps k.
Proof. intros Hx. cbn [rmatch]. unfold at_bol. by rewrite Hx. Qed.





Lemma rmatch_eol_end (fl : flags) (x : cursor) (caps : captures) (k : continuation) :
  rest x = "" → rmatch fl Eol x caps k = k x caps.
Proof. intros Hrest. cbn [rmatch]. unfold at_eol. by rewrite Hrest. Qed.

End RegexSequences.

Section VersionPattern.
Import Regex Version.

Lemma digit_class (c : ascii) :
  class_matches VERSION_FLAGS [("0", "9")%char] c = Js.is_digit c.
Proof. destruct c as [[] [] [] [] [] [] [] []]; reflexivity. Qed.


Lemma starts_with_digit_class (s : string) :
  Js.starts_with (class_matches VERSION_FLAGS [("0", "9")%char]) s
  = Js.starts_with Js.is_digit s.
Proof. destruct s; [done|]. apply digit_class. Qed.


End VersionPattern.

Section Numerals.





End Numerals.

Section PrettyNumerals.




End PrettyNumerals.

Section VersionExtraTheorems.
Import Regex Version.





End VersionExtraTheorems.

Section VersionFailureTheorems.
Import Regex Version.

Lemma version_pattern_needs_digit (version : string) :
  Js.starts_with Js.is_digit version = false →
  match_ VERSION_FLAGS VERSION_REGEX version = None.
Proof.
  intros Hstart. unfold VERSION_REGEX. rewrite match_anchored by done.
  rewrite rmatch_seq_bol by done. unfold digit. cbn [rmatch Plus].
  rewrite step_fails; [done|]. simpl. by rewrite starts_with_digit_class.
Qed.

(** X8. A version string that does not start with a digit is not
    parsed.  [_parse_manifest_version] then fails with a [ReferenceError]
    for [version_str], a name it does not declare, instead of the message
    it builds; [parse_manifest_version] of the first snapshot leaves
    [VERSION] as it was; the one of the second snapshot leaves the version
    numbers as they were but has by then overwritten the git hash. *)
Theorem parse_manifest_version_unparsable (version : string) :
  Js.starts_with Js.is_digit version = false →
  (∀ git_hash,
      _parse_manifest_version (Some version) git_hash = Throw (ReferenceError "version_str"))
  ∧ (∀ PACKAGE_ID env manifest V,
        package_manifest PACKAGE_ID env = Ok manifest →
        Host.version manifest = Some version →
        parse_manifest_version PACKAGE_ID env V = V)
  ∧ (∀ PACKAGE_ID env manifest vars,
        Vars.VERSION_KNOWN vars = false →
        package_manifest PACKAGE_ID env = Ok manifest →
        Host.version manifest = Some version →
        let vars' := Vars.parse_manifest_version PACKAGE_ID env vars in
        Vars.VERSION_KNOWN vars' = false
        ∧ Vars.VERSION vars' = Vars.VERSION vars
        ∧ Vars.MAJOR_VERSION vars' = Vars.MAJOR_VERSION vars
        ∧ Vars.MINOR_VERSION vars' = Vars.MINOR_VERSION vars
        ∧ Vars.PATCH_VERSION vars' = Vars.PATCH_VERSION vars
        ∧ Vars.SUFFIX_VERSION vars' = Vars.SUFFIX_VERSION vars
        ∧ Vars.VERSION_WITH_GIT vars' = Vars.VERSION_WITH_GIT vars
        ∧ Vars.GIT_VERSION vars' = default "unknown" (Host.flags_git_version manifest)
        ∧ Vars.GIT_VERSION_SHORT vars' = shorten (Vars.GIT_VERSION vars')).
Proof.
  intros Hstart. pose proof (version_pattern_needs_digit version Hstart) as Hnone.
  split; [|split].
  - intros git_hash. unfold _parse_manifest_version. simpl. by rewrite Hnone.
  - intros PACKAGE_ID env manifest V Hmanifest Hversion.
    unfold parse_manifest_version. destruct (known V); [done|].
    rewrite Hmanifest. simpl. unfold version_string. rewrite Hversion.
    destruct (Js.truthy_string version); [|done]. simpl.
    unfold _parse_manifest_version. simpl. by rewrite Hnone.
  - intros PACKAGE_ID env manifest vars Hknown Hmanifest Hversion vars'. subst vars'.
    unfold Vars.parse_manifest_version. rewrite Hknown, Hmanifest.
    unfold version_string. rewrite Hversion.
    destruct (Js.truthy_string version); simpl; [rewrite Hnone|]; simpl; done.
Qed.

Lemma parse_manifest_version_unparsable_witness :
  Js.starts_with Js.is_digit "v1.2.3.4" = false
  ∧ _parse_manifest_version (Some "v1.2.3.4") None = Throw (ReferenceError "version_str").
Proof.
  split; [reflexivity|].
  exact (proj1 (parse_manifest_version_unparsable "v1.2.3.4" eq_refl) None).
Defined.

(** X9. [parse_manifest_version] run a second time on the same host
    changes nothing; it changes nothing at all once the version is known;
    and when it leaves the version unknown it has not changed the version
    (the first snapshot: the whole of [VERSION]). *)
Theorem parse_manifest_version_idempotent (PACKAGE_ID : string) (env : Host.Env) :
  (∀ V, let V' := parse_manifest_version PACKAGE_ID env V in
        parse_manifest_version PACKAGE_ID env V' = V'
        ∧ (known V = true → V' = V)
        ∧ (known V' = false → V' = V))
  ∧ (∀ vars, let vars' := Vars.parse_manifest_version PACKAGE_ID env vars in
        Vars.parse_manifest_version PACKAGE_ID env vars' = vars'
        ∧ (Vars.VERSION_KNOWN vars = true → vars' = vars)
        ∧ (Vars.VERSION_KNOWN vars' = false →
           Vars.VERSION_KNOWN vars = false ∧ Vars.VERSION vars' = Vars.VERSION vars)).
Proof.
  split.
  - intros V V'. subst V'. unfold parse_manifest_version.
    destruct (known V) eqn:Hknown; [by rewrite Hknown|].
    destruct (package_manifest PACKAGE_ID env) as [manifest|e] eqn:Hmanifest; simpl.
    2:{ by rewrite ?Hknown. }
    destruct (version_string manifest) as [version_str|e] eqn:Hstr; simpl.
    2:{ by rewrite ?Hknown. }
    unfold _parse_manifest_version. simpl.
    destruct (match_ VERSION_FLAGS VERSION_REGEX version_str) eqn:Hm; simpl.
    + done.
    + by rewrite ?Hknown.
  - intros vars vars'. subst vars'. unfold Vars.parse_manifest_version.
    destruct (Vars.VERSION_KNOWN vars) eqn:Hknown; [by rewrite Hknown|].
    destruct (package_manifest PACKAGE_ID env) as [manifest|e] eqn:Hmanifest; simpl.
    2:{ by rewrite ?Hknown. }
    destruct (version_string manifest) as [version_str|e] eqn:Hstr; simpl.
    2:{ done. }
    destruct (match_ VERSION_FLAGS VERSION_REGEX version_str) eqn:Hm; simpl.
    + done.
    + done.
Qed.

(** X10. [version_at_least(major, minor, patch, suffix)] follows the
    order of versions: it is true when (major, minor, patch) comes before
    the current version in the lexicographic order and false when it comes
    after it, whatever the suffix, in both snapshots. *)
Theorem version_at_least_orders_triples :
  (∀ V major_ minor_ patch_ suffix_,
      (major_ < major V
       ∨ (major_ = major V
          ∧ (minor_ < minor V ∨ (minor_ = minor V ∧ patch_ < patch V)))) →
      version_at_least V major_ (Some minor_) (Some patch_) suffix_ = true)
  ∧ (∀ V major_ minor_ patch_ suffix_,
      (major V < major_
       ∨ (major V = major_
          ∧ (minor V < minor_ ∨ (minor V = minor_ ∧ patch V < patch_)))) →
      version_at_least V major_ (Some minor_) (Some patch_) suffix_ = false)
  ∧ (∀ vars major_ minor_ patch_ suffix_,
      (major_ < Vars.MAJOR_VERSION vars
       ∨ (major_ = Vars.MAJOR_VERSION vars
          ∧ (minor_ < Vars.MINOR_VERSION vars
             ∨ (minor_ = Vars.MINOR_VERSION vars ∧ patch_ < Vars.PATCH_VERSION vars)))) →
      Vars.version_at_least vars major_ (Some minor_) (Some patch_) suffix_ = true)
  ∧ (∀ vars major_ minor_ patch_ suffix_,
      (Vars.MAJOR_VERSION vars < major_
       ∨ (Vars.MAJOR_VERSION vars = major_
          ∧ (Vars.MINOR_VERSION vars < minor_
             ∨ (Vars.MINOR_VERSION vars = minor_ ∧ Vars.PATCH_VERSION vars < patch_)))) →
      Vars.version_at_least vars major_ (Some minor_) (Some patch_) suffix_ = false).
Proof.
  unfold version_at_least, Vars.version_at_least, loosely_equal.
  repeat split; intros ? ? ? ? ? Horder; simpl.
  all: repeat match goal with
       | |- context [?a =? ?b] => destruct (Z.eqb_spec a b)
       | |- context [?a >? ?b] => destruct (Z.gtb_spec a b)
       | |- context [?a >=? ?b] => destruct (Z.geb_spec a b)
       end; try done; lia.
Qed.

Lemma version_at_least_orders_triples_witness :
  (1 < Version.Vars.MAJOR_VERSION Version.Vars.initial
   ∨ (1 = Version.Vars.MAJOR_VERSION Version.Vars.initial
      ∧ (4 < Version.Vars.MINOR_VERSION Version.Vars.initial
         ∨ (4 = Version.Vars.MINOR_VERSION Version.Vars.initial
            ∧ 0 < Version.Vars.PATCH_VERSION Version.Vars.initial))))
  ∧ Version.Vars.version_at_least Version.Vars.initial 1 (Some 4) (Some 0) None = true.
Proof.
  assert (H : 1 < Version.Vars.MAJOR_VERSION Version.Vars.initial
   ∨ (1 = Version.Vars.MAJOR_VERSION Version.Vars.initial
      ∧ (4 < Version.Vars.MINOR_VERSION Version.Vars.initial
         ∨ (4 = Version.Vars.MINOR_VERSION Version.Vars.initial
            ∧ 0 < Version.Vars.PATCH_VERSION Version.Vars.initial)))).
  { right. split; [reflexivity|]. left. reflexivity. }
  split; [exact H|].
  destruct version_at_least_orders_triples as (_ & _ & Hvars & _).
  exact (Hvars Version.Vars.initial 1 4 0 None H).
Defined.

End VersionFailureTheorems.

Section PackageIdTheorems.
Import Regex Pkg.

Lemma every_Forall (ok : ascii → bool) (s : string) :
  Js.every ok s = true ↔ Forall (λ c, ok c = true) (list_ascii_of_string s).
Proof.
  induction s as [|c s IH]; simpl.
  - split; [constructor|done].
  - rewrite andb_true_iff, Forall_cons, IH. done.
Qed.

Lemma id_char_cases (c : ascii) :
  id_char c
  = Js.is_lower c || Js.is_upper c || Js.is_digit c
    || bool_decide (c = "_"%char) || bool_decide (c = "-"%char).
Proof. destruct c as [[] [] [] [] [] [] [] []]; reflexivity. Qed.

Lemma rmatch_seq_plus (fl : flags) (ranges : list (ascii * ascii))
    (r : regex) (x : cursor) (caps : captures) (k : continuation) (run tail : string)
    (res : cursor * captures) :
  rest x = run ++ tail →
  Js.truthy_string run = true →
  Js.every (class_matches fl ranges) run = true →
  Js.starts_with (class_matches fl ranges) tail = false →
  rmatch fl r (consume x run tail) caps k = Some res →
  rmatch fl (Seq (Plus true (Class ranges)) r) x caps k = Some res.
Proof.
  intros Hrest Hne Hrun Htail Hk.
  destruct run as [|c run]; [done|].
  change (String c run ++ tail) with (String c (run ++ tail)) in Hrest.
  simpl in Hrun. apply andb_true_iff in Hrun as [Hc Hrun].
  cbn [rmatch Plus].
  rewrite (step_consume _ x caps _ c (run ++ tail) Hrest Hc).
  change (rmatch fl (Class ranges)) with (step (class_matches fl ranges)).
  eapply iterate_greedy_run; [reflexivity|exact Hrun|exact Htail|done|].
  rewrite consume_consume. exact Hk.
Qed.

(** X11. [is_valid_id] accepts exactly the strings that are not empty
    and are made of letters, digits, underscores and hyphens. *)
Theorem is_valid_id_iff (id : string) :
  is_valid_id id = true
  ↔ id ≠ ""
    ∧ Js.every (λ c, Js.is_lower c || Js.is_upper c || Js.is_digit c
                     || bool_decide (c = "_"%char) || bool_decide (c = "-"%char)) id
      = true.
Proof.
  split.
  - intros H. split.
    + intros ->. done.
    + apply every_Forall. apply is_valid_id_chars in H.
      eapply Forall_impl; [exact H|]. intros c Hc. simpl. by rewrite <- id_char_cases.
  - intros [Hne Hchars].
    assert (Hid : Js.every id_char id = true).
    { apply every_Forall. apply every_Forall in Hchars.
      eapply Forall_impl; [exact Hchars|]. intros c Hc. simpl in Hc.
      by rewrite id_char_cases. }
    unfold is_valid_id, test.
    assert (Htruthy : Js.truthy_string id = true) by (by destruct id).
    rewrite Htruthy. simpl. apply bool_decide_eq_true.
    unfold PACKAGE_ID_REGEX. rewrite match_anchored by reflexivity.
    rewrite rmatch_seq_bol by done.
    rewrite (rmatch_seq_plus _ _ _ _ _ _ id "" (consume (start_of id) id "", ∅)); [done|..].
    + simpl. by rewrite append_nil_r.
    + done.
    + exact Hid.
    + done.
    + by rewrite rmatch_eol_end.
Qed.

End PackageIdTheorems.

Section KeyParsingTheorems.
Import Enums Regex Pkg.
Variable PACKAGE_ID : string.

Lemma PACKAGE_TYPES_consistent : consistent PACKAGE_TYPES.
Proof. eapply Enum_consistent. exact PACKAGE_TYPES_built. Qed.

Lemma PACKAGE_TYPES_lookup (n : string) (m : member) :
  e_values PACKAGE_TYPES !! n = Some m ↔ is_type m ∧ m_name m = n.
Proof. destruct PACKAGE_TYPES_consistent as (_ & Hvalues & _). apply Hvalues. Qed.

(** [get] of a string in an enumeration without a reverse map: the
    member it names, in any case, or a [TypeError]. *)
Lemma get_without_reverse (E : enum_cls) (t : string) (dflt : option jsval) :
  e_reverse E = None →
  get E (JStr t) dflt
  = match e_values E !! Js.toUpperCase t with
    | Some m => Ok (JMember m)
    | None => Throw TypeError
    end.
Proof.
  intros Hrev. unfold get. simpl. rewrite property_toUpperCase, Hrev.
  destruct (e_values E !! Js.toUpperCase t); reflexivity.
Qed.

Lemma get_package_type (t : string) (dflt : option jsval) :
  get PACKAGE_TYPES (JStr t) dflt
  = match e_values PACKAGE_TYPES !! Js.toUpperCase t with
    | Some m => Ok (JMember m)
    | None => Throw TypeError
    end.
Proof. by apply get_without_reverse. Qed.

Lemma split_nonempty (sep : ascii) (s : string) : Js.split sep s ≠ [].
Proof.
  destruct s as [|c s]; simpl; [done|].
  destruct (Ascii.eqb c sep); [done|]. by destruct (Js.split sep s).
Qed.

Lemma split_key_not_valid (key t name : string) :
  Js.split KEY_SEPARATOR key = [t; name] →
  Js.truthy_string key = true ∧ key ≠ UNKNOWN_ID ∧ is_valid_id key = false.
Proof.
  intros Hsplit. split; [by destruct key|]. split.
  - intros ->. vm_compute in Hsplit. discriminate.
  - destruct (is_valid_id key) eqn:Hvalid; [|done].
    apply is_valid_id_no_separator, split_without_sep in Hvalid. congruence.
Qed.

(** X12. How the first snapshot reads a key.  A string that does not
    split in two at the separator is no key: [parse_key] returns two
    nulls, [is_valid_key] is false and [is_valid_key_or_id] says whether
    the string is a valid id.  One that splits into a package type, in any
    case, and a name is a key exactly when the name is a valid id.  One
    that splits in two with something else before the separator makes
    [parse_key], [is_valid_key], [is_valid_key_or_id] and the constructor
    fail with a [TypeError], as the enumeration of package types has no
    reverse map to look the string up in. *)
Theorem is_valid_key_cases (key : string) :
  (length (Js.split KEY_SEPARATOR key) ≠ 2%nat →
   Snapshot1.parse_key key = Ok (JNull, JNull)
   ∧ Snapshot1.is_valid_key (JStr key) = Ok false
   ∧ Snapshot1.is_valid_key_or_id (JStr key) = Ok (is_valid_id key))
  ∧ (∀ t name m,
       Js.split KEY_SEPARATOR key = [t; name] →
       is_type m → Js.toUpperCase t = m_name m →
       Snapshot1.parse_key key = Ok (JStr name, JMember m)
       ∧ Snapshot1.is_valid_key (JStr key) = Ok (is_valid_id name)
       ∧ Snapshot1.is_valid_key_or_id (JStr key) = Ok (is_valid_id name))
  ∧ (∀ t name,
       Js.split KEY_SEPARATOR key = [t; name] →
       (∀ m, is_type m → Js.toUpperCase t ≠ m_name m) →
       Snapshot1.parse_key key = Throw TypeError
       ∧ Snapshot1.is_valid_key (JStr key) = Throw TypeError
       ∧ Snapshot1.is_valid_key_or_id (JStr key) = Throw TypeError
       ∧ ∀ depth env,
           Snapshot1.new PACKAGE_ID (S (S depth)) env (JStr key) JNull = Throw TypeError).
Proof.
  split; [|split].
  - intros Hlen.
    assert (Hparse : Snapshot1.parse_key key = Ok (JNull, JNull)).
    { unfold Snapshot1.parse_key.
      destruct (Js.split KEY_SEPARATOR key) as [|a [|b [|c l]]]; done. }
    split; [done|].
    assert (Hkey : Snapshot1.is_valid_key (JStr key) = Ok false).
    { unfold Snapshot1.is_valid_key. destruct (Js.truthy_string key); [|done].
      simpl. by rewrite Hparse. }
    split; [done|]. unfold Snapshot1.is_valid_key_or_id. by rewrite Hkey.
  - intros t name m Hsplit Hm Ht.
    destruct (split_key_not_valid _ _ _ Hsplit) as (Htruthy & _ & Hinvalid).
    assert (Hparse : Snapshot1.parse_key key = Ok (JStr name, JMember m)).
    { unfold Snapshot1.parse_key. rewrite Hsplit, get_package_type.
      by rewrite (proj2 (PACKAGE_TYPES_lookup _ m) (conj Hm (eq_sym Ht))). }
    split; [done|].
    assert (Hkey : Snapshot1.is_valid_key (JStr key) = Ok (is_valid_id name)).
    { unfold Snapshot1.is_valid_key. rewrite Htruthy. simpl. rewrite Hparse. simpl.
      destruct (Js.truthy_string name) eqn:Hname; simpl; [done|].
      unfold is_valid_id. by rewrite Hname. }
    split; [done|]. unfold Snapshot1.is_valid_key_or_id. rewrite Hkey. simpl.
    rewrite Hinvalid. by destruct (is_valid_id name).
  - intros t name Hsplit Hnone.
    destruct (split_key_not_valid _ _ _ Hsplit) as (Htruthy & Hknown & _).
    assert (Hparse : Snapshot1.parse_key key = Throw TypeError).
    { unfold Snapshot1.parse_key. rewrite Hsplit, get_package_type.
      destruct (e_values PACKAGE_TYPES !! Js.toUpperCase t) as [m|] eqn:Hm; [|done].
      apply PACKAGE_TYPES_lookup in Hm as [Hm Hname]. by destruct (Hnone m Hm). }
    split; [done|].
    assert (Hkey : Snapshot1.is_valid_key (JStr key) = Throw TypeError).
    { unfold Snapshot1.is_valid_key. rewrite Htruthy. simpl. by rewrite Hparse. }
    split; [done|]. split.
    { unfold Snapshot1.is_valid_key_or_id. by rewrite Hkey. }
    intros depth env. unfold Snapshot1.new.
    remember (S depth) as depth' eqn:Hdepth.
    cbn [Snapshot1.set truthy]. rewrite Htruthy. cbn [negb].
    rewrite bool_decide_eq_false_2 by done.
    rewrite (bool_decide_eq_true_2 (JNull = JNull)) by done.
    unfold Snapshot1.from_key_with. by rewrite Hparse.
Qed.

End KeyParsingTheorems.

Lemma is_valid_key_cases_witness :
  Js.split Pkg.KEY_SEPARATOR "macro:dice" = ["macro"; "dice"]
  ∧ (∀ m, Pkg.is_type m → Js.toUpperCase "macro" ≠ m_name m)
  ∧ Snapshot1.is_valid_key (JStr "macro:dice") = Throw TypeError
  ∧ Snapshot1.new "lib-wrapper" 2 Examples.no_game (JStr "macro:dice") JNull
    = Throw TypeError.
Proof.
  assert (Hsplit : Js.split Pkg.KEY_SEPARATOR "macro:dice" = ["macro"; "dice"]) by reflexivity.
  assert (Hnone : ∀ m, Pkg.is_type m → Js.toUpperCase "macro" ≠ m_name m).
  { intros m Hm. unfold Pkg.is_type in Hm. rewrite (proj1 PACKAGE_TYPES_values) in Hm.
    repeat (apply elem_of_cons in Hm as [->|Hm]; [discriminate|]).
    by apply elem_of_nil in Hm. }
  split; [exact Hsplit|]. split; [exact Hnone|].
  destruct (is_valid_key_cases "lib-wrapper" "macro:dice") as (_ & _ & Hcase).
  destruct (Hcase "macro" "dice" Hsplit Hnone) as (_ & Hkey & _ & Hnew).
  split; [exact Hkey|]. exact (Hnew 0%nat Examples.no_game).
Defined.

Section InstanceFacts.
Import Enums Regex Pkg.
Variable PACKAGE_ID : string.

Lemma is_type_cases (t : member) :
  is_type t ↔ t = UNKNOWN ∨ t = MODULE ∨ t = SYSTEM ∨ t = WORLD.
Proof.
  unfold is_type. rewrite (proj1 PACKAGE_TYPES_values).
  rewrite !elem_of_cons, elem_of_nil. tauto.
Qed.

Lemma is_kind_is_type (t : member) : is_kind t → is_type t.
Proof. rewrite is_type_cases. unfold is_kind. tauto. Qed.

Lemma detect_type_is_type (env : Host.Env) (name : string) :
  is_type (detect_type PACKAGE_ID env name).
Proof.
  rewrite is_type_cases. unfold detect_type.
  repeat case_match; naive_solver.
Qed.

(** What [classify] keeps: the identifier matched, under one of the three
    kinds; a module only when it is not ignored and, if there is a
    registry, is in it. *)
Lemma classify_Some env ignore type_ name match_id match_type :
  classify env ignore type_ name = Ok (Some (match_id, match_type)) →
  match_id = name
  ∧ Js.truthy_string name = true
  ∧ is_kind match_type
  ∧ (type_ = "worlds" ∧ match_type = WORLD
     ∨ type_ = "systems" ∧ match_type = SYSTEM
     ∨ type_ = "modules" ∧ match_type = MODULE)
  ∧ (match_type = MODULE →
     ignored ignore name = false
     ∧ ∀ modules, Host.game_modules env = Some modules → is_Some (modules !! name)).
Proof.
  unfold classify, is_kind. intros Hc.
  destruct (Js.truthy_string type_); [|done].
  destruct (Js.truthy_string name); [|done]. simpl in Hc.
  case_bool_decide as Hworlds.
  { destruct (_ && _); simplify_eq. naive_solver. }
  case_bool_decide as Hsystems.
  { destruct (_ && _); simplify_eq. naive_solver. }
  case_bool_decide as Hmodules; [|done].
  destruct (Host.game_modules env) as [modules|] eqn:Hregistry.
  - case_bool_decide as Hin; [|done]. simpl in Hc.
    destruct (ignored ignore name) eqn:Hignored; simplify_eq.
    repeat split; eauto. by intros ? [= <-].
  - destruct (ignored ignore name) eqn:Hignored; simplify_eq.
    repeat split; eauto. by intros ? [=].
Qed.

(** An invariant of the state through the loop over the matches. *)
Lemma for_each_match_inv {S : Type} (P : S → Prop)
    (matchFn : string → member → string → S → result (S * bool))
    env ignore matches (s s' : S) (b : bool) :
  P s →
  (∀ m id type s0 s1 b',
      m ∈ matches →
      classify env ignore (root_and_id m).1 (root_and_id m).2 = Ok (Some (id, type)) →
      P s0 →
      matchFn id type (default "" (group 0 m)) s0 = Ok (s1, b') → P s1) →
  for_each_match matchFn env ignore matches s = Ok (s', b) →
  P s'.
Proof.
  revert s. induction matches as [|m matches IH]; intros s Hs Hstep; simpl.
  - by intros [= <- <-].
  - change (default "" (group 1 m)) with (root_and_id m).1.
    change (default "" (group 2 m)) with (root_and_id m).2.
    destruct (classify _ _ _ _) as [[[match_id match_type]|]|e] eqn:Hclassify; simpl.
    + destruct (matchFn _ _ _ _) as [[s1 matchRes]|e] eqn:Hcall; simpl; [|done].
      assert (P s1) as Hs1 by (eapply Hstep; [by left|done..]).
      destruct matchRes.
      * apply IH; [done|]. intros m' ? ? ? ? ? Hm'. apply Hstep. by right.
      * by intros [= <- <-].
    + apply IH; [done|]. intros m' ? ? ? ? ? Hm'. apply Hstep. by right.
    + done.
Qed.

Lemma parse_key_type (key : string) (id type : jsval) :
  Snapshot1.parse_key key = Ok (id, type) →
  type = JNull ∨ ∃ m, type = JMember m ∧ is_type m.
Proof.
  unfold Snapshot1.parse_key.
  destruct (Js.split KEY_SEPARATOR key) as [|t [|name [|? ?]]]; try (intros [= <- <-]; by left).
  rewrite get_package_type.
  destruct (e_values PACKAGE_TYPES !! Js.toUpperCase t) as [m|] eqn:Hm; [|done].
  simpl. intros [= <- <-]. right. exists m. split; [done|].
  by apply PACKAGE_TYPES_lookup in Hm as [? _].
Qed.

(** Every instance that [set] leaves behind is well formed. *)
Lemma set_well_formed (depth : nat) :
  ∀ env id type freeze p,
    (∀ m, type = JMember m → m_cls m = 0%nat → is_type m) →
    Snapshot1.set PACKAGE_ID depth env id type freeze = Ok p →
    well_formed p.
Proof.
  induction depth as [|depth IH]; intros env id type freeze p Htype; [done|].
  cbn [Snapshot1.set].
  destruct (truthy id) eqn:Hid; cbn [negb].
  - destruct id as [| | | |s| |]; try done.
    case_bool_decide as Hunknown; [intros [= <-]; by left|].
    set (type' := match type with JUndefined => JNull | _ => type end).
    assert (Htype' : ∀ m, type' = JMember m → m_cls m = 0%nat → is_type m).
    { intros m Hm. apply Htype. subst type'. by destruct type. }
    clearbody type'.
    destruct (bool_decide (type' = JNull)) eqn:Hnull.
    + apply bool_decide_eq_true in Hnull. subst type'.
      unfold Snapshot1.from_key_with.
      destruct (Snapshot1.parse_key s) as [[id1 type1]|e] eqn:Hparse; [|done].
      cbn [mbind result_bind].
      destruct (negb (truthy id1) || negb (truthy type1)) eqn:Hfalsy.
      * cbn [mbind result_bind].
        destruct (is_valid_id s) eqn:Hvalid; [|done]. simpl. intros [= <-].
        right. split; [done|]. apply detect_type_is_type.
      * destruct (Snapshot1.set PACKAGE_ID depth env id1 type1 true) as [this|e] eqn:Hset;
          [|done].
        cbn [mbind result_bind]. intros [= <-].
        eapply IH; [|exact Hset].
        apply parse_key_type in Hparse as [->|(m & -> & Hm)]; [done|].
        by intros ? [= <-] _.
    + cbn [mbind result_bind].
      destruct (is_valid_id s) eqn:Hvalid; [|done]. simpl.
      destruct type' as [| | | | |m|]; try done.
      clear Hnull. unfold has. case_bool_decide as Hcls; [|done]. intros [= <-].
      right. split; [done|]. by apply Htype'.
  - unfold Snapshot1.detect_id_with, Snapshot1.foreach_package_in_stack_trace.
    cbn [mbind result_bind].
    destruct (Host.captured_stack env) as [text|]; [|intros [= <-]; by left].
    destruct (negb (Js.truthy_string text)); [intros [= <-]; by left|].
    destruct (for_each_match _ _ _ _ _) as [[s' b]|e] eqn:Hloop; [|done].
    cbn [mbind result_bind fst]. intros [= <-].
    eapply (for_each_match_inv well_formed); [| |exact Hloop]; [by left|].
    intros m name t s0 s1 b' _ Hclassify _ Hcall. cbv beta in Hcall.
    destruct (Snapshot1.set PACKAGE_ID depth env (JStr name) (JMember t) true)
      as [this|e] eqn:Hset; cbn [mbind result_bind] in Hcall; [|done].
    injection Hcall as <- <-.
    eapply IH; [|exact Hset]. intros ? [= <-] _.
    apply classify_Some in Hclassify as (_ & _ & Hkind & _). by apply is_kind_is_type.
Qed.

Lemma parse_key_of_type (name : string) (t : member) :
  is_valid_id name = true → is_type t →
  Snapshot1.parse_key (key_of (name, t)) = Ok (JStr name, JMember t).
Proof.
  intros Hvalid Ht. apply is_valid_id_no_separator in Hvalid.
  unfold Snapshot1.parse_key, key_of. simpl fst. simpl snd.
  apply is_type_cases in Ht as [-> | [-> | [-> | -> ] ] ].
  all: rewrite split_two; [reflexivity|repeat constructor; discriminate|done].
Qed.

Lemma set_with_any_type (depth : nat) (env : Host.Env) (name : string) (t : member)
    (freeze : bool) :
  is_valid_id name = true → is_type t →
  Snapshot1.set PACKAGE_ID (S depth) env (JStr name) (JMember t) freeze
  = Ok {| id := name; type := t; is_frozen := freeze |}.
Proof.
  intros Hvalid Ht. destruct (is_valid_id_truthy name Hvalid) as [Htruthy Hknown].
  cbn [Snapshot1.set truthy]. rewrite Htruthy. cbn [negb].
  rewrite bool_decide_eq_false_2 by done.
  rewrite (bool_decide_eq_false_2 (JMember t = JNull)) by done.
  cbn [mbind result_bind]. rewrite Hvalid. cbn [negb].
  apply is_type_cases in Ht as [-> | [-> | [-> | -> ] ] ]; reflexivity.
Qed.

Lemma new_of_any_key (depth : nat) (env : Host.Env) (name : string) (t : member) :
  is_valid_id name = true → is_type t →
  Snapshot1.new PACKAGE_ID (S (S depth)) env (JStr (key_of (name, t))) JNull
  = Ok (info_of (name, t)).
Proof.
  intros Hvalid Ht. destruct (is_valid_id_truthy name Hvalid) as [Htruthy Hknown].
  unfold Snapshot1.new. remember (S depth) as depth' eqn:Hdepth.
  cbn [Snapshot1.set truthy]. subst depth'.
  assert (Hkey : Js.truthy_string (key_of (name, t)) = true
                 ∧ key_of (name, t) ≠ UNKNOWN_ID).
  { apply is_type_cases in Ht as [-> | [-> | [-> | -> ] ] ]; split; (reflexivity || discriminate). }
  destruct Hkey as [-> Hkey]. cbn [negb].
  rewrite bool_decide_eq_false_2 by done.
  rewrite (bool_decide_eq_true_2 (JNull = JNull)) by done.
  unfold Snapshot1.from_key_with. rewrite (parse_key_of_type name t Hvalid Ht).
  cbn [mbind result_bind truthy]. rewrite Htruthy. cbn [negb orb].
  rewrite (set_with_any_type depth env name t true Hvalid Ht). reflexivity.
Qed.

Lemma new_of_unknown_key (depth : nat) (env : Host.Env) :
  Snapshot1.new PACKAGE_ID (S (S depth)) env (JStr (key set_unknown)) JNull
  = Ok set_unknown.
Proof. unfold Snapshot1.new. rewrite set_depth_enough. vm_compute. reflexivity. Qed.

End InstanceFacts.

Section InstanceTheorems.
Import Enums Regex Pkg.
Variable PACKAGE_ID : string.

(** X13. Every instance that the constructor of the first snapshot
    returns is the unknown package or holds a valid id and one of the four
    package types, and constructing an instance from its string form, on
    any host, gives an instance with the same id and type, equal to it.
    (A value object of the package types passed as the type is one of the
    four members: the enumeration is frozen.) *)
Theorem key_round_trip (depth depth' : nat) (env env' : Host.Env) (id type : jsval)
    (p : PackageInfo) :
  (∀ m, type = JMember m → m_cls m = 0%nat → is_type m) →
  Snapshot1.new PACKAGE_ID depth env id type = Ok p →
  well_formed p
  ∧ ∃ p', Snapshot1.new PACKAGE_ID (S (S depth')) env' (JStr (toString p)) JNull = Ok p'
          ∧ Pkg.id p' = Pkg.id p ∧ Pkg.type p' = Pkg.type p
          ∧ equals p p' = true.
Proof.
  intros Htype Hnew.
  pose proof (set_well_formed PACKAGE_ID depth env id type true p Htype Hnew) as Hp.
  split; [exact Hp|].
  destruct Hp as [->|[Hvalid Ht]].
  - exists set_unknown. split; [apply new_of_unknown_key|]. done.
  - exists (info_of (Pkg.id p, Pkg.type p)). split.
    + apply (new_of_any_key PACKAGE_ID depth' env' (Pkg.id p) (Pkg.type p) Hvalid Ht).
    + simpl. unfold equals. simpl. by rewrite !bool_decide_eq_true_2.
Qed.

(** X14. The key and the log id each identify a package: two
    instances (each the unknown package or a valid id with a package type)
    that have the same key, or the same log id, have the same id and
    type. *)
Theorem key_and_logId_injective (p q : PackageInfo) :
  well_formed p → well_formed q →
  key p = key q ∨ logId p = logId q →
  Pkg.id p = Pkg.id q ∧ Pkg.type p = Pkg.type q.
Proof.
  assert (Hsep : ∀ a b : string, is_valid_id (a ++ String KEY_SEPARATOR b) = false).
  { intros a b. destruct (is_valid_id _) eqn:Hvalid; [|done].
    apply is_valid_id_no_separator in Hvalid. rewrite Forall_forall in Hvalid.
    exfalso. apply (Hvalid KEY_SEPARATOR); [|done].
    clear Hvalid. induction a as [|c a IH]; [by left|by right]. }
  assert (Hkey : ∀ p q, well_formed p → well_formed q → key p = key q →
                        Pkg.id p = Pkg.id q ∧ Pkg.type p = Pkg.type q).
  { clear p q. intros p q Hp Hq. unfold key.
    assert (Hsplit : ∀ r, well_formed r →
              Js.split KEY_SEPARATOR (lower (Pkg.type r) ++ String KEY_SEPARATOR (Pkg.id r))
              = [lower (Pkg.type r); Pkg.id r] ∧ is_type (Pkg.type r)).
    { intros r [->|[Hvalid Ht]]; [split; [reflexivity|]; apply is_type_cases; by left|].
      split; [|done]. apply is_valid_id_no_separator in Hvalid.
      apply is_type_cases in Ht as [-> | [-> | [-> | -> ] ] ].
      all: rewrite split_two; [reflexivity|repeat constructor; discriminate|done]. }
    destruct (Hsplit p Hp) as [Hsp Htp]. destruct (Hsplit q Hq) as [Hsq Htq].
    intros Heq. rewrite Heq, Hsq in Hsp. injection Hsp as Hlower Hid.
    split; [done|].
    apply is_type_cases in Htp as [Hp' | [Hp' | [Hp' | Hp' ] ] ];
      apply is_type_cases in Htq as [Hq' | [Hq' | [Hq' | Hq' ] ] ];
      rewrite Hp', Hq' in *; (reflexivity || discriminate). }
  intros Hp Hq [Heq|Heq]; [by apply Hkey|].
  unfold logId in Heq.
  destruct (bool_decide (Pkg.type p = MODULE)) eqn:Hpm;
    destruct (bool_decide (Pkg.type q = MODULE)) eqn:Hqm.
  - apply bool_decide_eq_true in Hpm, Hqm. split; congruence.
  - exfalso. apply bool_decide_eq_true in Hpm.
    destruct Hp as [->|[Hvalid _]]; [done|].
    rewrite Heq in Hvalid. unfold key in Hvalid. by rewrite Hsep in Hvalid.
  - exfalso. apply bool_decide_eq_true in Hqm.
    destruct Hq as [->|[Hvalid _]]; [done|].
    rewrite <- Heq in Hvalid. unfold key in Hvalid. by rewrite Hsep in Hvalid.
  - by apply Hkey.
Qed.

End InstanceTheorems.

Section InstanceExamples.
Import Enums Pkg.

Lemma key_and_logId_injective_witness :
  well_formed Examples.alpha
  ∧ well_formed {| Pkg.id := "alpha"; Pkg.type := SYSTEM; is_frozen := true |}
  ∧ logId Examples.alpha = "alpha"
  ∧ logId {| Pkg.id := "alpha"; Pkg.type := SYSTEM; is_frozen := true |} = "system:alpha"
  ∧ (logId Examples.alpha
     = logId {| Pkg.id := "alpha"; Pkg.type := SYSTEM; is_frozen := true |} →
     MODULE = SYSTEM).
Proof.
  assert (Ha : well_formed Examples.alpha).
  { right. split; [reflexivity|]. apply is_type_cases. right. by left. }
  assert (Hs : well_formed {| Pkg.id := "alpha"; Pkg.type := SYSTEM; is_frozen := true |}).
  { right. split; [reflexivity|]. apply is_type_cases. right. right. by left. }
  split; [exact Ha|]. split; [exact Hs|]. split; [reflexivity|]. split; [reflexivity|].
  intros Heq. exact (proj2 (key_and_logId_injective _ _ Ha Hs (or_intror Heq))).
Defined.

End InstanceExamples.

Lemma key_round_trip_witness :
  (∀ m, JMember Pkg.SYSTEM = JMember m → m_cls m = 0%nat → Pkg.is_type m)
  ∧ Snapshot1.new "lib-wrapper" 1 Examples.no_game (JStr "dnd5e") (JMember Pkg.SYSTEM)
    = Ok {| Pkg.id := "dnd5e"; Pkg.type := Pkg.SYSTEM; Pkg.is_frozen := true |}
  ∧ ∃ p', Snapshot1.new "lib-wrapper" 2 Examples.no_game (JStr "system:dnd5e") JNull = Ok p'
          ∧ Pkg.id p' = "dnd5e" ∧ Pkg.type p' = Pkg.SYSTEM.
Proof.
  assert (Htype : ∀ m, JMember Pkg.SYSTEM = JMember m → m_cls m = 0%nat → Pkg.is_type m).
  { intros m [= <-] _. apply is_type_cases. right. right. by left. }
  assert (Hnew : Snapshot1.new "lib-wrapper" 1 Examples.no_game (JStr "dnd5e")
                   (JMember Pkg.SYSTEM)
                 = Ok {| Pkg.id := "dnd5e"; Pkg.type := Pkg.SYSTEM; Pkg.is_frozen := true |}).
  { vm_compute. reflexivity. }
  split; [exact Htype|]. split; [exact Hnew|].
  destruct (key_round_trip "lib-wrapper" 1 0 Examples.no_game Examples.no_game _ _ _
              Htype Hnew) as (_ & p' & Hp' & Hid & Ht & _).
  exists p'. split; [exact Hp'|]. split; [exact Hid|exact Ht].
Defined.

Section DetectionTheorems.
Import Enums Regex Pkg.
Variable PACKAGE_ID : string.

(** [set] with a type given: the unknown package, or the id as it is. *)
Lemma set_typed (depth : nat) (env : Host.Env) (name : string) (t : member)
    (freeze : bool) (this : PackageInfo) :
  Js.truthy_string name = true →
  Snapshot1.set PACKAGE_ID depth env (JStr name) (JMember t) freeze = Ok this →
  this = set_unknown
  ∨ (this = {| id := name; type := t; is_frozen := freeze |} ∧ is_valid_id name = true).
Proof.
  intros Htruthy. destruct depth as [|depth]; [done|].
  cbn [Snapshot1.set truthy]. rewrite Htruthy. cbn [negb].
  case_bool_decide as Hunknown; [intros [= <-]; by left|].
  rewrite (bool_decide_eq_false_2 (JMember t = JNull)) by done.
  cbn [mbind result_bind].
  destruct (is_valid_id name) eqn:Hvalid; [|done]. cbn [negb].
  destruct (has PACKAGE_TYPES (JMember t)); [|done].
  intros [= <-]. by right.
Qed.

(** X16. What the constructor of the first snapshot detects when it is
    given no id: the unknown package, or a frozen instance whose id is a
    valid id that the stack trace names under one of the package
    directories and whose type is the one the loop gives that match on
    this host; a module it detects is never the library itself nor one
    whose id is a part of the library's id. *)
Theorem detected_package (depth : nat) (env : Host.Env) (id type : jsval)
    (p : PackageInfo) :
  truthy id = false →
  Snapshot1.new PACKAGE_ID depth env id type = Ok p →
  p = set_unknown
  ∨ (∃ text root,
        Host.captured_stack env = Some text
        ∧ (root, Pkg.id p) ∈ scanned text
        ∧ classify env (IGNORE_PACKAGE_IDS PACKAGE_ID) root (Pkg.id p)
          = Ok (Some (Pkg.id p, Pkg.type p))
        ∧ is_valid_id (Pkg.id p) = true
        ∧ is_frozen p = true
        ∧ (Pkg.type p = MODULE → Js.truthy_string PACKAGE_ID = true →
           Pkg.id p ≠ PACKAGE_ID ∧ Js.includes PACKAGE_ID (Pkg.id p) = false)).
Proof.
  intros Hid. unfold Snapshot1.new.
  destruct depth as [|depth]; [done|].
  cbn [Snapshot1.set]. rewrite Hid. cbn [negb].
  unfold Snapshot1.detect_id_with, Snapshot1.foreach_package_in_stack_trace.
  cbn [mbind result_bind].
  destruct (Host.captured_stack env) as [text|] eqn:Hstack; [|intros [= <-]; by left].
  destruct (negb (Js.truthy_string text)); [intros [= <-]; by left|].
  destruct (for_each_match _ _ _ _ _) as [[s' b]|e] eqn:Hloop; [|done].
  cbn [mbind result_bind fst]. intros [= <-].
  eapply (for_each_match_inv
            (λ p, p = set_unknown
                  ∨ ∃ text' root,
                      Some text = Some text'
                      ∧ (root, Pkg.id p) ∈ scanned text'
                      ∧ classify env (IGNORE_PACKAGE_IDS PACKAGE_ID) root (Pkg.id p)
                        = Ok (Some (Pkg.id p, Pkg.type p))
                      ∧ is_valid_id (Pkg.id p) = true
                      ∧ is_frozen p = true
                      ∧ (Pkg.type p = MODULE → Js.truthy_string PACKAGE_ID = true →
                         Pkg.id p ≠ PACKAGE_ID
                         ∧ Js.includes PACKAGE_ID (Pkg.id p) = false)));
    [| |exact Hloop]; [by left|].
  intros m name t s0 s1 b' Hm Hclassify _ Hcall. cbv beta in Hcall.
  destruct (Snapshot1.set PACKAGE_ID depth env (JStr name) (JMember t) true)
    as [this|e] eqn:Hset; cbn [mbind result_bind] in Hcall; [|done].
  injection Hcall as <- <-.
  pose proof (classify_Some _ _ _ _ _ _ Hclassify) as (Hname & Htruthy & _ & _ & Hmodule).
  subst name.
  apply (set_typed _ _ _ _ _ _ Htruthy) in Hset as [->|[-> Hvalid]]; [by left|].
  right. exists text, (root_and_id m).1. cbn [Pkg.id Pkg.type Pkg.is_frozen].
  split; [done|]. split.
  { unfold scanned. rewrite <- surjective_pairing. by apply list_elem_of_fmap_2. }
  split; [exact Hclassify|].
  split; [done|]. split; [done|].
  intros -> Hpackage. destruct (Hmodule eq_refl) as [Hignored _].
  unfold IGNORE_PACKAGE_IDS, ignored in Hignored.
  rewrite Hpackage in Hignored. simpl in Hignored.
  apply orb_false_iff in Hignored as [Hne Hincl]. split; [|done].
  by apply bool_decide_eq_false in Hne.
Qed.

(** X17. What the constructor rejects, in both snapshots: an id that is
    truthy and no string, with the error that ids must be strings, and a
    valid id with a type that is neither null nor a value object of the
    package types, with the error that names the type; and, in the first
    snapshot, a string that is neither the unknown id, nor a valid id, nor
    splits in two at the separator, with the error of an invalid id. *)
Theorem constructor_rejects (depth : nat) (env : Host.Env) :
  (∀ id type,
      truthy id = true → (∀ s, id ≠ JStr s) →
      Snapshot1.new PACKAGE_ID (S depth) env id type = Throw PackageIdMustBeString
      ∧ Snapshot2.new PACKAGE_ID (S depth) env id type = Throw PackageIdMustBeString)
  ∧ (∀ name type,
      is_valid_id name = true →
      type ≠ JNull → type ≠ JUndefined → has PACKAGE_TYPES type = false →
      Snapshot1.new PACKAGE_ID (S depth) env (JStr name) type
      = Throw (InvalidPackageType name type)
      ∧ Snapshot2.new PACKAGE_ID (S depth) env (JStr name) type
        = Throw (InvalidPackageType name type))
  ∧ (∀ name type,
      name ≠ "" → name ≠ UNKNOWN_ID → is_valid_id name = false →
      length (Js.split KEY_SEPARATOR name) ≠ 2%nat →
      Snapshot1.new PACKAGE_ID (S depth) env (JStr name) type
      = Throw (InvalidPackageId name)).
Proof.
  split; [|split].
  - intros id type Hid Hstr. unfold Snapshot1.new, Snapshot2.new.
    cbn [Snapshot1.set Snapshot2.set]. rewrite Hid. cbn [negb].
    destruct id; try done. by destruct (Hstr s).
  - intros name type Hvalid Hnull Hundef Hhas.
    destruct (is_valid_id_truthy name Hvalid) as [Htruthy Hknown].
    unfold Snapshot1.new, Snapshot2.new.
    cbn [Snapshot1.set Snapshot2.set truthy]. rewrite Htruthy. cbn [negb].
    rewrite bool_decide_eq_false_2 by done.
    assert (Htype : match type with JUndefined => JNull | _ => type end = type)
      by (by destruct type).
    rewrite Htype. rewrite (bool_decide_eq_false_2 (type = JNull)) by done.
    cbn [mbind result_bind]. rewrite Hvalid. cbn [negb].
    destruct type; try done; by rewrite Hhas.
  - intros name type Hne Hknown Hinvalid Hsplit.
    unfold Snapshot1.new. cbn [Snapshot1.set truthy].
    assert (Htruthy : Js.truthy_string name = true) by (by destruct name).
    rewrite Htruthy. cbn [negb]. rewrite bool_decide_eq_false_2 by done.
    assert (Hparse : Snapshot1.parse_key name = Ok (JNull, JNull)).
    { unfold Snapshot1.parse_key.
      destruct (Js.split KEY_SEPARATOR name) as [|a [|b [|c l]]]; done. }
    case_bool_decide as Hnull.
    + unfold Snapshot1.from_key_with. rewrite Hparse. cbn [mbind result_bind truthy negb orb].
      by rewrite Hinvalid.
    + cbn [mbind result_bind]. by rewrite Hinvalid.
Qed.

End DetectionTheorems.

Lemma detected_package_witness :
  let env := {| Host.game := None;
                Host.captured_stack := Some "at f (http://h/modules/alpha/x.js:1:2)" |} in
  truthy JNull = false
  ∧ Snapshot1.new "lib-wrapper" 2 env JNull JNull = Ok Examples.alpha
  ∧ (Examples.alpha = Pkg.set_unknown
     ∨ Pkg.id Examples.alpha ≠ "lib-wrapper").
Proof.
  intros env.
  assert (Hnew : Snapshot1.new "lib-wrapper" 2 env JNull JNull = Ok Examples.alpha).
  { vm_compute. reflexivity. }
  split; [reflexivity|]. split; [exact Hnew|].
  destruct (detected_package "lib-wrapper" 2 env JNull JNull Examples.alpha eq_refl Hnew)
    as [Hunknown|(text & root & _ & _ & _ & _ & _ & Hmodule)].
  - left. exact Hunknown.
  - right. exact (proj1 (Hmodule eq_refl eq_refl)).
Defined.

Section CollectExtraTheorems.
Import Enums Regex Pkg.
Variable PACKAGE_ID : string.

(** X18. What [collect_all] of the first snapshot returns, without an
    include function, for a supplied trace whose matches have a lower-case
    root directory and a valid id: one frozen instance for each (id, type)
    pair that the loop classifies some match as, each pair once, and
    nothing else. *)
Theorem collect_all_exactly (depth : nat) (env : Host.Env) (text : string)
    (ignore : ignore_ids) :
  Forall plain_match (scanned text) →
  ∃ pairs,
    Snapshot1.collect_all PACKAGE_ID (S (S depth)) env (JStr text) None ignore
    = Ok (info_of <$> pairs)
    ∧ NoDup pairs
    ∧ ∀ p, p ∈ pairs
           ↔ ∃ found, found ∈ scanned text
                      ∧ classify env ignore found.1 found.2 = Ok (Some p).
Proof.
  intros Hplain. unfold Snapshot1.collect_all, Snapshot1.foreach_package_in_stack_trace.
  cbn [mbind result_bind]. cbv beta iota.
  destruct (Js.truthy_string text) eqn:Htext; cbn [negb].
  - destruct (collect_keys env ignore
                (matchAll STACK_TRACE_FLAGS STACK_TRACE_REGEX text) [] Hplain)
      as (pairs & Hrun & Hgood & Hnodup & _ & Hall); [constructor|constructor|].
    exists pairs. simpl fmap in Hrun. rewrite Hrun. cbn [mbind result_bind fst].
    split; [|split].
    + apply for_of_fmap. intros [name t] Hin.
      rewrite Forall_forall in Hgood. destruct (Hgood _ Hin) as [Hvalid Hkind].
      simpl. by apply new_of_key.
    + by apply NoDup_fmap_1 in Hnodup.
    + intros p. split.
      * intros Hp.
        assert (Hsound : ∀ k, k ∈ key_of <$> pairs →
                  ∃ m q, m ∈ matchAll STACK_TRACE_FLAGS STACK_TRACE_REGEX text
                         ∧ classify env ignore (root_and_id m).1 (root_and_id m).2
                           = Ok (Some q)
                         ∧ k = key_of q).
        { eapply (for_each_match_inv
                    (λ set : list string, ∀ k, k ∈ set →
                       ∃ m q, m ∈ matchAll STACK_TRACE_FLAGS STACK_TRACE_REGEX text
                              ∧ classify env ignore (root_and_id m).1 (root_and_id m).2
                                = Ok (Some q)
                              ∧ k = key_of q));
            [| |exact Hrun].
          - intros k Hk. by apply elem_of_nil in Hk.
          - intros m name t s0 s1 b' Hm Hclassify Hs0 Hcall k Hk. cbv beta in Hcall.
            case_bool_decide; simplify_eq; [by apply Hs0|].
            apply elem_of_app in Hk as [Hk|Hk]; [by apply Hs0|].
            apply list_elem_of_singleton in Hk. subst k. eauto 10. }
        destruct (Hsound (key_of p)) as (m & q & Hm & Hclassify & Hkey).
        { by apply list_elem_of_fmap_2. }
        assert (Hq : plain_pair q).
        { rewrite Forall_forall in Hplain.
          destruct (classify_plain env ignore (root_and_id m).1 (root_and_id m).2)
            as [Hnone|(t & Hsome & Hpair)].
          - rewrite <- surjective_pairing. apply Hplain. unfold scanned.
            by apply list_elem_of_fmap_2.
          - congruence.
          - congruence. }
        rewrite Forall_forall in Hgood.
        apply key_of_inj in Hkey; [|by apply Hgood|done]. subst q.
        exists (root_and_id m). split; [|done]. unfold scanned. by apply list_elem_of_fmap_2.
      * intros (found & Hfound & Hclassify). unfold scanned in Hfound.
        apply list_elem_of_fmap in Hfound as (m & -> & Hm). by eapply Hall.
  - destruct text; [|done]. exists []. split; [done|]. split; [constructor|].
    intros p. split; [by intros []%elem_of_nil|].
    by intros (found & []%elem_of_nil & _).
Qed.

End CollectExtraTheorems.

Lemma collect_all_exactly_witness :
  let text := "at f (http://h/systems/dnd5e/x.js:1:2)" ++ Examples.LF
              ++ "at g (http://h/modules/alpha/y.js:3:4)" in
  Forall Pkg.plain_match (Pkg.scanned text)
  ∧ ∃ pairs,
      Snapshot1.collect_all "lib-wrapper" 2 Examples.no_game (JStr text) None
        Pkg.IgnoreNothing
      = Ok (Pkg.info_of <$> pairs)
      ∧ NoDup pairs
      ∧ ("alpha", Pkg.MODULE) ∈ pairs.
Proof.
  intros text.
  assert (Hscan : Pkg.scanned text = [("systems", "dnd5e"); ("modules", "alpha")]).
  { vm_compute. reflexivity. }
  assert (Hplain : Forall Pkg.plain_match (Pkg.scanned text)).
  { rewrite Hscan. repeat constructor; simpl; set_solver. }
  split; [exact Hplain|].
  destruct (collect_all_exactly "lib-wrapper" 0 Examples.no_game text Pkg.IgnoreNothing Hplain)
    as (pairs & Hrun & Hnodup & Hiff).
  exists pairs. split; [exact Hrun|]. split; [exact Hnodup|].
  apply Hiff. exists ("modules", "alpha"). split.
  - rewrite Hscan. right. left.
  - reflexivity.
Defined.

Section Snapshot2Keys.
Import Enums Regex Pkg.
Variable PACKAGE_ID : string.

Lemma is_valid_id_no_char (name : string) (sep : ascii) :
  is_valid_id name = true → id_char sep = false →
  Forall (λ c, c ≠ sep) (list_ascii_of_string name).
Proof.
  intros H Hsep. apply is_valid_id_chars in H.
  eapply Forall_impl; [exact H|]. intros c Hc ->. congruence.
Qed.

Lemma split_key_two (a name : string) (sep : ascii) :
  sep ∈ KEY_SEPARATORS →
  Forall (λ c, id_char c = true) (list_ascii_of_string a) →
  is_valid_id name = true →
  Snapshot2.split_key KEY_SEPARATORS (a ++ String sep name) [] = [a; name].
Proof.
  intros Hsep Ha Hname.
  assert (Hno : ∀ c, id_char c = false → Forall (λ x, x ≠ c) (list_ascii_of_string a)).
  { intros c Hc. eapply Forall_impl; [exact Ha|]. intros x Hx ->. congruence. }
  unfold KEY_SEPARATORS in *. cbn [Snapshot2.split_key].
  apply elem_of_cons in Hsep as [->|Hsep].
  - rewrite split_two; [done|by apply Hno|by apply is_valid_id_no_char].
  - apply list_elem_of_singleton in Hsep. subst sep.
    rewrite (split_without_sep ":" (a ++ String "~" name)).
    + simpl. rewrite split_two; [done|by apply Hno|by apply is_valid_id_no_char].
    + clear Hno. induction a as [|c a IH]; simpl.
      * constructor; [done|]. by apply is_valid_id_no_char.
      * apply Forall_cons in Ha as [Hc Ha]. constructor; [|by apply IH].
        intros ->. done.
Qed.

Lemma split_key_one (name : string) :
  is_valid_id name = true →
  Snapshot2.split_key KEY_SEPARATORS name [] = [name].
Proof.
  intros Hname. unfold KEY_SEPARATORS. cbn [Snapshot2.split_key].
  rewrite !split_without_sep by (by apply is_valid_id_no_char). done.
Qed.

(** X19. In the second snapshot a key is read with the case of its type
    part: with the type in upper case, and either separator, the
    constructor returns the instance with that type, but with the type in
    lower case, as the [key] getter writes it, the type is looked up in the
    host registry instead. *)
Theorem snapshot2_key_type_case (depth : nat) (env : Host.Env) (name : string)
    (t : member) (sep : ascii) :
  is_valid_id name = true → is_type t → sep ∈ KEY_SEPARATORS →
  Snapshot2.new PACKAGE_ID (S (S depth)) env (JStr (m_name t ++ String sep name)) JNull
  = Ok {| id := name; type := t; is_frozen := true |}
  ∧ Snapshot2.new PACKAGE_ID (S (S depth)) env (JStr (lower t ++ String sep name)) JNull
    = Ok {| id := name; type := detect_type PACKAGE_ID env name; is_frozen := true |}.
Proof.
  intros Hname Ht Hsep.
  destruct (is_valid_id_truthy name Hname) as [Htruthy Hknown].
  assert (Hinner : ∀ type,
    type = JMember t ∨ type = JUndefined →
    Snapshot2.set PACKAGE_ID (S depth) env (JStr name) type true
    = Ok {| id := name;
            type := match type with JMember m => m | _ => detect_type PACKAGE_ID env name end;
            is_frozen := true |}).
  { intros type Htype. cbn [Snapshot2.set truthy]. rewrite Htruthy. cbn [negb].
    rewrite bool_decide_eq_false_2 by done.
    destruct Htype as [-> | ->].
    - rewrite (bool_decide_eq_false_2 (JMember t = JNull)) by done.
      cbn [mbind result_bind]. rewrite Hname. cbn [negb].
      apply is_type_cases in Ht as [-> | [-> | [-> | -> ] ] ]; reflexivity.
    - rewrite (bool_decide_eq_true_2 (JNull = JNull)) by done.
      unfold Snapshot2.from_key_with. rewrite split_key_one by done.
      cbn [mbind result_bind]. by rewrite Hname. }
  assert (Houter : ∀ a type,
    Forall (λ c, id_char c = true) (list_ascii_of_string a) →
    a ≠ "" →
    property PACKAGE_TYPES a = Ok type →
    type = JMember t ∨ type = JUndefined →
    Snapshot2.new PACKAGE_ID (S (S depth)) env (JStr (a ++ String sep name)) JNull
    = Ok {| id := name;
            type := match type with JMember m => m | _ => detect_type PACKAGE_ID env name end;
            is_frozen := true |}).
  { intros a type Ha Hne Hprop Htype. unfold Snapshot2.new.
    remember (S depth) as depth' eqn:Hdepth.
    cbn [Snapshot2.set truthy]. subst depth'.
    assert (Hkey : Js.truthy_string (a ++ String sep name) = true) by (by destruct a).
    rewrite Hkey. cbn [negb].
    assert (Hnot : a ++ String sep name ≠ UNKNOWN_ID).
    { intros Heq.
      assert (Hsplit := split_key_two a name sep Hsep Ha Hname).
      rewrite Heq in Hsplit. vm_compute in Hsplit. discriminate. }
    rewrite bool_decide_eq_false_2 by done.
    rewrite (bool_decide_eq_true_2 (JNull = JNull)) by done.
    unfold Snapshot2.from_key_with. rewrite split_key_two by done.
    rewrite Hprop. cbn [mbind result_bind]. by rewrite Hinner. }
  apply is_type_cases in Ht as Hcases.
  split.
  - rewrite (Houter (m_name t) (JMember t)); [done| | | |by left].
    + apply every_Forall.
      destruct Hcases as [-> | [-> | [-> | -> ] ] ]; vm_compute; reflexivity.
    + destruct Hcases as [-> | [-> | [-> | -> ] ] ]; done.
    + destruct Hcases as [-> | [-> | [-> | -> ] ] ]; reflexivity.
  - rewrite (Houter (lower t) JUndefined); [done| | | |by right].
    + apply every_Forall.
      destruct Hcases as [-> | [-> | [-> | -> ] ] ]; vm_compute; reflexivity.
    + destruct Hcases as [-> | [-> | [-> | -> ] ] ]; done.
    + destruct Hcases as [-> | [-> | [-> | -> ] ] ]; reflexivity.
Qed.

End Snapshot2Keys.

Lemma snapshot2_key_type_case_witness :
  let env := Examples.game_with {[ "alpha" := Examples.alpha_module ]} None in
  Pkg.is_valid_id "alpha" = true
  ∧ Pkg.is_type Pkg.SYSTEM
  ∧ "~"%char ∈ Pkg.KEY_SEPARATORS
  ∧ Snapshot2.new "lib-wrapper" 2 env (JStr "SYSTEM~alpha") JNull
    = Ok {| Pkg.id := "alpha"; Pkg.type := Pkg.SYSTEM; Pkg.is_frozen := true |}
  ∧ Snapshot2.new "lib-wrapper" 2 env (JStr "system~alpha") JNull
    = Ok Examples.alpha.
Proof.
  intros env.
  assert (Hvalid : Pkg.is_valid_id "alpha" = true) by reflexivity.
  assert (Htype : Pkg.is_type Pkg.SYSTEM).
  { apply is_type_cases. right. right. by left. }
  assert (Hsep : "~"%char ∈ Pkg.KEY_SEPARATORS) by (right; left).
  split; [exact Hvalid|]. split; [exact Htype|]. split; [exact Hsep|].
  exact (snapshot2_key_type_case "lib-wrapper" 0 env "alpha" Pkg.SYSTEM "~" Hvalid Htype Hsep).
Defined.

Section DisplayNames.
Import Enums Pkg.

Lemma append_sep_inj (sep : ascii) (a b x y : string) :
  Forall (λ c, c ≠ sep) (list_ascii_of_string a) →
  Forall (λ c, c ≠ sep) (list_ascii_of_string b) →
  a ++ String sep x = b ++ String sep y → a = b ∧ x = y.
Proof.
  revert b. induction a as [|c a IH]; intros [|d b] Ha Hb Heq.
  - by injection Heq as ->.
  - injection Heq as <- _. inversion Hb; by subst.
  - injection Heq as -> _. inversion Ha; by subst.
  - injection Heq as -> Heq. inversion Ha; inversion Hb; subst.
    destruct (IH b) as [-> ->]; done.
Qed.

Lemma well_formed_is_type (p : PackageInfo) : well_formed p → is_type (Pkg.type p).
Proof.
  intros [->|[_ Ht]]; [|done]. apply is_type_cases. by left.
Qed.

Lemma known_valid (p : PackageInfo) :
  well_formed p → known p = true →
  Forall (λ c, c ≠ " "%char) (list_ascii_of_string (Pkg.id p))
  ∧ (Pkg.type p = MODULE ∨ Pkg.type p = SYSTEM ∨ Pkg.type p = WORLD).
Proof.
  intros [->|[Hid Ht]] Hknown; [done|]. split.
  - apply is_valid_id_chars in Hid. eapply Forall_impl; [exact Hid|].
    intros c Hc ->. discriminate.
  - apply is_type_cases in Ht as [Ht | Ht]; [|done].
    unfold known in Hknown. by rewrite bool_decide_eq_true_2 in Hknown.
Qed.

(** X15. The display names identify a package: two instances (each the
    unknown package or a valid id with a package type) with the same
    [type_plus_id], or the same [type_plus_id_capitalized], have the same
    id and type, and so do two instances of a known type with the same
    [settingsName]. *)
Theorem display_names_identify_package (p q : PackageInfo) :
  well_formed p → well_formed q →
  type_plus_id p = type_plus_id q
  ∨ type_plus_id_capitalized p = type_plus_id_capitalized q
  ∨ (known p = true ∧ known q = true ∧ settingsName p = settingsName q) →
  Pkg.id p = Pkg.id q ∧ Pkg.type p = Pkg.type q.
Proof.
  intros Hp Hq [Heq | [Heq | (Hkp & Hkq & Heq) ] ].
  - apply well_formed_is_type in Hp, Hq.
    destruct p as [i t f], q as [i' t' f']. simpl in *.
    apply is_type_cases in Hp as [-> | [-> | [-> | -> ] ] ];
      apply is_type_cases in Hq as [-> | [-> | [-> | -> ] ] ];
      cbv in Heq; by simplify_eq.
  - apply well_formed_is_type in Hp, Hq.
    destruct p as [i t f], q as [i' t' f']. simpl in *.
    apply is_type_cases in Hp as [-> | [-> | [-> | -> ] ] ];
      apply is_type_cases in Hq as [-> | [-> | [-> | -> ] ] ];
      cbv in Heq; by simplify_eq.
  - destruct (known_valid p Hp Hkp) as [Hi Ht], (known_valid q Hq Hkq) as [Hi' Ht'].
    destruct p as [i t f], q as [i' t' f']. simpl in *.
    assert (Hspace : ∀ a b tail : string,
              Forall (λ c, c ≠ " "%char) (list_ascii_of_string a) →
              a ≠ b ++ String " " tail).
    { intros a b tail Ha ->. clear -Ha.
      induction b as [|c b IH]; inversion Ha; subst; [done|]. by apply IH. }
    unfold settingsName in Heq. simpl in Heq.
    destruct Ht as [-> | [-> | -> ] ], Ht' as [-> | [-> | -> ] ];
      repeat match type of Heq with
             | context [bool_decide (?a = ?b)] =>
                 first [ rewrite (bool_decide_eq_true_2 (a = b)) in Heq by reflexivity
                       | rewrite (bool_decide_eq_false_2 (a = b)) in Heq
                           by (vm_compute; discriminate) ]
             end.
    all: try done.
    all: try (exfalso; by eapply (Hspace i)).
    all: try (exfalso; symmetry in Heq; by eapply (Hspace i')).
    all: by destruct (append_sep_inj " " i i' _ _ Hi Hi' Heq).
Qed.

End DisplayNames.

Lemma display_names_identify_package_witness :
  Pkg.well_formed Examples.alpha
  ∧ Pkg.well_formed {| Pkg.id := "alpha"; Pkg.type := Pkg.SYSTEM; Pkg.is_frozen := true |}
  ∧ Pkg.settingsName Examples.alpha = "alpha"
  ∧ Pkg.settingsName {| Pkg.id := "alpha"; Pkg.type := Pkg.SYSTEM; Pkg.is_frozen := true |}
    = "alpha [System]"
  ∧ Pkg.type_plus_id_capitalized Examples.alpha = "Module alpha"
  ∧ (Pkg.type_plus_id_capitalized Examples.alpha
     = Pkg.type_plus_id_capitalized
         {| Pkg.id := "alpha"; Pkg.type := Pkg.SYSTEM; Pkg.is_frozen := true |} →
     Pkg.MODULE = Pkg.SYSTEM).
Proof.
  assert (Ha : Pkg.well_formed Examples.alpha).
  { right. split; [reflexivity|]. apply is_type_cases. right. by left. }
  assert (Hs : Pkg.well_formed
                 {| Pkg.id := "alpha"; Pkg.type := Pkg.SYSTEM; Pkg.is_frozen := true |}).
  { right. split; [reflexivity|]. apply is_type_cases. right. right. by left. }
  split; [exact Ha|]. split; [exact Hs|].
  split; [reflexivity|]. split; [reflexivity|]. split; [reflexivity|].
  intros Heq.
  exact (proj2 (display_names_identify_package _ _ Ha Hs (or_intror (or_introl Heq)))).
Defined.

Section LoggerFacts.
Import Enums Log Logger.

Lemma object_literal_lookup_None {A} (entries : list (string * A)) (k : string) :
  k ∉ entries.*1 → object_literal entries !! k = None.
Proof.
  unfold object_literal.
  assert (Hgen : ∀ obj : gmap string A,
            obj !! k = None → k ∉ entries.*1 →
            foldl (λ obj entry, <[entry.1 := entry.2]> obj) obj entries !! k = None).
  { induction entries as [|[k' x] entries IH]; intros obj Hobj Hk; simpl; [done|].
    apply IH.
    - rewrite lookup_insert_ne; [done|]. intros ->. apply Hk. simpl. left.
    - intros Hin. apply Hk. simpl. by right. }
  apply Hgen. apply lookup_empty.
Qed.

Lemma number_to_string_inj (a b : Z) :
  Js.number_to_string a = Js.number_to_string b → a = b.
Proof. unfold Js.number_to_string. apply (inj pretty). Qed.

(** A number that is the value of no level is no key of the two maps. *)
Lemma not_a_level_key (n : Z) :
  n ≠ 0 → n ≠ 100 → n ≠ 200 → n ≠ 300 → n ≠ 400 → n ≠ 500 →
  n ≠ MAX_SAFE_INTEGER - 1 → n ≠ MAX_SAFE_INTEGER →
  Js.number_to_string n
  ∉ Js.number_to_string <$> [0; 100; 200; 300; 400; 500;
                              MAX_SAFE_INTEGER - 1; MAX_SAFE_INTEGER].
Proof.
  intros ? ? ? ? ? ? ? ? (k & Hk%number_to_string_inj & Hin)%list_elem_of_fmap.
  subst k. repeat (apply elem_of_cons in Hin as [->|Hin]; [done|]).
  by apply elem_of_nil in Hin.
Qed.

End LoggerFacts.

Section LoggerTheorems.
Import Enums Log Logger.

Lemma LOG_PREFIX_truthy (PACKAGE_TITLE : string) :
  Js.truthy_string (LOG_PREFIX PACKAGE_TITLE) = true.
Proof. by destruct PACKAGE_TITLE. Qed.

(** X20. A verbosity that is a number or has one as its value logs
    like the first level that is not below it: [verbosity_to_log_function]
    gives [console.debug] up to 200, [console.info] up to 300,
    [console.warn] up to 400, [console.error] up to the value of CRITICAL,
    [console.info] for the value of ALWAYS and [console.log] above it, and
    [verbosity_to_log_prefix] gives the tag of that level before the
    package title, with no tag from ALWAYS on. *)
Theorem verbosity_maps_to_nearest_level (PACKAGE_TITLE : string) (v : verbosity) (n : Z) :
  verbosity_to_value v = inl n →
  verbosity_to_log_function v
  = Some (if n <=? 200 then console_debug
          else if n <=? 300 then console_info
          else if n <=? 400 then console_warn
          else if n <=? MAX_SAFE_INTEGER - 1 then console_error
          else if n <=? MAX_SAFE_INTEGER then console_info
          else console_log)
  ∧ verbosity_to_log_prefix PACKAGE_TITLE v
    = Some ((if n <=? 0 then "[0] "
             else if n <=? 100 then "[T] "
             else if n <=? 200 then "[D] "
             else if n <=? 300 then "[I] "
             else if n <=? 400 then "[W] "
             else if n <=? 500 then "[E] "
             else if n <=? MAX_SAFE_INTEGER - 1 then "[!] "
             else "") ++ LOG_PREFIX PACKAGE_TITLE).
Proof.
  intros Hn.
  unfold verbosity_to_log_function, verbosity_to_log_prefix, verbosity_to_mapped_value.
  rewrite Hn. cbn [value_key].
  destruct (decide (n = 0)) as [->|H0]; [split; reflexivity|].
  destruct (decide (n = 100)) as [->|H1]; [split; reflexivity|].
  destruct (decide (n = 200)) as [->|H2]; [split; reflexivity|].
  destruct (decide (n = 300)) as [->|H3]; [split; reflexivity|].
  destruct (decide (n = 400)) as [->|H4]; [split; reflexivity|].
  destruct (decide (n = 500)) as [->|H5]; [split; reflexivity|].
  destruct (decide (n = MAX_SAFE_INTEGER - 1)) as [->|H6]; [split; reflexivity|].
  destruct (decide (n = MAX_SAFE_INTEGER)) as [->|H7].
  { split; [reflexivity|].
    change (LOG_PREFIX_VERBOSITY_MAP PACKAGE_TITLE !! Js.number_to_string MAX_SAFE_INTEGER)
      with (Some (LOG_PREFIX PACKAGE_TITLE)).
    cbv beta iota. by rewrite LOG_PREFIX_truthy. }
  pose proof (not_a_level_key n H0 H1 H2 H3 H4 H5 H6 H7) as Hkey.
  unfold VERBOSITY_CONSOLEFN_MAP, LOG_PREFIX_VERBOSITY_MAP.
  rewrite !object_literal_lookup_None by exact Hkey.
  unfold MAX_SAFE_INTEGER in *.
  split.
  - change (e_list VERBOSITY)
      with [ZERO; TRACE; DEBUG; INFO; WARNING; ERROR; CRITICAL; ALWAYS].
    cbn [nearest_verbosity js_gt m_value ZERO TRACE DEBUG INFO WARNING ERROR CRITICAL ALWAYS].
    unfold MAX_SAFE_INTEGER.
    repeat match goal with
           | |- context [?a >? ?b] => destruct (Z.gtb_spec a b)
           end;
    repeat match goal with
           | |- context [?a <=? ?b] => destruct (Z.leb_spec a b); try lia
           end; reflexivity.
  - change (e_list VERBOSITY)
      with [ZERO; TRACE; DEBUG; INFO; WARNING; ERROR; CRITICAL; ALWAYS].
    cbn [nearest_verbosity js_gt m_value ZERO TRACE DEBUG INFO WARNING ERROR CRITICAL ALWAYS].
    unfold MAX_SAFE_INTEGER.
    repeat match goal with
           | |- context [?a >? ?b] => destruct (Z.gtb_spec a b)
           end;
    repeat match goal with
           | |- context [?a <=? ?b] => destruct (Z.leb_spec a b); try lia
           end; reflexivity.
Qed.

End LoggerTheorems.

Section LoggerStateTheorems.
Import Enums Log Logger.

Lemma VERBOSITY_is_built : built VERBOSITY (created 1 VERBOSITY_collection).
Proof. eapply built_Enum. exact VERBOSITY_built. Qed.

Lemma VERBOSITY_reverse :
  ∃ rev, e_reverse VERBOSITY = Some rev
         ∧ ∀ v m, rev !! v = Some m ↔ m ∈ e_list VERBOSITY ∧ m_value m = Some v.
Proof.
  pose proof (built_consistent _ _ VERBOSITY_is_built) as (_ & _ & _ & Hreverse).
  destruct (e_reverse VERBOSITY) as [rev|] eqn:Hrev; [eauto|].
  vm_compute in Hrev. discriminate.
Qed.

Lemma checked_member (value : jsval) (m : member) :
  get VERBOSITY value (Some value) = Ok (JMember m) →
  has VERBOSITY (JMember m) = true →
  checked_verbosity value = Ok (Level m).
Proof.
  intros Hget Hhas. unfold checked_verbosity. rewrite Hget.
  cbn [mbind result_bind]. by rewrite Hhas.
Qed.

(** X21. What the setter of [Log.verbosity] stores.  A level given as
    its value object, its name in any case or its number is stored as the
    value object; an integer that is the number of no level is stored as
    it is; a string that names no level and no number of a level, and
    [null], are rejected with the internal error; [undefined] makes [get]
    throw; and what is stored is never null, so the getter then returns
    it. *)
Theorem checked_verbosity_cases :
  (∀ m, m ∈ e_list VERBOSITY →
     checked_verbosity (JMember m) = Ok (Level m)
     ∧ (∀ s, Js.toUpperCase s = m_name m → checked_verbosity (JStr s) = Ok (Level m))
     ∧ (∀ n, m_value m = Some n → checked_verbosity (JNum n) = Ok (Level m)))
  ∧ (∀ n, (∀ m, m ∈ e_list VERBOSITY → m_value m ≠ Some n) →
     checked_verbosity (JNum n) = Ok (Number n))
  ∧ (∀ s, matches_nothing VERBOSITY (JStr s) →
     checked_verbosity (JStr s) = Throw invalid_verbosity)
  ∧ checked_verbosity JNull = Throw invalid_verbosity
  ∧ checked_verbosity JUndefined
    = Throw (EnumNotValidKeyOrValue JUndefined "PackageType")
  ∧ (∀ value current,
       checked_verbosity value = Ok current →
       is_nullish current = false ∧ get_verbosity current = current).
Proof.
  destruct VERBOSITY_reverse as (rev & Hrev & Hreverse).
  split; [|split; [|split; [|split; [|split]]]].
  - intros m Hm.
    pose proof (built_consistent _ _ VERBOSITY_is_built) as (_ & _ & Hmembers & _).
    destruct (Hmembers m Hm) as [Hcls _].
    assert (Hhas : has VERBOSITY (JMember m) = true).
    { unfold has. by rewrite bool_decide_eq_true_2. }
    split; [|split].
    + apply checked_member; [|done]. unfold get. by rewrite Hhas.
    + intros s Hs. apply checked_member; [|done].
      exact (get_by_name _ _ m s _ VERBOSITY_is_built Hm Hs).
    + intros n Hn. apply checked_member; [|done].
      assert (Hfound : rev !! n = Some m) by (by apply Hreverse).
      by rewrite (get_number VERBOSITY rev n _ Hrev), Hfound.
  - intros n Hn. unfold checked_verbosity.
    rewrite (get_number VERBOSITY rev n _ Hrev).
    destruct (rev !! n) as [m|] eqn:Hm; [|done].
    apply Hreverse in Hm as [Hm Hv]. by destruct (Hn m Hm).
  - intros s (_ & Hname & Hvalue). unfold checked_verbosity.
    rewrite get_not_by_name by (by apply Hname).
    rewrite Hrev. destruct (Hvalue rev Hrev) as [_ Hparse].
    destruct (Js.parseInt s) as [n|] eqn:Hn; simpl; [|done].
    by rewrite (Hparse s n eq_refl Hn).
  - vm_compute. reflexivity.
  - vm_compute. reflexivity.
  - intros value current. unfold checked_verbosity.
    destruct (get VERBOSITY value (Some value)) as [r|e]; [|done]. simpl.
    destruct r; try done.
    + by intros [= <-].
    + destruct (has VERBOSITY (JMember m)); [|done]. by intros [= <-].
Qed.

End LoggerStateTheorems.

Section LoggerFunctionTheorems.
Import Enums Log Logger.

Lemma nearest_verbosity_Some {A} (value : Z + member) (map : gmap string A) (dflt : A)
    (levels : list member) :
  Forall (λ v, is_Some (map !! property_key (m_value v))) levels →
  is_Some (nearest_verbosity value map dflt levels).
Proof.
  induction 1 as [|v levels Hv _ IH]; simpl; [by eexists|].
  by destruct (js_gt value (m_value v)).
Qed.

Lemma verbosity_to_mapped_value_Some {A} (truthy_entry : A → bool) (v : verbosity)
    (map : gmap string A) (dflt : A) :
  Forall (λ v, is_Some (map !! property_key (m_value v))) (e_list VERBOSITY) →
  is_Some (verbosity_to_mapped_value truthy_entry v map dflt).
Proof.
  intros Hmap. unfold verbosity_to_mapped_value.
  pose proof (nearest_verbosity_Some (verbosity_to_value v) map dflt _ Hmap) as Hnear.
  destruct (map !! value_key (verbosity_to_value v)) as [result|]; [|done].
  by destruct (truthy_entry result).
Qed.

Lemma verbosity_to_log_function_Some (v : verbosity) :
  is_Some (verbosity_to_log_function v).
Proof.
  unfold verbosity_to_log_function. apply verbosity_to_mapped_value_Some.
  change (e_list VERBOSITY)
    with [ZERO; TRACE; DEBUG; INFO; WARNING; ERROR; CRITICAL; ALWAYS].
  repeat (apply Forall_cons_2; [eexists; vm_compute; reflexivity|]). apply Forall_nil_2.
Qed.

Lemma verbosity_to_log_prefix_Some (PACKAGE_TITLE : string) (v : verbosity) :
  is_Some (verbosity_to_log_prefix PACKAGE_TITLE v).
Proof.
  unfold verbosity_to_log_prefix. apply verbosity_to_mapped_value_Some.
  change (e_list VERBOSITY)
    with [ZERO; TRACE; DEBUG; INFO; WARNING; ERROR; CRITICAL; ALWAYS].
  repeat (apply Forall_cons_2; [eexists; vm_compute; reflexivity|]). apply Forall_nil_2.
Qed.

Lemma fn_cases (PACKAGE_TITLE : string) (current v : verbosity)
    (fn_verbosity : option verbosity) :
  ∃ nm prefix,
    fn PACKAGE_TITLE current v fn_verbosity
    = Ok (if enabled current v
          then Some {| method := nm; bound_prefix := Some prefix |} else None)
    ∧ verbosity_to_log_function (default v fn_verbosity) = Some nm
    ∧ verbosity_to_log_prefix PACKAGE_TITLE v = Some prefix.
Proof.
  destruct (verbosity_to_log_prefix_Some PACKAGE_TITLE v) as [prefix Hprefix].
  destruct (verbosity_to_log_function_Some (default v fn_verbosity)) as [nm Hnm].
  exists nm, prefix. split; [|split; assumption]. unfold fn. rewrite Hnm, Hprefix.
  destruct (enabled current v); reflexivity.
Qed.

(** X22. [Log.fn] never throws.  It returns [null] exactly when the
    verbosity is not enabled; otherwise it returns the method of [console]
    for [fn_verbosity] bound to the prefix of the verbosity, which is
    always defined.  [Log.log] likewise never throws, and makes a call of
    [console], with the prefix before its arguments, exactly when the
    verbosity is enabled. *)
Theorem fn_returns_null_iff_disabled (PACKAGE_TITLE : string) (current v : verbosity)
    (fn_verbosity : option verbosity) (args : list jsval) :
  ∃ r,
    fn PACKAGE_TITLE current v fn_verbosity = Ok r
    ∧ (r = None ↔ enabled current v = false)
    ∧ (∀ f, r = Some f →
         verbosity_to_log_function (default v fn_verbosity) = Some (method f)
         ∧ bound_prefix f = verbosity_to_log_prefix PACKAGE_TITLE v
         ∧ is_Some (bound_prefix f))
    ∧ ∃ call,
        log PACKAGE_TITLE current v args = Ok call
        ∧ (call = None ↔ enabled current v = false)
        ∧ ∀ nm arguments, call = Some (nm, arguments) →
            ∃ prefix, arguments = JStr prefix :: args.
Proof.
  destruct (fn_cases PACKAGE_TITLE current v fn_verbosity)
    as (nm & prefix & Hfn & Hnm & Hprefix).
  unfold log.
  destruct (fn_cases PACKAGE_TITLE current v None) as (nm' & prefix' & Hfn' & _).
  rewrite Hfn, Hfn'. clear Hfn Hfn'. cbn [mbind result_bind].
  generalize (enabled current v). intros b.
  eexists. split; [reflexivity|].
  split.
  { destruct b; split; intros H; first [discriminate H | reflexivity]. }
  split.
  { intros f Hf. destruct b; [|discriminate Hf].
    injection Hf as <-. cbn [method bound_prefix].
    split; [exact Hnm|]. split; [symmetry; exact Hprefix|]. eexists. reflexivity. }
  clear Hnm Hprefix.
  eexists. split; [reflexivity|].
  split.
  { destruct b; split; intros H; first [discriminate H | reflexivity]. }
  intros nm0 arguments Hcall. destruct b; [|discriminate Hcall].
  injection Hcall as _ <-. eexists. reflexivity.
Qed.

End LoggerFunctionTheorems.

Section LoggerAliasTheorems.
Import Enums Log Logger.

Lemma fn_level (PACKAGE_TITLE : string) (current : verbosity) (c : Z) (m : member)
    (n : Z) (nm : console_method) (tag : string) :
  verbosity_to_value (get_verbosity current) = inl c →
  m_value m = Some n →
  verbosity_to_log_function (Level m) = Some nm →
  verbosity_to_log_prefix PACKAGE_TITLE (Level m) = Some (tag ++ LOG_PREFIX PACKAGE_TITLE) →
  fn PACKAGE_TITLE current (Level m) None
  = Ok (if n >=? c
        then Some {| method := nm;
                     bound_prefix := Some (tag ++ LOG_PREFIX PACKAGE_TITLE) |}
        else None).
Proof.
  intros Hc Hn Hnm Hprefix. unfold fn. cbn [default].
  rewrite Hnm, Hprefix.
  unfold enabled, verbosity_value. rewrite Hc. cbn [verbosity_to_value]. rewrite Hn.
  cbn [js_ge]. by destruct (n >=? c).
Qed.

(** X23. The aliases that [generate_log_aliases] stores while the
    current verbosity has the number [c]: for each of [never], [trace],
    [debug], [info], [warning], [warn], [error], [critical] and [always],
    in this order, [null] when the number of its level is below [c], and
    otherwise the method of [console] of the level bound to the prefix of
    the level. *)
Theorem log_aliases_follow_threshold (PACKAGE_TITLE : string) (current : verbosity) (c : Z) :
  verbosity_to_value (get_verbosity current) = inl c →
  generate_log_aliases PACKAGE_TITLE current
  = Ok ((λ '(alias, level, nm, tag),
           (alias,
            if level >=? c
            then Some {| method := nm;
                         bound_prefix := Some (tag ++ LOG_PREFIX PACKAGE_TITLE) |}
            else None))
        <$> [ ("never", 0, console_debug, "[0] ");
              ("trace", 100, console_debug, "[T] ");
              ("debug", 200, console_debug, "[D] ");
              ("info", 300, console_info, "[I] ");
              ("warning", 400, console_warn, "[W] ");
              ("warn", 400, console_warn, "[W] ");
              ("error", 500, console_error, "[E] ");
              ("critical", MAX_SAFE_INTEGER - 1, console_error, "[!] ");
              ("always", MAX_SAFE_INTEGER, console_info, "") ]).
Proof.
  intros Hc. unfold generate_log_aliases, LOG_ALIASES_VERBOSITY_MAP.
  cbn [for_of fmap list_fmap snd fst].
  rewrite (fn_level PACKAGE_TITLE current c ZERO 0 console_debug "[0] ") by done.
  rewrite (fn_level PACKAGE_TITLE current c TRACE 100 console_debug "[T] ") by done.
  rewrite (fn_level PACKAGE_TITLE current c DEBUG 200 console_debug "[D] ") by done.
  rewrite (fn_level PACKAGE_TITLE current c INFO 300 console_info "[I] ") by done.
  rewrite (fn_level PACKAGE_TITLE current c WARNING 400 console_warn "[W] ") by done.
  rewrite (fn_level PACKAGE_TITLE current c ERROR 500 console_error "[E] ") by done.
  rewrite (fn_level PACKAGE_TITLE current c CRITICAL (MAX_SAFE_INTEGER - 1)
             console_error "[!] ") by done.
  rewrite (fn_level PACKAGE_TITLE current c ALWAYS MAX_SAFE_INTEGER console_info "").
  - reflexivity.
  - done.
  - done.
  - done.
  - unfold verbosity_to_log_prefix, verbosity_to_mapped_value.
    change (LOG_PREFIX_VERBOSITY_MAP PACKAGE_TITLE
              !! value_key (verbosity_to_value (Level ALWAYS)))
      with (Some (LOG_PREFIX PACKAGE_TITLE)).
    cbv beta iota. by rewrite LOG_PREFIX_truthy.
Qed.

End LoggerAliasTheorems.

Lemma log_aliases_follow_threshold_witness :
  Log.verbosity_to_value (Log.get_verbosity Log.Nullish) = inl 400
  ∧ ∃ generated,
      Logger.generate_log_aliases "libWrapper" Log.Nullish = Ok generated
      ∧ generated.*1 = ["never"; "trace"; "debug"; "info"; "warning"; "warn"; "error";
                        "critical"; "always"]
      ∧ (λ entry, bool_decide (entry.2 = None)) <$> generated
        = [true; true; true; true; false; false; false; false; false].
Proof.
  split; [reflexivity|]. eexists. split.
  - apply (log_aliases_follow_threshold "libWrapper" Log.Nullish 400). reflexivity.
  - split; reflexivity.
Defined.

Lemma verbosity_maps_to_nearest_level_witness :
  Log.verbosity_to_value (Log.Number 250) = inl 250
  ∧ Logger.verbosity_to_log_function (Log.Number 250) = Some Logger.console_info
  ∧ Logger.verbosity_to_log_prefix "libWrapper" (Log.Number 250)
    = Some "[I] libWrapper:".
Proof.
  split; [reflexivity|].
  exact (verbosity_maps_to_nearest_level "libWrapper" (Log.Number 250) 250 eq_refl).
Defined.

Section LoggerInitTheorems.
Import Enums Log Logger.

Lemma member_has (m : member) : m ∈ e_list VERBOSITY → has VERBOSITY (JMember m) = true.
Proof.
  intros Hm.
  pose proof (built_consistent _ _ VERBOSITY_is_built) as (_ & _ & Hmembers & _).
  destruct (Hmembers m Hm) as [Hcls _].
  unfold has. by rewrite bool_decide_eq_true_2.
Qed.

(** The setter's conversion and check fail with the internal error, or,
    for [undefined], with the error of [get]. *)
Lemma checked_verbosity_Throw (value : jsval) (e : error) :
  checked_verbosity value = Throw e →
  (value = JUndefined ∧ e = EnumNotValidKeyOrValue JUndefined "PackageType")
  ∨ e = invalid_verbosity.
Proof.
  destruct VERBOSITY_reverse as (rev & Hrev & Hreverse).
  pose proof (built_consistent _ _ VERBOSITY_is_built) as (_ & Hvalues & _ & _).
  destruct value as [| |b|n|s|m|].
  - vm_compute. intros [= <-]. by left.
  - vm_compute. intros [= <-]. by right.
  - destruct b; vm_compute; intros [= <-]; by right.
  - destruct (rev !! n) as [m|] eqn:Hn.
    + rewrite (checked_member (JNum n) m); [done| |].
      * by rewrite (get_number VERBOSITY rev n _ Hrev), Hn.
      * apply member_has. by apply Hreverse in Hn as [Hm _].
    + unfold checked_verbosity.
      by rewrite (get_number VERBOSITY rev n _ Hrev), Hn.
  - destruct (e_values VERBOSITY !! Js.toUpperCase s) as [m|] eqn:Hs.
    + apply Hvalues in Hs as [Hm Hs].
      rewrite (checked_member (JStr s) m); [done| |by apply member_has].
      by apply (get_by_name _ _ m s _ VERBOSITY_is_built Hm).
    + unfold checked_verbosity. rewrite get_not_by_name by done. rewrite Hrev.
      destruct (Host.chain (Js.parseInt s) (λ n, rev !! n)) as [m|] eqn:Hn.
      * destruct (Js.parseInt s) as [n|]; [|done]. simpl in Hn.
        apply Hreverse in Hn as [Hm Hv].
        cbn [mbind result_bind]. by rewrite (member_has m Hm).
      * simpl. intros [= <-]. by right.
  - destruct (has VERBOSITY (JMember m)) eqn:Hhas.
    + rewrite (checked_member (JMember m) m); [done| |done].
      unfold get. by rewrite Hhas.
    + assert (Hget : get VERBOSITY (JMember m) (Some (JMember m)) = Ok (JMember m)).
      { unfold get. rewrite Hhas. cbn [mbind result_bind]. by rewrite Hrev. }
      unfold checked_verbosity. rewrite Hget. cbn [mbind result_bind]. rewrite Hhas.
      intros [= <-]. by right.
  - vm_compute. intros [= <-]. by right.
Qed.

Lemma for_of_Ok {A B} (f : A → result B) (l : list A) :
  (∀ x, ∃ y, f x = Ok y) → ∃ ys, for_of f l = Ok ys.
Proof.
  intros Hf. induction l as [|x l [ys IH]]; simpl; [by eexists|].
  destruct (Hf x) as [y ->]. rewrite IH. by eexists.
Qed.

Lemma generate_log_aliases_Ok (PACKAGE_TITLE : string) (current : verbosity) :
  ∃ generated, generate_log_aliases PACKAGE_TITLE current = Ok generated.
Proof.
  apply for_of_Ok. intros [alias m]. simpl.
  destruct (fn_cases PACKAGE_TITLE current (Level m) None) as (nm & prefix & -> & _).
  by eexists.
Qed.

(** X24. [Log.init] adopts a valid setting, once: when forced, or when
    no verbosity is set yet, and the setting is one the setter accepts,
    [init] succeeds, the verbosity is what the setter stores for it, the
    aliases are the ones generated for it, and every later [init] that is
    not forced changes nothing, whatever the setting then is. *)
Theorem init_adopts_setting (PACKAGE_TITLE : string) (force : bool) (value : jsval)
    (level : verbosity) (st : log_state) :
  checked_verbosity value = Ok level →
  force = true ∨ is_nullish (CURRENT_VERBOSITY st) = true →
  ∃ st',
    init PACKAGE_TITLE force (Ok value) st = Ok st'
    ∧ CURRENT_VERBOSITY st' = level
    ∧ get_verbosity (CURRENT_VERBOSITY st') = level
    ∧ generate_log_aliases PACKAGE_TITLE level = Ok (aliases st')
    ∧ ∀ setting, init PACKAGE_TITLE false setting st' = Ok st'.
Proof.
  intros Hvalue Hrun.
  assert (Hlevel : is_nullish level = false).
  { unfold checked_verbosity in Hvalue.
    destruct (get VERBOSITY value (Some value)) as [r|]; [|done].
    cbn [mbind result_bind] in Hvalue. destruct r; try done.
    - by injection Hvalue as <-.
    - destruct (has VERBOSITY (JMember m)); [|done]. by injection Hvalue as <-. }
  assert (Hdefined : bool_decide (value = JUndefined) || bool_decide (value = JNull) = false).
  { destruct value; try done; by vm_compute in Hvalue. }
  destruct (generate_log_aliases_Ok PACKAGE_TITLE level) as [generated Hgenerated].
  exists {| CURRENT_VERBOSITY := level; aliases := generated |}.
  split; [|split; [reflexivity|split; [|split; [exact Hgenerated|]]]].
  2:{ cbn [CURRENT_VERBOSITY]. clear -Hlevel. destruct level; [discriminate Hlevel|reflexivity..]. }
  - unfold init.
    assert (negb force && negb (is_nullish (CURRENT_VERBOSITY st)) = false) as ->.
    { destruct Hrun as [-> | ->]; [done|]. by rewrite andb_false_r. }
    cbn [mbind result_bind]. rewrite Hdefined.
    unfold set_verbosity. rewrite Hvalue. cbn [mbind result_bind].
    by rewrite Hgenerated.
  - intros setting. unfold init. cbn [CURRENT_VERBOSITY]. by rewrite Hlevel.
Qed.

End LoggerInitTheorems.

Lemma init_adopts_setting_witness :
  Logger.checked_verbosity (JStr "debug") = Ok (Log.Level Log.DEBUG)
  ∧ ∃ st',
      Logger.init "libWrapper" true (Ok (JStr "debug"))
        {| Logger.CURRENT_VERBOSITY := Log.Nullish; Logger.aliases := [] |} = Ok st'
      ∧ Logger.CURRENT_VERBOSITY st' = Log.Level Log.DEBUG
      ∧ Logger.init "libWrapper" false (Ok (JStr "error")) st' = Ok st'.
Proof.
  assert (Hvalue : Logger.checked_verbosity (JStr "debug") = Ok (Log.Level Log.DEBUG))
    by reflexivity.
  split; [exact Hvalue|].
  destruct (init_adopts_setting "libWrapper" true (JStr "debug") (Log.Level Log.DEBUG)
              {| Logger.CURRENT_VERBOSITY := Log.Nullish; Logger.aliases := [] |}
              Hvalue (or_introl eq_refl))
    as (st' & Hinit & Hcurrent & _ & _ & Hagain).
  exists st'. split; [exact Hinit|]. split; [exact Hcurrent|]. apply Hagain.
Defined.

Section SettingsTheorems.
Import Polyfill.
Variable JSON_parse : string → result jsval.

Lemma game_settings_get_fallback_Ok (host : Settings) (namespace key : string)
    (always_fallback : bool) :
  (always_fallback = true ∨ settings_get host = None) →
  ∃ value, game_settings_get JSON_parse host namespace key always_fallback true = Ok value.
Proof.
  intros Hfallback. unfold game_settings_get.
  assert (Hstorage : ∀ c : result jsval,
            ∃ value, match c with Ok json_data => Ok json_data | Throw _ => Ok JNull end
                     = Ok value).
  { intros [v|e]; by eexists. }
  destruct (settings_get host) as [get|]; [|apply Hstorage].
  destruct Hfallback as [->|?]; [|done].
  destruct (get namespace key); [by eexists|]. apply Hstorage.
Qed.

(** X26. The outcomes of [game_settings_get].  What the host's
    [game.settings.get] returns is returned as it is.  With [return_null]
    the call cannot fail once the host method is absent or
    [always_fallback] is set.  A failure is either the exception of the
    host method, without [always_fallback], or, without [return_null], the
    internal error whose message ends in the note on an exception in the
    polyfill: the plain message for a missing setting never leaves the
    function.  A value read from [localStorage] is what [JSON.parse] gives
    for the stored string, and is neither null nor undefined. *)
Theorem game_settings_get_outcomes (host : Settings) (namespace key : string)
    (always_fallback return_null : bool) :
  let r := game_settings_get JSON_parse host namespace key always_fallback return_null in
  (∀ get value, settings_get host = Some get → get namespace key = Ok value →
     r = Ok value)
  ∧ (return_null = true →
     always_fallback = true ∨ settings_get host = None →
     ∃ value, r = Ok value)
  ∧ (∀ e, r = Throw e →
       (always_fallback = false
        ∧ ∃ get, settings_get host = Some get ∧ get namespace key = Throw e)
       ∨ (return_null = false
          ∧ e = InternalError ("Unable to obtain the setting '" ++ namespace ++ "." ++ key
                               ++ "' due to exception in polyfill:")))
  ∧ (∀ value, r = Ok value →
       (∃ get, settings_get host = Some get ∧ get namespace key = Ok value)
       ∨ (value = JNull ∧ return_null = true)
       ∨ (value ≠ JNull ∧ value ≠ JUndefined
          ∧ ∃ storage data,
              localStorage host = Some storage
              ∧ storage (namespace ++ "." ++ key) = Some data
              ∧ JSON_parse data = Ok value)).
Proof.
  intros r. subst r.
  split; [|split; [|split]].
  - intros get value Hget Hvalue. unfold game_settings_get. by rewrite Hget, Hvalue.
  - intros -> Hfallback. by apply game_settings_get_fallback_Ok.
  - intros e. unfold game_settings_get, unable_to_obtain.
    destruct (settings_get host) as [get|].
    + destruct (get namespace key) as [value|e'] eqn:Hget; [done|].
      destruct always_fallback; simpl.
      * destruct (match _ with Some _ => _ | None => _ end) as [?|?]; [done|].
        destruct return_null; [done|]. intros [= <-]. right. split; [done|].
        by rewrite !append_assoc.
      * intros [= <-]. left. by eauto.
    + destruct (match _ with Some _ => _ | None => _ end) as [?|?]; [done|].
      destruct return_null; [done|]. intros [= <-]. right. split; [done|].
      by rewrite !append_assoc.
  - intros value. unfold game_settings_get.
    assert (Hstorage : ∀ c : result jsval,
      c = match Host.chain (localStorage host) (λ storage, storage (namespace ++ "." ++ key)) with
          | None => if return_null then Ok JNull
                    else Throw (InternalError (unable_to_obtain (namespace ++ "." ++ key)))
          | Some data =>
              json_data ← JSON_parse data;
              if bool_decide (json_data = JUndefined) || bool_decide (json_data = JNull)
              then if return_null then Ok JNull
                   else Throw (InternalError (unable_to_obtain (namespace ++ "." ++ key)))
              else Ok json_data
          end →
      match c with
      | Ok json_data => Ok json_data
      | Throw _ =>
          if return_null then Ok JNull
          else Throw (InternalError (unable_to_obtain (namespace ++ "." ++ key)
                                     ++ " due to exception in polyfill:"))
      end = Ok value →
      (value = JNull ∧ return_null = true)
      ∨ (value ≠ JNull ∧ value ≠ JUndefined
         ∧ ∃ storage data,
             localStorage host = Some storage
             ∧ storage (namespace ++ "." ++ key) = Some data
             ∧ JSON_parse data = Ok value)).
    { intros c Hc Hr. destruct c as [json_data|e].
      - injection Hr as ->.
        destruct (localStorage host) as [storage|] eqn:Hls; simpl in Hc.
        + destruct (storage (namespace ++ "." ++ key)) as [data|] eqn:Hdata.
          * destruct (JSON_parse data) as [parsed|] eqn:Hparsed; [|done].
            cbn [mbind result_bind] in Hc.
            destruct (bool_decide (parsed = JUndefined) || bool_decide (parsed = JNull))
              eqn:Hnull.
            -- destruct return_null; [|done]. injection Hc as ->. by left.
            -- injection Hc as ->. right.
               apply orb_false_iff in Hnull as [H1%bool_decide_eq_false H2%bool_decide_eq_false].
               split; [done|]. split; [done|]. by eauto.
          * destruct return_null; [|done]. injection Hc as ->. by left.
        + destruct return_null; [|done]. injection Hc as ->. by left.
      - destruct return_null; [|done]. injection Hr as <-. by left. }
    destruct (settings_get host) as [get|].
    + destruct (get namespace key) as [value'|e'] eqn:Hget.
      * intros [= ->]. left. by eauto.
      * destruct always_fallback; simpl; [|done].
        intros Hr. right. by eapply Hstorage.
    + intros Hr. right. by eapply Hstorage.
Qed.

End SettingsTheorems.

Section InitFromSettings.
Import Enums Log Logger.

(** X25. [Log.init] reads the setting through [game_settings_get] with
    both fallbacks on, so it fails only with the internal error of the
    setter, on a stored setting that is no verbosity: never because the
    host has no settings yet, throws, or holds nothing or something
    unreadable in [localStorage]. *)
Theorem init_fails_only_on_bad_setting (JSON_parse : string → result jsval)
    (host : Polyfill.Settings) (PACKAGE_ID PACKAGE_TITLE : string) (force : bool)
    (st : log_state) (e : error) :
  init PACKAGE_TITLE force
    (Polyfill.game_settings_get JSON_parse host PACKAGE_ID "log-verbosity" true true) st
  = Throw e →
  e = invalid_verbosity
  ∧ ∃ value,
      Polyfill.game_settings_get JSON_parse host PACKAGE_ID "log-verbosity" true true
      = Ok value
      ∧ checked_verbosity value = Throw e.
Proof.
  destruct (game_settings_get_fallback_Ok JSON_parse host PACKAGE_ID "log-verbosity" true
              (or_introl eq_refl)) as [value ->].
  unfold init.
  destruct (negb force && negb (is_nullish (CURRENT_VERBOSITY st))); [done|].
  cbn [mbind result_bind].
  destruct (bool_decide (value = JUndefined) || bool_decide (value = JNull)) eqn:Hnull.
  { destruct force; [|done].
    by destruct (generate_log_aliases_Ok PACKAGE_TITLE (CURRENT_VERBOSITY st)) as [? ->]. }
  unfold set_verbosity.
  destruct (checked_verbosity value) as [level|e'] eqn:Hchecked.
  { cbn [mbind result_bind].
    by destruct (generate_log_aliases_Ok PACKAGE_TITLE level) as [? ->]. }
  cbn [mbind result_bind]. intros [= ->].
  apply checked_verbosity_Throw in Hchecked as Hcases.
  destruct Hcases as [ [-> _] | -> ]; [done|].
  split; [done|]. by eauto.
Qed.

End InitFromSettings.

Lemma init_fails_only_on_bad_setting_witness :
  let host := {| Polyfill.settings_get := None;
                 Polyfill.localStorage :=
                   Some (λ k, if bool_decide (k = "lib-wrapper.log-verbosity")
                              then Some "true" else None) |} in
  let JSON_parse := λ _ : string, Ok (JBool true) in
  let st := {| Logger.CURRENT_VERBOSITY := Log.Nullish; Logger.aliases := [] |} in
  let e := Logger.invalid_verbosity in
  Logger.init "libWrapper" false
    (Polyfill.game_settings_get JSON_parse host "lib-wrapper" "log-verbosity" true true) st
  = Throw e
  ∧ ∃ value,
      Polyfill.game_settings_get JSON_parse host "lib-wrapper" "log-verbosity" true true
      = Ok value
      ∧ Logger.checked_verbosity value = Throw e.
Proof.
  intros host JSON_parse st e.
  assert (Hinit : Logger.init "libWrapper" false
            (Polyfill.game_settings_get JSON_parse host "lib-wrapper" "log-verbosity" true true)
            st = Throw e) by reflexivity.
  split; [exact Hinit|].
  exact (proj2 (init_fails_only_on_bad_setting JSON_parse host "lib-wrapper" "libWrapper"
                  false st e Hinit)).
Defined.

Section UserTheorems.
Import Polyfill.

Lemma find_user_first (userid : string) (users : list UserData) (u : UserData) :
  find_user userid users = Some u →
  ∃ before after,
    users = (before ++ u :: after)%list
    ∧ user_id u = userid
    ∧ Forall (λ x, user_id x ≠ userid) before.
Proof.
  unfold find_user. induction users as [|x users IH]; [done|].
  rewrite filter_cons. destruct (decide (user_id x = userid)) as [Hx|Hx].
  - intros [= ->]. exists [], users. by repeat split.
  - intros (before & after & -> & Hu & Hbefore)%IH.
    exists (x :: before), after. split; [done|]. split; [done|]. by constructor.
Qed.

(** X27. The outcomes of [game_user_data] and [game_user_isGM].
    [game.user.data] is returned when it is there; with [return_null] the
    call never fails, and without it the call never returns null; a user
    found without [game.user.data] is the first entry of
    [game.data.users] whose id is the current user id, which is not
    empty; and when [game.user.isGM] is undefined, a boolean answer of
    [game_user_isGM] says whether the role of that user is 4. *)
Theorem game_user_data_outcomes (game : Users) (return_null : bool) :
  (∀ u, user_data game = Some u → game_user_data game return_null = Ok (Some u))
  ∧ (∃ r, game_user_data game true = Ok r)
  ∧ (∀ r, game_user_data game false = Ok r → is_Some r)
  ∧ (∀ u, user_data game = None →
       game_user_data game return_null = Ok (Some u) →
       ∃ userid users before after,
         Host.nullish_or (userId game) (data_userId game) = Some userid
         ∧ userid ≠ ""
         ∧ data_users game = Some users
         ∧ users = (before ++ u :: after)%list
         ∧ user_id u = userid
         ∧ Forall (λ x, user_id x ≠ userid) before)
  ∧ (∀ b, user_isGM game = None →
       game_user_isGM game return_null = Ok (JBool b) →
       ∃ u, game_user_data game return_null = Ok (Some u) ∧ (b = true ↔ role u = 4)).
Proof.
  split; [|split; [|split; [|split]]].
  - intros u Hu. unfold game_user_data. by rewrite Hu.
  - unfold game_user_data. destruct (user_data game); [by eexists|].
    destruct (negb _); [by eexists|].
    destruct (Host.chain _ _); by eexists.
  - intros r. unfold game_user_data. destruct (user_data game); [intros [= <-]; by eexists|].
    destruct (negb _); [done|].
    destruct (Host.chain _ _); [intros [= <-]; by eexists|done].
  - intros u Hnone. unfold game_user_data. rewrite Hnone.
    destruct (Host.nullish_or (userId game) (data_userId game)) as [userid|] eqn:Hid.
    2:{ simpl. by destruct return_null. }
    simpl. destruct userid as [|c userid]; simpl; [by destruct return_null|].
    destruct (data_users game) as [users|] eqn:Husers; simpl.
    2:{ by destruct return_null. }
    destruct (find_user (String c userid) users) as [found|] eqn:Hfound.
    2:{ by destruct return_null. }
    intros [= ->].
    destruct (find_user_first _ _ _ Hfound) as (before & after & Hsplit & Hu & Hbefore).
    exists (String c userid), users, before, after. by repeat split.
  - intros b HisGM. unfold game_user_isGM. rewrite HisGM.
    destruct (game_user_data game return_null) as [[u|]|e]; [|done..].
    cbn [mbind result_bind]. intros [= <-]. exists u. split; [done|].
    by rewrite Z.eqb_eq.
Qed.

End UserTheorems.
